(** * A sequential embedding of the multicast ring-buffer channel

    Source: [generic/multicast.go] (package [multicast]).

    The channel is a ring of [N] slots shared by producers ([FastSend],
    [Send]) and by any number of receiving endpoints ([Range]).  Every
    method of the Go code is embedded as a function on an explicit
    channel state.  Fixed-width integers are [Z] with the wrap-around
    written out; slices are lists with checked indexing (an index out of
    range is a Go panic); a call that spins or waits for another
    goroutine is a suspended call that carries the state it has reached.

    The operations are atomic at the granularity of one call (or one
    suspended prefix of a call): the goroutines are interleaved between
    calls, not inside them. *)

From Stdlib Require Import ZArith String Lia.
From stdpp Require Import base list.

Local Open Scope Z_scope.

(** ** Machine integers *)

Definition u64 (x : Z) : Z := x mod 2 ^ 64.
Definition u32 (x : Z) : Z := x mod 2 ^ 32.
Definition i64 (x : Z) : Z := (x + 2 ^ 63) mod 2 ^ 64 - 2 ^ 63.

(** [uint64(x) << s] for a count [s] of type [uint]: Go yields zero once
    the count reaches the width of the operand. *)
Definition shl64 (x s : Z) : Z :=
  if s <? 64 then u64 (Z.shiftl x s) else 0.

(** [time.Time.Sub] saturates at the bounds of [time.Duration] (int64
    nanoseconds); instants are nanoseconds on an unbounded axis. *)
Definition sat64 (x : Z) : Z := Z.max (- 2 ^ 63) (Z.min (2 ^ 63 - 1) x).
Definition since (start now : Z) : Z := sat64 (now - start).

Definition millisecond : Z := 1000000.

(** ** Constants of the source *)

Definition ChannelError := string.
(** A Go [error] value: [nil] or an error. *)
Definition error := option ChannelError.

Definition ErrOutOfEndpoints : ChannelError := "out of endpoints"%string.

(* Activity of committer *)
Definition resting : Z := 0.
Definition working : Z := 1.

(* Activity of endpoints *)
Definition idling : Z := 0.
Definition enumerating : Z := 1.
Definition creating : Z := 2.

(* State of endpoint and channel *)
Definition active : Z := 0.
Definition canceled : Z := 1.
Definition closed : Z := 2.

(* Cursor is parked so it does not influence advancing the commit index. *)
Definition parked : Z := 2 ^ 64 - 1.

Definition ReplayAll : Z := 2 ^ 64 - 1.

(** ** Results of a call *)

(** A call on a state of type [S] with a result of type [A] either
    returns, panics, or is suspended: it spins on a guard, spins on a
    full buffer, waits on the condition variable, or was preempted at the
    head of a loop.  A suspended call carries the state it has reached,
    which is what the other goroutines see. *)
Inductive outcome (S A : Type) : Type :=
| Ret (s : S) (a : A)
| Panic (msg : string)
| Susp (s : S).

Arguments Ret {S A} s a.
Arguments Panic {S A} msg.
Arguments Susp {S A} s.

Definition index_out_of_range : string := "index out of range"%string.

(** ** Data model *)

(** An endpoint record.  The embedded channel pointer is either nil or the
    channel that owns the endpoint table, hence a boolean. *)
Record EndpointFoo : Type := mkEndpoint {
  chanRef : bool;
  cursor : Z;
  endpointState : Z;
  lastActive : Z;
  endpointClosed : Z
}.

Definition zeroEndpoint : EndpointFoo :=
  {| chanRef := false; cursor := 0; endpointState := 0; lastActive := 0;
     endpointClosed := 0 |}.

Definition set_chanRef (b : bool) (e : EndpointFoo) : EndpointFoo :=
  {| chanRef := b; cursor := cursor e; endpointState := endpointState e;
     lastActive := lastActive e; endpointClosed := endpointClosed e |}.
Definition set_cursor (v : Z) (e : EndpointFoo) : EndpointFoo :=
  {| chanRef := chanRef e; cursor := v; endpointState := endpointState e;
     lastActive := lastActive e; endpointClosed := endpointClosed e |}.
Definition set_endpointState (v : Z) (e : EndpointFoo) : EndpointFoo :=
  {| chanRef := chanRef e; cursor := cursor e; endpointState := v;
     lastActive := lastActive e; endpointClosed := endpointClosed e |}.
Definition set_lastActive (v : Z) (e : EndpointFoo) : EndpointFoo :=
  {| chanRef := chanRef e; cursor := cursor e; endpointState := endpointState e;
     lastActive := v; endpointClosed := endpointClosed e |}.
Definition set_endpointClosed (v : Z) (e : EndpointFoo) : EndpointFoo :=
  {| chanRef := chanRef e; cursor := cursor e; endpointState := endpointState e;
     lastActive := lastActive e; endpointClosed := v |}.

Record endpointsFoo : Type := mkEndpoints {
  entry : list EndpointFoo;
  len : Z;
  endpointsActivity : Z
}.

(** The records [entry[0..len)] that the loops of the source enumerate. *)
Definition live (e : endpointsFoo) : list EndpointFoo :=
  take (Z.to_nat (len e)) (entry e).

Section Multicast.

(** The element type of the template and its zero value. *)
Context {foo : Type} (zero : foo).

(** [uint(math.Ceil(math.Log2(float64(n))))]: the floating-point part of
    the constructor, taken as a parameter. *)
Variable ceilLog2 : Z -> Z.

Record ChanFoo : Type := mkChan {
  buffer : list foo;
  begin : Z;
  end_ : Z;
  commit : Z;
  mod_ : Z;
  endpoints : endpointsFoo;
  err : error;
  channelState : Z;
  write : Z;
  start : Z;
  written : list Z;
  committerActivity : Z
}.

Definition set_buffer (v : list foo) (c : ChanFoo) : ChanFoo :=
  {| buffer := v; begin := begin c; end_ := end_ c; commit := commit c;
     mod_ := mod_ c; endpoints := endpoints c; err := err c;
     channelState := channelState c; write := write c; start := start c;
     written := written c; committerActivity := committerActivity c |}.
Definition set_begin (v : Z) (c : ChanFoo) : ChanFoo :=
  {| buffer := buffer c; begin := v; end_ := end_ c; commit := commit c;
     mod_ := mod_ c; endpoints := endpoints c; err := err c;
     channelState := channelState c; write := write c; start := start c;
     written := written c; committerActivity := committerActivity c |}.
Definition set_end (v : Z) (c : ChanFoo) : ChanFoo :=
  {| buffer := buffer c; begin := begin c; end_ := v; commit := commit c;
     mod_ := mod_ c; endpoints := endpoints c; err := err c;
     channelState := channelState c; write := write c; start := start c;
     written := written c; committerActivity := committerActivity c |}.
Definition set_commit (v : Z) (c : ChanFoo) : ChanFoo :=
  {| buffer := buffer c; begin := begin c; end_ := end_ c; commit := v;
     mod_ := mod_ c; endpoints := endpoints c; err := err c;
     channelState := channelState c; write := write c; start := start c;
     written := written c; committerActivity := committerActivity c |}.
Definition set_endpoints (v : endpointsFoo) (c : ChanFoo) : ChanFoo :=
  {| buffer := buffer c; begin := begin c; end_ := end_ c; commit := commit c;
     mod_ := mod_ c; endpoints := v; err := err c;
     channelState := channelState c; write := write c; start := start c;
     written := written c; committerActivity := committerActivity c |}.
Definition set_err (v : error) (c : ChanFoo) : ChanFoo :=
  {| buffer := buffer c; begin := begin c; end_ := end_ c; commit := commit c;
     mod_ := mod_ c; endpoints := endpoints c; err := v;
     channelState := channelState c; write := write c; start := start c;
     written := written c; committerActivity := committerActivity c |}.
Definition set_channelState (v : Z) (c : ChanFoo) : ChanFoo :=
  {| buffer := buffer c; begin := begin c; end_ := end_ c; commit := commit c;
     mod_ := mod_ c; endpoints := endpoints c; err := err c;
     channelState := v; write := write c; start := start c;
     written := written c; committerActivity := committerActivity c |}.
Definition set_write (v : Z) (c : ChanFoo) : ChanFoo :=
  {| buffer := buffer c; begin := begin c; end_ := end_ c; commit := commit c;
     mod_ := mod_ c; endpoints := endpoints c; err := err c;
     channelState := channelState c; write := v; start := start c;
     written := written c; committerActivity := committerActivity c |}.
Definition set_written (v : list Z) (c : ChanFoo) : ChanFoo :=
  {| buffer := buffer c; begin := begin c; end_ := end_ c; commit := commit c;
     mod_ := mod_ c; endpoints := endpoints c; err := err c;
     channelState := channelState c; write := write c; start := start c;
     written := v; committerActivity := committerActivity c |}.
Definition set_committerActivity (v : Z) (c : ChanFoo) : ChanFoo :=
  {| buffer := buffer c; begin := begin c; end_ := end_ c; commit := commit c;
     mod_ := mod_ c; endpoints := endpoints c; err := err c;
     channelState := channelState c; write := write c; start := start c;
     written := written c; committerActivity := v |}.

Definition set_entry (v : list EndpointFoo) (c : ChanFoo) : ChanFoo :=
  set_endpoints {| entry := v; len := len (endpoints c);
                   endpointsActivity := endpointsActivity (endpoints c) |} c.
Definition set_len (v : Z) (c : ChanFoo) : ChanFoo :=
  set_endpoints {| entry := entry (endpoints c); len := v;
                   endpointsActivity := endpointsActivity (endpoints c) |} c.
Definition set_endpointsActivity (v : Z) (c : ChanFoo) : ChanFoo :=
  set_endpoints {| entry := entry (endpoints c); len := len (endpoints c);
                   endpointsActivity := v |} c.

(** [ep.f = v] through the pointer [ep = &c.endpoints.entry[idx]]. *)
Definition upd_entry (idx : nat) (f : EndpointFoo -> EndpointFoo) (c : ChanFoo)
  : ChanFoo :=
  set_entry (alter f idx (entry (endpoints c))) c.

(** The slot of a counter: [counter & c.mod]. *)
Definition slot (c : ChanFoo) (counter : Z) : nat :=
  Z.to_nat (Z.land counter (mod_ c)).

(** ** NewChanFoo *)

Definition NewChanFoo (bufferCapacity endpointCapacity now : Z)
  : outcome ChanFoo unit :=
  (* Round capacity up to power of 2 *)
  let size := shl64 1 (ceilLog2 bufferCapacity) in
  if endpointCapacity <? 0 then Panic "makeslice: len out of range"
  else
    Ret {| end_ := size;
           mod_ := u64 (size - 1);
           buffer := replicate (Z.to_nat size) zero;
           start := now;
           written := replicate (Z.to_nat size) 0;
           endpoints :=
             {| entry := replicate (Z.to_nat endpointCapacity) zeroEndpoint;
                len := 0; endpointsActivity := idling |};
           begin := 0; commit := 0; err := None; channelState := active;
           write := 0; committerActivity := resting |} tt.

(** ** Access

    The caller spins until the guard is [idling].  Between two calls of
    this embedding nobody releases the guard, so a call that finds it
    taken is suspended; a call that takes it at the first attempt met no
    contention and [Access] returns [true]. *)
Definition Access {A : Type} (c : ChanFoo)
    (access : ChanFoo -> outcome ChanFoo A) : outcome ChanFoo (A * bool) :=
  if endpointsActivity (endpoints c) =? idling then
    match access (set_endpointsActivity enumerating c) with
    | Ret c' a => Ret (set_endpointsActivity idling c') (a, true)
    | Panic m => Panic m
    | Susp c' => Susp c'
    end
  else Susp c.

(** [for i := uint32(0); i < endpoints.len; i++ { ... endpoints.entry[i] ... }]
    panics as soon as [len] exceeds the length of [entry]. *)
Definition entries_in_range (c : ChanFoo) : bool :=
  len (endpoints c) <=? Z.of_nat (length (entry (endpoints c))).

(** ** Close *)

Definition close_endpoint (ep : EndpointFoo) : EndpointFoo :=
  if endpointState ep =? active then set_endpointState closed ep else ep.

Definition Close (c : ChanFoo) (e : error) : outcome ChanFoo unit :=
  if channelState c =? active then
    let c := set_err e (set_channelState closed c) in
    match Access c (fun c =>
            if entries_in_range c then
              let n := Z.to_nat (len (endpoints c)) in
              let es := entry (endpoints c) in
              Ret (set_entry ((close_endpoint <$> take n es) ++ drop n es) c) tt
            else Panic index_out_of_range) with
    | Ret c' _ => Ret c' tt
    | Panic m => Panic m
    | Susp c' => Susp c'
    end
  else Ret c tt.

(** ** Closed *)

Definition Closed (c : ChanFoo) : bool := closed <=? channelState c.

(** ** slideBuffer *)

Definition slowest (c : ChanFoo) : Z :=
  foldl (fun slowestCursor ep =>
           if cursor ep <? slowestCursor then cursor ep else slowestCursor)
        parked (live (endpoints c)).

Definition slideBuffer (c : ChanFoo) : outcome ChanFoo bool :=
  match Access c (fun c =>
          if entries_in_range c then
            let slowestCursor := slowest c in
            if (begin c <? slowestCursor) && (slowestCursor <=? end_ c) then
              if mod_ c <? 16 then
                Ret (set_end (u64 (end_ c + 1)) (set_begin (u64 (begin c + 1)) c))
                    slowestCursor
              else
                Ret (set_end (u64 (slowestCursor + mod_ c + 1))
                       (set_begin slowestCursor c))
                    slowestCursor
            else Ret c parked
          else Panic index_out_of_range) with
  | Ret c' (slowestCursor, spinlock) =>
      if slowestCursor =? parked then
        (* spinlock while full *)
        if channelState c' =? active then Ret c' true
        else Ret c' false (* !more *)
      else Ret c' true (* more *)
  | Panic m => Panic m
  | Susp c' => Susp c'
  end.

(** ** commitData *)

(** The loop
    [for ; written[newcommit&mod]&1 == 1; newcommit++ { written[..] -= 1; if newcommit >= end { break } }].
    Every iteration clears the low bit of one marker, so the loop ends
    within [length written + 1] iterations (see [commit_walk_fuel]). *)
Fixpoint commit_walk (fuel : nat) (md e : Z) (w : list Z) (newcommit : Z)
  : outcome (list Z) Z :=
  match fuel with
  | O => Susp w
  | S fuel =>
      let i := Z.to_nat (Z.land newcommit md) in
      match w !! i with
      | None => Panic index_out_of_range
      | Some m =>
          if Z.land m 1 =? 1 then
            let w := <[i := i64 (m - 1)]> w in
            if e <=? newcommit then Ret w newcommit
            else commit_walk fuel md e w (u64 (newcommit + 1))
          else Ret w newcommit
      end
  end.

Definition commitData (c : ChanFoo) : outcome ChanFoo Z :=
  let commit0 := commit c in
  if write c <=? commit0 then Ret c commit0
  else if negb (committerActivity c =? resting) then
    Ret c commit0 (* allow only a single receiver goroutine at a time *)
  else
    let c := set_committerActivity working c in
    let commit0 := commit c in
    match commit_walk (S (length (written c))) (mod_ c) (end_ c) (written c)
            commit0 with
    | Panic m => Panic m
    | Susp w => Susp (set_written w c)
    | Ret w newcommit =>
        let c := set_written w c in
        if write c <? newcommit then Panic "commitData: range error"
        else
          let c := if commit0 <? newcommit then set_commit newcommit c else c in
          let c := set_committerActivity resting c in
          Ret c (commit c)
    end.

(** ** FastSend *)

(** [c.buffer[i] = value] *)
Definition store_buffer (c : ChanFoo) (i : nat) (value : foo)
  : outcome ChanFoo unit :=
  if decide (i < length (buffer c))%nat
  then Ret (set_buffer (<[i := value]> (buffer c)) c) tt
  else Panic index_out_of_range.

(** [for c.commit == c.end { if !c.slideBuffer() { return } }]; the
    boolean of the result tells whether the loop was left by its
    condition ([true]) or by the [return] ([false]). *)
Fixpoint FastSend_full (fuel : nat) (c : ChanFoo) : outcome ChanFoo bool :=
  match fuel with
  | O => Susp c
  | S fuel =>
      if commit c =? end_ c then
        match slideBuffer c with
        | Ret c' true => FastSend_full fuel c'
        | Ret c' false => Ret c' false (* channel was closed *)
        | Panic m => Panic m
        | Susp c' => Susp c'
        end
      else Ret c true
  end.

Definition FastSend (fuel : nat) (c : ChanFoo) (value : foo)
  : outcome ChanFoo unit :=
  match FastSend_full fuel c with
  | Ret c false => Ret c tt
  | Ret c true =>
      match store_buffer c (slot c (commit c)) value with
      | Ret c _ => Ret (set_commit (u64 (commit c + 1)) c) tt
      | other => other
      end
  | Panic m => Panic m
  | Susp c => Susp c
  end.

(** ** Send *)

(** [for write >= atomic.LoadUint64(&c.end) { if !c.slideBuffer() { return } }] *)
Fixpoint Send_full (fuel : nat) (c : ChanFoo) (w : Z) : outcome ChanFoo bool :=
  match fuel with
  | O => Susp c
  | S fuel =>
      if end_ c <=? w then
        match slideBuffer c with
        | Ret c' true => Send_full fuel c' w
        | Ret c' false => Ret c' false (* channel was closed *)
        | Panic m => Panic m
        | Susp c' => Susp c'
        end
      else Ret c true
  end.

(** [now] is the reading of the clock at [time.Since(c.start)]. *)
Definition Send (fuel : nat) (c : ChanFoo) (value : foo) (now : Z)
  : outcome ChanFoo unit :=
  let w := write c in
  let c := set_write (u64 (write c + 1)) c in
  match Send_full fuel c w with
  | Ret c false => Ret c tt
  | Ret c true =>
      match store_buffer c (slot c w) value with
      | Ret c _ =>
          let updated := since (start c) now in
          if updated =? 0 then Panic "clock failure; zero duration measured"
          else
            let i := slot c w in
            if decide (i < length (written c))%nat then
              Ret (set_written (<[i := i64 (Z.shiftl updated 1 + 1)]> (written c)) c) tt
            else Panic index_out_of_range
      | other => other
      end
  | Panic m => Panic m
  | Susp c => Susp c
  end.

(** ** NewEndpoint *)

(** The result is a pair of an endpoint pointer and an error: the endpoint
    is the address of a record of the table, that is, its index. *)
(** The cursor at which a new endpoint starts:
    [if commit-begin <= keep { start = begin } else { start = commit - keep }]. *)
Definition start_cursor (commit1 begin1 keep : Z) : Z :=
  if u64 (commit1 - begin1) <=? keep then begin1 else u64 (commit1 - keep).

(** The three assignments [ep.cursor = start] (or the successful
    compare-and-swap from [parked]), [ep.endpointState = c.channelState]
    and [ep.lastActive = time.Now()]. *)
Definition attach (start1 state now : Z) (ep : EndpointFoo) : EndpointFoo :=
  set_lastActive now (set_endpointState state (set_cursor start1 ep)).

Definition NewForChanFoo (c : ChanFoo) (keep now : Z)
  : outcome ChanFoo (nat + ChannelError) :=
  if negb (endpointsActivity (endpoints c) =? idling) then Susp c
  else
    let c := set_endpointsActivity creating c in
    match commitData c with
    | Panic m => Panic m
    | Susp c => Susp c
    | Ret c commit1 =>
        let start1 := start_cursor commit1 (begin c) keep in
        let e := endpoints c in
        if len e =? Z.of_nat (length (entry e)) then
          match list_find (fun ep => cursor ep = parked) (live e) with
          | Some (index, _) =>
              Ret (set_endpointsActivity idling
                     (upd_entry index (attach start1 (channelState c) now) c))
                  (inl index)
          | None => Ret (set_endpointsActivity idling c) (inr ErrOutOfEndpoints)
          end
        else
          let index := Z.to_nat (len e) in
          if decide (index < length (entry e))%nat then
            Ret (set_endpointsActivity idling
                   (set_len (u32 (len e + 1))
                      (upd_entry index
                         (fun ep => attach start1 (channelState c) now
                                      (set_chanRef true ep)) c)))
                (inl index)
          else Panic index_out_of_range
    end.

Definition NewEndpoint (c : ChanFoo) (keep now : Z)
  : outcome ChanFoo (nat + ChannelError) :=
  NewForChanFoo c keep now.

(** ** Cancel *)

Definition Cancel (c : ChanFoo) (e : nat) : ChanFoo :=
  upd_entry e (fun ep => if endpointState ep =? active
                         then set_endpointState canceled ep else ep) c.

(** ** Range *)

(** One call of the callback: [foreach(value, err, closed)]. *)
Definition Call : Type := foo * error * bool.

(** The callback is a Go closure that does not touch the channel: its
    answer depends on its arguments and on the calls it has seen. *)
Definition Foreach : Type := list Call -> Call -> bool.

(** What a call of [Range] threads through its loops: the channel, the
    number of clock readings taken, and the calls of the callback made so
    far.  The [n]-th reading of [time.Now()] is [clock n]. *)
Record RangeSt : Type := mkRangeSt {
  rs_chan : ChanFoo;
  rs_tick : nat;
  rs_calls : list Call
}.

Definition on_chan (f : ChanFoo -> ChanFoo) (s : RangeSt) : RangeSt :=
  {| rs_chan := f (rs_chan s); rs_tick := rs_tick s; rs_calls := rs_calls s |}.
Definition tick (s : RangeSt) : RangeSt :=
  {| rs_chan := rs_chan s; rs_tick := S (rs_tick s); rs_calls := rs_calls s |}.
Definition record_call (k : Call) (s : RangeSt) : RangeSt :=
  {| rs_chan := rs_chan s; rs_tick := rs_tick s; rs_calls := rs_calls s ++ [k] |}.

(** The record behind the endpoint pointer [e]. *)
Definition the_ep (c : ChanFoo) (e : nat) : EndpointFoo :=
  default zeroEndpoint (entry (endpoints c) !! e).

(** [atomic.StoreUint64(&e.cursor, parked)] *)
Definition park (e : nat) (c : ChanFoo) : ChanFoo :=
  upd_entry e (set_cursor parked) c.

(** [commit = e.commitData()] inside [Range]. *)
Definition Range_commitData (s : RangeSt) : outcome RangeSt Z :=
  match commitData (rs_chan s) with
  | Ret c k => Ret (on_chan (fun _ => c) s) k
  | Panic m => Panic m
  | Susp c => Susp (on_chan (fun _ => c) s)
  end.

(** The age filter of one slot: the value of [emit] after
    [if maxAge != 0 { ... }], for the marker [m] of the slot and the clock
    reading [now]. *)
Definition emit (start0 maxAge now m : Z) : bool :=
  if maxAge =? 0 then true
  else
    let stale := i64 (since start0 now - maxAge) in
    let updated := Z.shiftr m 1 in
    if negb (updated =? 0) && (updated <=? stale) then false else true.

(** The body of [for ; e.cursor != commit; atomic.AddUint64(&e.cursor, 1)]
    up to the test of [endpointState]: the result is the state after
    [if emit && !foreach(item, nil, false) { ... }]. *)
Definition Range_item (e : nat) (foreach : Foreach) (maxAge : Z)
    (clock : nat -> Z) (s : RangeSt) : outcome RangeSt unit :=
  let c := rs_chan s in
  let i := slot c (cursor (the_ep c e)) in
  match buffer c !! i with
  | None => Panic index_out_of_range
  | Some item =>
      let now := clock (rs_tick s) in
      let s := if maxAge =? 0 then s else tick s in
      match (if maxAge =? 0 then Some 0 else written c !! i) with
      | None => Panic index_out_of_range
      | Some m =>
          if emit (start c) maxAge now m then
            let k : Call := (item, None, false) in
            let more := foreach (rs_calls s) k in
            let s := record_call k s in
            if more then Ret s tt
            else Ret (on_chan (upd_entry e (set_endpointState canceled)) s) tt
          else Ret s tt
      end
  end.

(** [for ; e.cursor != commit; atomic.AddUint64(&e.cursor, 1) { ... }]: the
    result is [true] when the loop was left by its condition and [false]
    when [Range] returned from inside it. *)
Fixpoint Range_process (fuel : nat) (e : nat) (foreach : Foreach)
    (maxAge : Z) (clock : nat -> Z) (commit1 : Z) (s : RangeSt)
  : outcome RangeSt bool :=
  match fuel with
  | O => Susp s
  | S fuel =>
      if cursor (the_ep (rs_chan s) e) =? commit1 then Ret s true
      else
        match Range_item e foreach maxAge clock s with
        | Panic m => Panic m
        | Susp s => Susp s
        | Ret s _ =>
            if endpointState (the_ep (rs_chan s) e) =? canceled then
              Ret (on_chan (park e) s) false
            else
              Range_process fuel e foreach maxAge clock commit1
                (on_chan (upd_entry e (fun ep =>
                            set_cursor (u64 (cursor ep + 1)) ep)) s)
        end
  end.

(** The body of [for ; e.cursor == commit; commit = e.commitData()].  The
    result is [true] when the body ran to its end, [false] when [Range]
    returned from inside it; the call is suspended where the source
    blocks on [e.receivers.Wait()]. *)
Definition Range_idle (e : nat) (foreach : Foreach) (clock : nat -> Z)
    (s : RangeSt) : outcome RangeSt bool :=
  let c := rs_chan s in
  let ep := the_ep c e in
  if endpointState ep =? canceled then Ret (on_chan (park e) s) false
  else if commit c <? write c then
    if endpointClosed ep =? 1 then
      Panic "data written after closing endpoint"
    else (* just backoff a little ~1us *)
      Ret (tick (on_chan (upd_entry e (set_lastActive (clock (rs_tick s)))) s))
          true
  else
    let now := clock (rs_tick s) in
    let s := tick s in
    if now <? lastActive ep + 1 * millisecond then
      if endpointState ep =? closed then
        (* note close happened, but don't close yet. *)
        Ret (on_chan (upd_entry e (set_endpointClosed 1)) s) true
      else Ret s true
    else if now <? lastActive ep + 250 * millisecond then
      if endpointState ep =? closed then
        let k : Call := (zero, err c, true) in
        let _ := foreach (rs_calls s) k in
        Ret (on_chan (park e) (record_call k s)) false (* we're done *)
      else Ret s true
    else Susp s (* block on condition *).

(** The result is the value of [commit] with which the loop was left, or
    [None] when [Range] returned from inside the loop. *)
Fixpoint Range_wait (fuel : nat) (e : nat) (foreach : Foreach)
    (clock : nat -> Z) (commit1 : Z) (s : RangeSt)
  : outcome RangeSt (option Z) :=
  match fuel with
  | O => Susp s
  | S fuel =>
      if cursor (the_ep (rs_chan s) e) =? commit1 then
        match Range_idle e foreach clock s with
        | Panic m => Panic m
        | Susp s => Susp s
        | Ret s false => Ret s None
        | Ret s true =>
            match Range_commitData s with
            | Panic m => Panic m
            | Susp s => Susp s
            | Ret s commit2 => Range_wait fuel e foreach clock commit2 s
            end
        end
      else Ret s (Some commit1)
  end.

(** The outer [for { ... }]. *)
Fixpoint Range_loop (fuel : nat) (e : nat) (foreach : Foreach)
    (maxAge : Z) (clock : nat -> Z) (s : RangeSt) : outcome RangeSt unit :=
  match fuel with
  | O => Susp s
  | S fuel' =>
      match Range_commitData s with
      | Panic m => Panic m
      | Susp s => Susp s
      | Ret s commit1 =>
          match Range_wait fuel e foreach clock commit1 s with
          | Panic m => Panic m
          | Susp s => Susp s
          | Ret s None => Ret s tt
          | Ret s (Some commit2) =>
              (* process data we got *)
              match Range_process fuel e foreach maxAge clock commit2 s with
              | Panic m => Panic m
              | Susp s => Susp s
              | Ret s false => Ret s tt
              | Ret s true =>
                  Range_loop fuel' e foreach maxAge clock
                    (tick (on_chan (upd_entry e
                             (set_lastActive (clock (rs_tick s)))) s))
              end
          end
      end
  end.

(** [e] is the endpoint pointer returned by [NewEndpoint]; a nil pointer,
    or a record without its channel, panics at the first field access. *)
Definition Range (fuel : nat) (c : ChanFoo) (e : nat) (foreach : Foreach)
    (maxAge : Z) (clock : nat -> Z) : outcome RangeSt unit :=
  match entry (endpoints c) !! e with
  | Some ep =>
      if chanRef ep then
        Range_loop fuel e foreach maxAge clock
          {| rs_chan := upd_entry e (set_lastActive (clock O)) c;
             rs_tick := 1%nat; rs_calls := [] |}
      else Panic "nil pointer dereference"
  | None => Panic "nil pointer dereference"
  end.

End Multicast.

Arguments ChanFoo foo : clear implicits.
Arguments RangeSt foo : clear implicits.
Arguments Foreach foo : clear implicits.
Arguments Call foo : clear implicits.

(** ** Reachable states *)

(** Forget the result of a call. *)
Definition forget {S A : Type} (o : outcome S A) : outcome S unit :=
  match o with
  | Ret s _ => Ret s tt
  | Panic m => Panic m
  | Susp s => Susp s
  end.

Definition forget_range {foo A : Type} (o : outcome (RangeSt foo) A)
  : outcome (ChanFoo foo) unit :=
  match o with
  | Ret s _ => Ret (rs_chan s) tt
  | Panic m => Panic m
  | Susp s => Susp (rs_chan s)
  end.

(** The calls a goroutine can make on a channel. *)
Inductive op (foo : Type) : Type :=
| OpClose (e : error)
| OpFastSend (fuel : nat) (value : foo)
| OpSend (fuel : nat) (value : foo) (now : Z)
| OpSlideBuffer
| OpCommitData
| OpNewEndpoint (keep now : Z)
| OpCancel (e : nat)
| OpRange (fuel : nat) (e : nat) (foreach : Foreach foo) (maxAge : Z)
    (clock : nat -> Z).

Arguments OpClose {foo} e.
Arguments OpFastSend {foo} fuel value.
Arguments OpSend {foo} fuel value now.
Arguments OpSlideBuffer {foo}.
Arguments OpCommitData {foo}.
Arguments OpNewEndpoint {foo} keep now.
Arguments OpCancel {foo} e.
Arguments OpRange {foo} fuel e foreach maxAge clock.

Definition exec {foo : Type} (zero : foo) (o : op foo) (c : ChanFoo foo)
  : outcome (ChanFoo foo) unit :=
  match o with
  | OpClose e => Close c e
  | OpFastSend fuel value => FastSend fuel c value
  | OpSend fuel value now => Send fuel c value now
  | OpSlideBuffer => forget (slideBuffer c)
  | OpCommitData => forget (commitData c)
  | OpNewEndpoint keep now => forget (NewEndpoint c keep now)
  | OpCancel e => Ret (Cancel c e) tt
  | OpRange fuel e foreach maxAge clock =>
      forget_range (Range zero fuel c e foreach maxAge clock)
  end.

(** [s] is the state a call leaves behind: the state at its return, or
    the state at which it is suspended. *)
Definition leaves {S A : Type} (o : outcome S A) (s : S) : Prop :=
  match o with
  | Ret s' _ => s' = s
  | Susp s' => s' = s
  | Panic _ => False
  end.

Definition after {foo : Type} (zero : foo) (o : op foo) (c c' : ChanFoo foo)
  : Prop :=
  leaves (exec zero o c) c'.

(** The states reachable from a channel whose buffer has [N] slots. *)
Inductive reachable {foo : Type} (zero : foo) (ceilLog2 : Z -> Z) (N : Z)
  : ChanFoo foo -> Prop :=
| reachable_new bufferCapacity endpointCapacity now c :
    NewChanFoo zero ceilLog2 bufferCapacity endpointCapacity now = Ret c tt ->
    N = shl64 1 (ceilLog2 bufferCapacity) ->
    reachable zero ceilLog2 N c
| reachable_step o c c' :
    reachable zero ceilLog2 N c ->
    after zero o c c' ->
    reachable zero ceilLog2 N c'.

(** The arguments of a call are values of their Go types, and [Range] is
    called on an endpoint that [NewEndpoint] handed out and that has not
    returned from [Range] since (every return of [Range] parks the
    cursor). *)
Definition wf_op {foo : Type} (c : ChanFoo foo) (o : op foo) : Prop :=
  match o with
  | OpNewEndpoint keep _ => 0 <= keep < 2 ^ 64
  | OpRange _ e _ _ _ =>
      (e < length (live (endpoints c)))%nat /\ cursor (the_ep c e) <> parked
  | _ => True
  end.

Definition is_FastSend {foo : Type} (o : op foo) : bool :=
  match o with
  | OpFastSend _ _ => true
  | _ => false
  end.

(** No counter is about to wrap around [2^64]: the window can still slide
    past [commit], and [write] can still be incremented. *)
Definition bounded {foo : Type} (c : ChanFoo foo) : Prop :=
  commit c + mod_ c + 1 < parked /\ write c < parked.

(** The states reachable before a counter wraps; the boolean records
    whether [FastSend] was called on the way. *)
Inductive reachable_bounded {foo : Type} (zero : foo) (ceilLog2 : Z -> Z)
  : bool -> ChanFoo foo -> Prop :=
| reachable_bounded_new bufferCapacity endpointCapacity now c :
    NewChanFoo zero ceilLog2 bufferCapacity endpointCapacity now = Ret c tt ->
    bounded c ->
    reachable_bounded zero ceilLog2 false c
| reachable_bounded_step fs o c c' :
    reachable_bounded zero ceilLog2 fs c ->
    bounded c ->
    wf_op c o ->
    after zero o c c' ->
    reachable_bounded zero ceilLog2 (fs || is_FastSend o) c'.

(** ** Invariants *)

(** [begin <= cursor <= commit] for a cursor that is not parked. *)
Definition cursor_in_window {foo : Type} (c : ChanFoo foo) (ep : EndpointFoo)
  : Prop :=
  cursor ep <> parked -> begin c <= cursor ep <= commit c.

(** The counter chain without [write]:
    [begin <= min(active cursor) <= commit <= end]. *)
Definition chain {foo : Type} (c : ChanFoo foo) : Prop :=
  begin c <= commit c /\ commit c <= end_ c /\
  Forall (cursor_in_window c) (live (endpoints c)).

(** The invariant behind the chain: the counters have not wrapped, and
    the window has [mod + 1] slots as integers. *)
Definition Inv {foo : Type} (c : ChanFoo foo) : Prop :=
  0 <= mod_ c /\ 0 <= begin c /\ end_ c = begin c + mod_ c + 1 /\
  end_ c < parked /\ 0 <= len (endpoints c) /\ chain c.

(** [commit <= write] holds as long as [FastSend], which publishes
    without reserving, has not been called ([fs = false]). *)
Definition Inv2 {foo : Type} (fs : bool) (c : ChanFoo foo) : Prop :=
  Inv c /\ (fs = false -> commit c <= write c).

(** The endpoint [e] is in use by a call of [Range]: it is one of the
    records handed out and its cursor is not parked. *)
Definition in_use {foo : Type} (e : nat) (c : ChanFoo foo) : Prop :=
  (e < length (live (endpoints c)))%nat /\ cursor (the_ep c e) <> parked.

(** The invariant of the loops of [Range] on the endpoint [e]. *)
Definition Range_inv {foo : Type} (fs : bool) (e : nat) (s : RangeSt foo)
  : Prop :=
  Inv2 fs (rs_chan s) /\ in_use e (rs_chan s).

(** What holds of a call: [Q] of the state and the result at its return,
    [Qs] of the state at which it is suspended. *)
Definition satisfies {S A : Type} (o : outcome S A) (Q : S -> A -> Prop)
    (Qs : S -> Prop) : Prop :=
  match o with
  | Ret s a => Q s a
  | Panic _ => True
  | Susp s => Qs s
  end.

(** The chain as the specification words it, with [write] between
    [commit] and [end]. *)
Definition chain_spec {foo : Type} (c : ChanFoo foo) : Prop :=
  chain c /\ commit c <= write c /\ write c <= end_ c.

(** The counters of the window. *)
Definition win {foo : Type} (c : ChanFoo foo) : Z * Z * Z :=
  (begin c, end_ c, mod_ c).

(** The window has [N] slots, in the arithmetic of [uint64]. *)
Definition window {foo : Type} (N : Z) (c : ChanFoo foo) : Prop :=
  0 <= N < 2 ^ 64 /\ mod_ c = u64 (N - 1) /\ u64 (end_ c - begin c) = N.

(** ** The slide of the source *)

(** The values that [slideBuffer] gives [begin] and [end] when it slides
    the window. *)
Definition slid_begin {foo : Type} (c : ChanFoo foo) : Z :=
  if mod_ c <? 16 then u64 (begin c + 1) else slowest c.
Definition slid_end {foo : Type} (c : ChanFoo foo) : Z :=
  if mod_ c <? 16 then u64 (end_ c + 1) else u64 (slowest c + mod_ c + 1).

(** A bound on the number of times the window can still slide: a slide
    needs [begin < slowest <= end] and moves [begin] up, never past the
    slowest cursor. *)
Definition slides_left {foo : Type} (c : ChanFoo foo) : nat :=
  if (begin c <? slowest c) && (slowest c <=? end_ c)
  then Z.to_nat (slowest c - begin c) else 0%nat.

(** ** The slide as the specification words it *)

(** [N < 16] advances [begin] and [end] by one, otherwise
    [begin = slowest] and [end = slowest + N], where [N = mod + 1]. *)
Definition slide_spec {foo : Type} (c : ChanFoo foo) : Z * Z :=
  let N := mod_ c + 1 in
  if N <? 16 then (u64 (begin c + 1), u64 (end_ c + 1))
  else (slowest c, u64 (slowest c + N)).

(** ** Sequences of calls *)

(** [c'] is reached from [c] by a sequence of calls, each taken up to its
    return or up to the point where it is suspended. *)
Inductive run {foo : Type} (zero : foo) : ChanFoo foo -> ChanFoo foo -> Prop :=
| run_refl c : run zero c c
| run_step o c c' c'' :
    run zero c c' -> after zero o c' c'' -> run zero c c''.

(** What a call can change of the shape of a channel: nothing of the
    sizes, and the state only from [active] to [closed]; the error is
    written by that transition only. *)
Definition stable {foo : Type} (c c' : ChanFoo foo) : Prop :=
  mod_ c' = mod_ c /\ start c' = start c /\
  length (buffer c') = length (buffer c) /\
  length (written c') = length (written c) /\
  length (entry (endpoints c')) = length (entry (endpoints c)) /\
  (channelState c' = channelState c \/
   (channelState c = active /\ channelState c' = closed)) /\
  (channelState c <> active -> err c' = err c).

(** Both guards are free and the watermark is within the table. *)
Definition quiet {foo : Type} (c : ChanFoo foo) : Prop :=
  endpointsActivity (endpoints c) = idling /\
  committerActivity c = resting /\
  0 <= len (endpoints c) <= Z.of_nat (length (entry (endpoints c))).

(** A step that keeps the guards free. *)
Definition keeps_quiet {foo : Type} (c c' : ChanFoo foo) : Prop :=
  quiet c -> quiet c'.

(** The guards are free and the mask is within the buffer and the
    markers. *)
Definition sound {foo : Type} (c : ChanFoo foo) : Prop :=
  quiet c /\ 0 <= mod_ c /\
  (Z.to_nat (mod_ c) < length (buffer c))%nat /\
  (Z.to_nat (mod_ c) < length (written c))%nat.

(** The number of published markers (low bit set). *)
Fixpoint count_odd (w : list Z) : nat :=
  match w with
  | [] => O
  | m :: w => if Z.land m 1 =? 1 then S (count_odd w) else count_odd w
  end.

(** No marker is published. *)
Definition all_even (w : list Z) : Prop :=
  forall i m, w !! i = Some m -> Z.land m 1 <> 1.

(** The calls [foreach(item, nil, false)] for the slots of the counters
    [k, k+1, ..., k+n-1]. *)
Fixpoint pending {foo : Type} (c : ChanFoo foo) (k : Z) (n : nat)
  : list (Call foo) :=
  match n with
  | O => []
  | S n =>
      match buffer c !! slot c k with
      | Some item => (item, None, false) :: pending c (k + 1) n
      | None => []
      end
  end.

(** ** Concrete channels *)

(** The state a call leaves behind, [c] itself after a panic. *)
Definition state_after {foo A : Type} (c : ChanFoo foo)
    (o : outcome (ChanFoo foo) A) : ChanFoo foo :=
  match o with
  | Ret s _ => s
  | Susp s => s
  | Panic _ => c
  end.

(** The channel a call of [Range] leaves behind, [c] itself after a
    panic. *)
Definition range_after {foo A : Type} (c : ChanFoo foo)
    (o : outcome (RangeSt foo) A) : ChanFoo foo :=
  match o with
  | Ret s _ => rs_chan s
  | Susp s => rs_chan s
  | Panic _ => c
  end.

Definition emptyChan : ChanFoo Z :=
  {| buffer := []; begin := 0; end_ := 0; commit := 0; mod_ := 0;
     endpoints := {| entry := []; len := 0; endpointsActivity := idling |};
     err := None; channelState := active; write := 0; start := 0;
     written := []; committerActivity := resting |}.

(** A channel of integers made at instant [1000] with an exact rounding
    of the capacity. *)
Definition newChan (bufferCapacity endpointCapacity : Z) : ChanFoo Z :=
  state_after emptyChan
    (NewChanFoo 0 Z.log2_up bufferCapacity endpointCapacity 1000).

(** A clock that advances by [step] nanoseconds between two readings. *)
Definition clock_from (t0 step : Z) (n : nat) : Z := t0 + step * Z.of_nat n.

Fixpoint send_all (c : ChanFoo Z) (now step : Z) (vs : list Z) : ChanFoo Z :=
  match vs with
  | [] => c
  | v :: vs => send_all (state_after c (Send 1 c v now)) (now + step) step vs
  end.

(** The states below are written as the values of the runs that make
    them; [concrete_runs] states the runs. *)

(** One slot, one endpoint record, nothing sent. *)
Definition chanOne : ChanFoo Z := Eval vm_compute in newChan 1 1.

(** ... one value sent with [FastSend]. *)
Definition chanOneSent : ChanFoo Z :=
  Eval vm_compute in state_after chanOne (FastSend 1 chanOne 11).

(** ... or one endpoint made. *)
Definition chanOneEp : ChanFoo Z :=
  Eval vm_compute in state_after chanOne (NewEndpoint chanOne 0 2000).

(** Sixteen slots, nothing sent. *)
Definition chan16Fresh : ChanFoo Z := Eval vm_compute in newChan 16 1.

(** ... three values sent with [FastSend]. *)
Definition chan16Sent : ChanFoo Z :=
  Eval vm_compute in
    let c := chan16Fresh in
    let c := state_after c (FastSend 1 c 11) in
    let c := state_after c (FastSend 1 c 12) in
    state_after c (FastSend 1 c 13).

(** ... and one endpoint that replays one value. *)
Definition chan16 : ChanFoo Z :=
  Eval vm_compute in state_after chan16Sent (NewEndpoint chan16Sent 1 2000).

(** ... and the window slid once. *)
Definition chan16Slid : ChanFoo Z :=
  Eval vm_compute in state_after chan16 (slideBuffer chan16).

(** One slot, one endpoint, the channel closed with ["bye"]. *)
Definition chanClosed : ChanFoo Z :=
  Eval vm_compute in
    state_after chanOneEp (Close chanOneEp (Some "bye"%string)).

(** ... and its only slot taken by a [Send] after the close. *)
Definition chanClosedFull : ChanFoo Z :=
  Eval vm_compute in state_after chanClosed (Send 1 chanClosed 7 3000).

(** ... and one more [Send], which finds the buffer full. *)
Definition chanClosedOver : ChanFoo Z :=
  Eval vm_compute in
    state_after chanClosedFull (Send 1 chanClosedFull 8 4000).

(** Eight slots, values [1..8] sent one millisecond apart, one endpoint
    that replays everything. *)
Definition chanAged : ChanFoo Z :=
  Eval vm_compute in
    let c := newChan 8 1 in
    let c := send_all c (1000 + millisecond) millisecond
               [1; 2; 3; 4; 5; 6; 7; 8] in
    state_after c (NewEndpoint c ReplayAll (1000 + 9 * millisecond)).

(** The endpoint of [chanClosed] runs [Range]: it sees the close within
    the first millisecond, and delivers it after 1.2 milliseconds. *)
Definition chanDrained : ChanFoo Z :=
  Eval vm_compute in
    range_after chanClosed
      (Range 0 3 chanClosed 0 (fun _ _ => true) 0 (clock_from 3000 600000)).

(** One slot and one endpoint; a value sent with [Send] and read by the
    endpoint, whose [Range] is then waiting; then the channel closed. *)
Definition chanReadClosed : ChanFoo Z :=
  Eval vm_compute in
    let c := state_after chanOneEp (Send 1 chanOneEp 101 3000) in
    let c := range_after c
               (Range 0 3 c 0 (fun _ _ => true) 0 (clock_from 4000 1000)) in
    state_after c (Close c (Some "bye"%string)).

(** ... and a [Send] on it, which slides the window and takes the slot. *)
Definition chanReadClosedSent : ChanFoo Z :=
  Eval vm_compute in state_after chanReadClosed (Send 2 chanReadClosed 102 5000).

(** One slot, one endpoint that is canceled and never runs [Range]. *)
Definition chanCanceled : ChanFoo Z :=
  Eval vm_compute in Cancel chanOneEp 0.

(** The state in which the [Range] of [chanDrained] returns. *)
Definition rangeDrained : RangeSt Z :=
  Eval vm_compute in
    match Range 0 3 chanClosed 0 (fun _ _ => true) 0
            (clock_from 3000 600000) with
    | Ret s _ => s
    | _ => {| rs_chan := chanClosed; rs_tick := 0; rs_calls := [] |}
    end.

(** [chanClosedFull] after [commitData]. *)
Definition chanCommitted : ChanFoo Z :=
  Eval vm_compute in state_after chanClosedFull (commitData chanClosedFull).

(** * Proofs *)

Section Proofs.

Context {foo : Type} (zero : foo) (ceilLog2 : Z -> Z).
Implicit Types (c : ChanFoo foo) (ep : EndpointFoo).

(** ** Machine integers *)

Lemma u64_range x : 0 <= u64 x < 2 ^ 64.
Proof. unfold u64. apply Z.mod_pos_bound. lia. Qed.

Lemma u64_small x : 0 <= x < 2 ^ 64 -> u64 x = x.
Proof. unfold u64. intros. by apply Z.mod_small. Qed.

Lemma u64_sub_u64 x y : u64 (u64 x - u64 y) = u64 (x - y).
Proof. unfold u64. by rewrite <- Zminus_mod. Qed.

Lemma u64_add_sub x y : u64 (u64 (x + y) - x) = u64 y.
Proof.
  unfold u64. rewrite Zminus_mod, Z.mod_mod by lia.
  rewrite <- Zminus_mod. f_equal. lia.
Qed.

Lemma u64_succ_pred N : 0 <= N < 2 ^ 64 -> u64 (u64 (N - 1) + 1) = N.
Proof.
  intros HN. unfold u64. rewrite Zplus_mod, Z.mod_mod by lia.
  rewrite <- Zplus_mod. replace (N - 1 + 1) with N by lia.
  by apply Z.mod_small.
Qed.

Lemma shl64_range x s : 0 <= shl64 x s < 2 ^ 64.
Proof. unfold shl64. case_match; [apply u64_range | lia]. Qed.

Lemma i64_small x : - 2 ^ 63 <= x < 2 ^ 63 -> i64 x = x.
Proof. unfold i64. intros. rewrite Z.mod_small; lia. Qed.

(** ** Setters *)

Lemma set_endpointsActivity_id c :
  set_endpointsActivity (endpointsActivity (endpoints c)) c = c.
Proof. by destruct c as [? ? ? ? ? [] ? ? ? ? ? ?]. Qed.

Lemma set_end_begin_id c : set_end (end_ c) (set_begin (begin c) c) = c.
Proof. by destruct c. Qed.

(** ** slideBuffer *)

Lemma slideBuffer_Ret c c' more :
  slideBuffer c = Ret c' more ->
  endpointsActivity (endpoints c) = idling /\ entries_in_range c = true /\
  ((begin c < slowest c <= end_ c /\
    c' = set_end (slid_end c) (set_begin (slid_begin c) c) /\
    more = (if slowest c =? parked then channelState c =? active else true)) \/
   (~ begin c < slowest c <= end_ c /\ c' = c /\
    more = (channelState c =? active))).
Proof.
  unfold slideBuffer, Access, slid_begin, slid_end.
  destruct c as [bf b e cm md [en ln act] er cs wr st wn ca].
  unfold entries_in_range, slowest. simpl.
  destruct (Z.eqb_spec act idling) as [->|]; [|done].
  destruct (ln <=? Z.of_nat (length en)); [|done].
  set (sl := foldl _ parked _).
  destruct (Z.ltb_spec b sl); destruct (Z.leb_spec sl e); simpl.
  - destruct (md <? 16); simpl;
      (destruct (sl =? parked); simpl;
       [destruct (cs =? active)|]; intros; simplify_eq;
       split_and!; try done; left; split_and!; done || lia).
  - change (parked =? parked) with true. simpl.
    destruct (cs =? active); intros; simplify_eq;
      split_and!; try done; right; split_and!; done || lia.
  - change (parked =? parked) with true. simpl.
    destruct (cs =? active); intros; simplify_eq;
      split_and!; try done; right; split_and!; done || lia.
  - change (parked =? parked) with true. simpl.
    destruct (cs =? active); intros; simplify_eq;
      split_and!; try done; right; split_and!; done || lia.
Qed.

Lemma slideBuffer_Susp c c' : slideBuffer c = Susp c' -> c' = c.
Proof.
  unfold slideBuffer, Access.
  destruct (endpointsActivity (endpoints c) =? idling); [|congruence].
  repeat (case_match; simplify_eq); done.
Qed.

Lemma slideBuffer_total c :
  endpointsActivity (endpoints c) = idling -> entries_in_range c = true ->
  exists c' more, slideBuffer c = Ret c' more.
Proof.
  intros Hact Hin. unfold slideBuffer, Access. rewrite Hact. simpl.
  replace (entries_in_range (set_endpointsActivity enumerating c)) with true
    by (by destruct c as [? ? ? ? ? [] ? ? ? ? ? ?]).
  repeat (case_match; simplify_eq); eauto.
Qed.

(** ** The window counters are written by [slideBuffer] only *)

Implicit Types (s : RangeSt foo).

Ltac frame_solve :=
  simplify_eq; unfold win in *; simpl in *; (done || congruence).

Lemma commitData_win c c' : leaves (commitData c) c' -> win c' = win c.
Proof.
  unfold commitData, leaves.
  repeat (case_match; simplify_eq; simpl in * ); intros; frame_solve.
Qed.

Lemma Close_win c e c' : leaves (Close c e) c' -> win c' = win c.
Proof.
  unfold Close, Access, leaves.
  repeat (case_match; simplify_eq; simpl in * ); intros; frame_solve.
Qed.

Lemma store_buffer_win c i v c' :
  leaves (store_buffer c i v) c' -> win c' = win c.
Proof.
  unfold store_buffer, leaves.
  repeat (case_match; simplify_eq; simpl in * ); intros; frame_solve.
Qed.

Lemma NewForChanFoo_win c keep now c' :
  leaves (NewForChanFoo c keep now) c' -> win c' = win c.
Proof.
  unfold NewForChanFoo. destruct (negb _); [by intros <-|].
  pose proof (commitData_win (set_endpointsActivity creating c)) as Hc.
  destruct (commitData _) as [c1 k| |c1]; simpl in *; [| done |].
  - specialize (Hc c1 eq_refl).
    repeat (case_match; simplify_eq; simpl in * ); intros; frame_solve.
  - intros <-. by rewrite (Hc c1 eq_refl).
Qed.

Lemma Range_commitData_win s s' :
  leaves (Range_commitData s) s' -> win (rs_chan s') = win (rs_chan s).
Proof.
  unfold Range_commitData.
  pose proof (commitData_win (rs_chan s)) as Hc.
  destruct (commitData _); simpl in *; [| done |];
    intros <-; simpl; by apply Hc.
Qed.

Lemma Range_item_win e foreach maxAge clock s s' :
  leaves (Range_item e foreach maxAge clock s) s' ->
  win (rs_chan s') = win (rs_chan s).
Proof.
  unfold Range_item, leaves.
  repeat (case_match; simplify_eq; simpl in * ); intros; frame_solve.
Qed.

Lemma Range_idle_win e foreach clock s s' :
  leaves (Range_idle zero e foreach clock s) s' ->
  win (rs_chan s') = win (rs_chan s).
Proof.
  unfold Range_idle, leaves.
  repeat (case_match; simplify_eq; simpl in * ); intros; frame_solve.
Qed.

Lemma Range_process_win fuel e foreach maxAge clock k s s' :
  leaves (Range_process fuel e foreach maxAge clock k s) s' ->
  win (rs_chan s') = win (rs_chan s).
Proof.
  revert s. induction fuel as [|fuel IH]; intros s; simpl.
  { by intros <-. }
  destruct (_ =? k); [by intros <-|].
  pose proof (Range_item_win e foreach maxAge clock s) as Hi.
  destruct (Range_item _ _ _ _ _) as [s1 []| |s1]; simpl in *; [| done |].
  - specialize (Hi s1 eq_refl).
    destruct (_ =? canceled); simpl.
    + intros <-. simpl. frame_solve.
    + intros H. apply IH in H. simpl in H. frame_solve.
  - intros <-. by apply Hi.
Qed.

Lemma Range_wait_win fuel e foreach clock k s s' :
  leaves (Range_wait zero fuel e foreach clock k s) s' ->
  win (rs_chan s') = win (rs_chan s).
Proof.
  revert k s. induction fuel as [|fuel IH]; intros k s; simpl.
  { by intros <-. }
  destruct (_ =? k); [|by intros <-].
  pose proof (Range_idle_win e foreach clock s) as Hi.
  destruct (Range_idle _ _ _ _ _) as [s1 []| |s1]; simpl in *; [| | done |].
  - specialize (Hi s1 eq_refl).
    pose proof (Range_commitData_win s1) as Hc.
    destruct (Range_commitData s1) as [s2 k2| |s2]; simpl in *; [| done |].
    + intros H. apply IH in H. rewrite H, <- Hi. by apply Hc.
    + intros <-. rewrite <- Hi. by apply Hc.
  - intros <-. by apply Hi.
  - intros <-. by apply Hi.
Qed.

Lemma Range_loop_win fuel e foreach maxAge clock s s' :
  leaves (Range_loop zero fuel e foreach maxAge clock s) s' ->
  win (rs_chan s') = win (rs_chan s).
Proof.
  revert s. induction fuel as [|fuel IH]; intros s.
  { simpl. by intros <-. }
  cbn [Range_loop].
  pose proof (Range_commitData_win s) as Hc.
  destruct (Range_commitData s) as [s1 k1| |s1]; cbn [leaves] in Hc |- *;
    [| done | by intros <-; apply Hc].
  specialize (Hc s1 eq_refl).
  pose proof (Range_wait_win (S fuel) e foreach clock k1 s1) as Hw.
  destruct (Range_wait _ _ _ _ _ _ _) as [s2 [k2|]| |s2]; cbn [leaves] in Hw |- *;
    [| | done |]; try (intros <-; rewrite <- Hc; by apply Hw).
  specialize (Hw s2 eq_refl).
  pose proof (Range_process_win (S fuel) e foreach maxAge clock k2 s2) as Hp.
  destruct (Range_process _ _ _ _ _ _ _) as [s3 []| |s3]; cbn [leaves] in Hp |- *;
    [| | done |]; try (intros <-; rewrite <- Hc, <- Hw; by apply Hp).
  specialize (Hp s3 eq_refl).
  intros H. apply IH in H. simpl in H. frame_solve.
Qed.

Lemma Range_win fuel c e foreach maxAge clock s' :
  leaves (Range zero fuel c e foreach maxAge clock) s' ->
  win (rs_chan s') = win c.
Proof.
  unfold Range. destruct (_ !! e) as [ep|]; [|done].
  destruct (chanRef ep); [|done].
  intros H. by apply Range_loop_win in H.
Qed.

(** ** C9: the window keeps its size *)

Lemma window_win N c c' : win c' = win c -> window N c -> window N c'.
Proof. unfold win, window. intros; simplify_eq. congruence. Qed.

Lemma slideBuffer_window N c c' :
  leaves (slideBuffer c) c' -> window N c -> window N c'.
Proof.
  destruct (slideBuffer c) as [c1 more| |c1] eqn:Hs; simpl; [| done |].
  - intros <-. apply slideBuffer_Ret in Hs as (_ & _ & [(_ & -> & _)|(_ & -> & _)]);
      [|done].
    unfold window, slid_begin, slid_end. simpl. intros (HN & Hmod & Hsz).
    split; [done|split; [done|]].
    destruct (mod_ c <? 16).
    + rewrite u64_sub_u64. rewrite <- Hsz. f_equal. lia.
    + rewrite Hmod. replace (slowest c + u64 (N - 1) + 1)
        with (slowest c + (u64 (N - 1) + 1)) by lia.
      rewrite u64_add_sub. by apply u64_succ_pred.
  - intros <-. by apply slideBuffer_Susp in Hs as ->.
Qed.

Lemma FastSend_full_window N fuel c c' :
  leaves (FastSend_full fuel c) c' -> window N c -> window N c'.
Proof.
  revert c. induction fuel as [|fuel IH]; intros c; simpl.
  { by intros <-. }
  destruct (_ =? _); [|by intros <-].
  pose proof (slideBuffer_window N c) as Hs.
  destruct (slideBuffer c) as [c1 []| |c1]; simpl in *; [| | done |]; eauto.
Qed.

Lemma Send_full_window N fuel c w c' :
  leaves (Send_full fuel c w) c' -> window N c -> window N c'.
Proof.
  revert c. induction fuel as [|fuel IH]; intros c; simpl.
  { by intros <-. }
  destruct (_ <=? _); [|by intros <-].
  pose proof (slideBuffer_window N c) as Hs.
  destruct (slideBuffer c) as [c1 []| |c1]; simpl in *; [| | done |]; eauto.
Qed.

Lemma FastSend_window N fuel c v c' :
  leaves (FastSend fuel c v) c' -> window N c -> window N c'.
Proof.
  unfold FastSend.
  pose proof (FastSend_full_window N fuel c) as Hf.
  destruct (FastSend_full fuel c) as [c1 []| |c1]; simpl in *; [| | done |]; eauto.
  pose proof (store_buffer_win c1 (slot c1 (commit c1)) v) as Hb.
  destruct (store_buffer _ _ _) as [c2 []| |c2]; simpl in *; [| done |].
  - intros <- Hw. apply (window_win N c2); [done|].
    apply (window_win N c1); [by apply Hb|]. by apply Hf.
  - intros <- Hw. apply (window_win N c1); [by apply Hb|]. by apply Hf.
Qed.

Lemma Send_window N fuel c v now c' :
  leaves (Send fuel c v now) c' -> window N c -> window N c'.
Proof.
  unfold Send.
  pose proof (Send_full_window N fuel (set_write (u64 (write c + 1)) c)
                (write c)) as Hf.
  destruct (Send_full _ _ _) as [c1 []| |c1]; simpl in *; [| | done |]; eauto.
  pose proof (store_buffer_win c1 (slot c1 (write c)) v) as Hb.
  destruct (store_buffer _ _ _) as [c2 []| |c2]; simpl in *; [| done |].
  - repeat case_match; simpl; try done.
    intros <- Hw. apply (window_win N c2); [done|].
    apply (window_win N c1); [by apply Hb|]. by apply Hf.
  - intros <- Hw. apply (window_win N c1); [by apply Hb|]. by apply Hf.
Qed.

Lemma leaves_forget {S A} (o : outcome S A) (s : S) :
  leaves (forget o) s <-> leaves o s.
Proof. by destruct o. Qed.

Lemma leaves_forget_range {A} (o : outcome (RangeSt foo) A) c :
  leaves (forget_range o) c <-> exists s, leaves o s /\ rs_chan s = c.
Proof.
  destruct o as [s a| |s]; simpl; [| by split; [|intros (? & [] & _)] |];
    (split; [intros <-; by exists s | by intros (? & <- & <-)]).
Qed.

Lemma after_window N o c c' :
  after zero o c c' -> window N c -> window N c'.
Proof.
  unfold after. destruct o; simpl.
  - intros H. apply window_win. eapply Close_win; eauto.
  - apply FastSend_window.
  - apply Send_window.
  - rewrite leaves_forget. apply slideBuffer_window.
  - rewrite leaves_forget. intros H. apply window_win. by apply commitData_win.
  - rewrite leaves_forget. intros H. apply window_win.
    eapply NewForChanFoo_win; eauto.
  - intros <-. by apply window_win.
  - rewrite leaves_forget_range. intros (s & H & <-). apply window_win.
    eapply Range_win; eauto.
Qed.

Lemma NewChanFoo_counters bufferCapacity endpointCapacity now c :
  NewChanFoo zero ceilLog2 bufferCapacity endpointCapacity now = Ret c tt ->
  let N := shl64 1 (ceilLog2 bufferCapacity) in
  begin c = 0 /\ commit c = 0 /\ write c = 0 /\ end_ c = N /\
  mod_ c = u64 (N - 1) /\
  length (buffer c) = Z.to_nat N /\ length (written c) = Z.to_nat N.
Proof.
  unfold NewChanFoo. case_match; [done|]. intros; simplify_eq; simpl.
  by rewrite !length_replicate.
Qed.

(** C9: in every state reachable from a channel of [N] slots,
    [end - begin = N] in the arithmetic of [uint64], and as integers
    whenever [end] has not wrapped below [begin]: it holds after
    [NewChanFoo], both branches of [slideBuffer] keep it, and no other
    operation writes [begin] or [end]. *)
Theorem C9_window_size N c :
  reachable zero ceilLog2 N c ->
  0 <= N < 2 ^ 64 /\ u64 (end_ c - begin c) = N /\
  (0 <= begin c -> begin c <= end_ c < 2 ^ 64 -> end_ c - begin c = N).
Proof.
  intros Hr.
  assert (window N c) as (HN & _ & Hsz).
  { induction Hr as [b e now c Hnew ->|o c c' _ IH Hstep].
    - apply NewChanFoo_counters in Hnew as (Hb & _ & _ & He & Hm & _).
      unfold window. rewrite Hb, He, Hm, Z.sub_0_r.
      pose proof (shl64_range 1 (ceilLog2 b)).
      split_and!; [lia..|done|by apply u64_small].
    - eapply after_window; eauto. }
  split_and!; [lia..|done|].
  intros Hb Hbe. rewrite <- Hsz. symmetry. apply u64_small. lia.
Qed.

(** ** C8: Close *)

Lemma Close_not_active c e :
  channelState c <> active -> Close c e = Ret c tt.
Proof.
  intros H. unfold Close. by destruct (Z.eqb_spec (channelState c) active).
Qed.

(** C8: on an active channel [Close(e1)] returns with [channelState]
    closed and [err = e1], and a following [Close(e2)] returns without
    changing anything: only the first call moves the state and records
    the error. *)
Theorem C8_Close_idempotent c e1 e2 :
  channelState c = active ->
  endpointsActivity (endpoints c) = idling ->
  entries_in_range c = true ->
  exists c1, Close c e1 = Ret c1 tt /\ Close c1 e2 = Ret c1 tt /\
             channelState c1 = closed /\ err c1 = e1.
Proof.
  intros Hs Ha Hr. unfold Close at 1. unfold Access.
  destruct c as [bf b e cm md [en ln act] er cs wr st wn ca].
  unfold entries_in_range in *. simpl in *. subst cs act. simpl.
  rewrite Hr. eexists. split; [done|].
  split; [by apply Close_not_active|done].
Qed.

(** ** C4: the two branches of slideBuffer *)

(** C4 (amended): when [begin < slowest <= end], [slideBuffer] returns;
    it has advanced [begin] and [end] by one when [mod < 16], that is
    when [N <= 16], and otherwise has set [begin = slowest] and
    [end = slowest + N]. *)
Theorem C4_slideBuffer_branches c :
  endpointsActivity (endpoints c) = idling ->
  entries_in_range c = true ->
  begin c < slowest c <= end_ c ->
  exists c' more, slideBuffer c = Ret c' more /\
    (mod_ c + 1 <= 16 ->
     begin c' = u64 (begin c + 1) /\ end_ c' = u64 (end_ c + 1)) /\
    (16 < mod_ c + 1 ->
     begin c' = slowest c /\ end_ c' = u64 (slowest c + (mod_ c + 1))).
Proof.
  intros Ha Hr Hs.
  destruct (slideBuffer_total c Ha Hr) as (c' & more & Hsl).
  exists c', more. split; [done|].
  apply slideBuffer_Ret in Hsl as (_ & _ & [(_ & -> & _)|(Hn & _)]); [|done].
  unfold slid_begin, slid_end. simpl.
  destruct (Z.ltb_spec (mod_ c) 16); split; intros; try lia; split; try done.
  f_equal. lia.
Qed.

(** ** C3: Send on a closed channel *)

Lemma Send_full_room fuel c w :
  w < end_ c -> Send_full (S fuel) c w = Ret c true.
Proof. intros H. simpl. by destruct (Z.leb_spec (end_ c) w); [lia|]. Qed.

Lemma Send_full_closed_stuck fuel c w :
  channelState c = closed ->
  endpointsActivity (endpoints c) = idling ->
  entries_in_range c = true ->
  end_ c <= w ->
  ~ begin c < slowest c <= end_ c ->
  Send_full (S fuel) c w = Ret c false.
Proof.
  intros Hs Ha Hr Hw Hn. simpl.
  destruct (Z.leb_spec (end_ c) w); [|lia].
  destruct (slideBuffer_total c Ha Hr) as (c' & more & Hsl). rewrite Hsl.
  apply slideBuffer_Ret in Hsl as (_ & _ & [(? & _)|(_ & -> & ->)]); [done|].
  by rewrite Hs.
Qed.

(** ** NewEndpoint *)

(** [commitData] writes [commit], [written] and [committerActivity],
    and nothing else. *)
Lemma commitData_frame c c' :
  leaves (commitData c) c' ->
  c' = set_committerActivity (committerActivity c')
         (set_written (written c') (set_commit (commit c') c)).
Proof.
  unfold commitData, leaves. destruct c.
  repeat (case_match; simplify_eq; simpl in * ); intros; by simplify_eq.
Qed.

Lemma commitData_fields c c' :
  leaves (commitData c) c' ->
  endpoints c' = endpoints c /\ channelState c' = channelState c /\
  begin c' = begin c /\ end_ c' = end_ c /\ mod_ c' = mod_ c /\
  write c' = write c /\ buffer c' = buffer c /\ err c' = err c /\
  start c' = start c.
Proof. intros H. apply commitData_frame in H. by rewrite H. Qed.

(** The three ways in which [NewForChanFoo] returns. *)
Lemma NewForChanFoo_Ret c keep now c' r :
  NewForChanFoo c keep now = Ret c' r ->
  exists c1 commit1,
    commitData (set_endpointsActivity creating c) = Ret c1 commit1 /\
    let start1 := start_cursor commit1 (begin c) keep in
    let e := endpoints c1 in
    (len e = Z.of_nat (length (entry e)) /\
     ((exists index ep,
         list_find (fun ep => cursor ep = parked) (live e) = Some (index, ep) /\
         r = inl index /\
         c' = set_endpointsActivity idling
                (upd_entry index (attach start1 (channelState c) now) c1)) \/
      (list_find (fun ep => cursor ep = parked) (live e) = None /\
       r = inr ErrOutOfEndpoints /\ c' = set_endpointsActivity idling c1))) \/
    (len e <> Z.of_nat (length (entry e)) /\
     (Z.to_nat (len e) < length (entry e))%nat /\
     r = inl (Z.to_nat (len e)) /\
     c' = set_endpointsActivity idling
            (set_len (u32 (len e + 1))
               (upd_entry (Z.to_nat (len e))
                  (fun ep => attach start1 (channelState c) now
                               (set_chanRef true ep)) c1))).
Proof.
  unfold NewForChanFoo. destruct (negb _); [done|].
  destruct (commitData _) as [c1 k| |] eqn:Hc; [|done..].
  assert (leaves (commitData (set_endpointsActivity creating c)) c1) as Hl
    by (by rewrite Hc).
  apply commitData_fields in Hl as (_ & Hcs & Hb & _). simpl in Hcs, Hb.
  rewrite Hcs, Hb. intros H. exists c1, k. split; [done|]. simpl.
  destruct (Z.eqb_spec (len (endpoints c1))
              (Z.of_nat (length (entry (endpoints c1))))) as [Hfull|Hfree].
  - left. split; [done|].
    destruct (list_find _ _) as [[index ep]|]; simplify_eq; [left|right]; eauto.
  - right. destruct (decide _); simplify_eq. done.
Qed.

Lemma the_ep_upd_entry c index f ep :
  entry (endpoints c) !! index = Some ep ->
  the_ep (upd_entry index f c) index = f ep.
Proof.
  intros H. unfold the_ep, upd_entry. simpl.
  by rewrite list_lookup_alter_eq, H.
Qed.

Lemma live_lookup (e : endpointsFoo) index ep :
  live e !! index = Some ep -> entry e !! index = Some ep.
Proof. unfold live. rewrite lookup_take_Some. by intros []. Qed.

Lemma NewForChanFoo_cursor c keep now c' index :
  NewForChanFoo c keep now = Ret c' (inl index) ->
  exists c1 commit1,
    commitData (set_endpointsActivity creating c) = Ret c1 commit1 /\
    cursor (the_ep c' index) = start_cursor commit1 (begin c) keep.
Proof.
  intros H. apply NewForChanFoo_Ret in H as (c1 & k & Hc & H).
  exists c1, k. split; [done|]. simpl in H.
  destruct H as [(_ & [(i & ep & Hf & ? & ->)|(_ & ? & _)])|(_ & Hi & ? & ->)];
    simplify_eq.
  - apply list_find_Some in Hf as (Hf & _). apply live_lookup in Hf.
    change (the_ep (set_endpointsActivity idling ?x) ?i) with (the_ep x i).
    by erewrite the_ep_upd_entry.
  - apply lookup_lt_is_Some_2 in Hi as [ep Hep].
    change (the_ep (set_endpointsActivity idling (set_len ?n ?x)) ?i)
      with (the_ep x i).
    by erewrite the_ep_upd_entry.
Qed.

Lemma start_cursor_min commit1 begin1 keep :
  0 <= begin1 < 2 ^ 64 ->
  start_cursor commit1 begin1 keep =
    u64 (commit1 - Z.min keep (u64 (commit1 - begin1))).
Proof.
  intros Hb. unfold start_cursor.
  destruct (Z.leb_spec (u64 (commit1 - begin1)) keep).
  - rewrite Z.min_r by done. unfold u64.
    rewrite Zminus_mod, Z.mod_mod, <- Zminus_mod by lia.
    replace (commit1 - (commit1 - begin1)) with begin1 by lia.
    symmetry. by apply Z.mod_small.
  - by rewrite Z.min_l by lia.
Qed.

(** C6: the endpoint that [NewEndpoint] returns has its cursor at
    [commit - min(keep, commit - begin)], [commit] being the value returned
    by the call of [commitData] inside [NewEndpoint]; this is
    [max(begin, commit - keep)] when [begin <= commit], and [begin] for
    [keep = ReplayAll]. *)
Theorem C6_NewEndpoint_cursor c keep now c' index :
  0 <= begin c < 2 ^ 64 ->
  NewEndpoint c keep now = Ret c' (inl index) ->
  exists c1 commit1,
    commitData (set_endpointsActivity creating c) = Ret c1 commit1 /\
    cursor (the_ep c' index) =
      u64 (commit1 - Z.min keep (u64 (commit1 - begin c))) /\
    (0 <= keep -> begin c <= commit1 < 2 ^ 64 ->
     cursor (the_ep c' index) = Z.max (begin c) (commit1 - keep)) /\
    (keep = ReplayAll -> cursor (the_ep c' index) = begin c).
Proof.
  intros Hb H. apply NewForChanFoo_cursor in H as (c1 & k & Hc & ->).
  exists c1, k. split; [done|]. split; [by apply start_cursor_min|].
  unfold start_cursor. split.
  - intros Hk Hbk. rewrite (u64_small (k - begin c)) by lia.
    destruct (Z.leb_spec (k - begin c) keep); [lia|].
    rewrite u64_small by lia. lia.
  - intros ->. pose proof (u64_range (k - begin c)). unfold ReplayAll.
    destruct (Z.leb_spec (u64 (k - begin c)) (2 ^ 64 - 1)); [done|lia].
Qed.

Lemma alter_insert {A} (f : A -> A) (l : list A) i x :
  l !! i = Some x -> alter f i l = <[i := f x]> l.
Proof.
  intros H. apply list_eq. intros j.
  destruct (decide (i = j)) as [<-|].
  - rewrite list_lookup_alter_eq, H. simpl.
    by rewrite list_lookup_insert_eq by (by eapply lookup_lt_Some).
  - by rewrite list_lookup_alter_ne, list_lookup_insert_ne.
Qed.

(** C10: when the table is full, the endpoint that [NewEndpoint] returns
    is a record whose cursor was parked; the call rewrites [cursor],
    [endpointState] and [lastActive] of that record and nothing else in
    the table: the channel pointer and the [endpointClosed] latch of the
    record are those of its previous user. *)
Theorem C10_recycled_record c keep now c' index :
  len (endpoints c) = Z.of_nat (length (entry (endpoints c))) ->
  NewEndpoint c keep now = Ret c' (inl index) ->
  exists ep start1,
    entry (endpoints c) !! index = Some ep /\ cursor ep = parked /\
    entry (endpoints c') =
      <[index := {| chanRef := chanRef ep; cursor := start1;
                    endpointState := channelState c; lastActive := now;
                    endpointClosed := endpointClosed ep |}]>
        (entry (endpoints c)) /\
    len (endpoints c') = len (endpoints c) /\
    endpointClosed (the_ep c' index) = endpointClosed ep.
Proof.
  intros Hfull H. apply NewForChanFoo_Ret in H as (c1 & k & Hc & H).
  assert (leaves (commitData (set_endpointsActivity creating c)) c1) as Hl
    by (by rewrite Hc).
  apply commitData_fields in Hl as (He & _). simpl in H.
  assert (entry (endpoints c1) = entry (endpoints c) /\
          len (endpoints c1) = len (endpoints c)) as [Hen Hln]
    by (by rewrite He).
  destruct H as [(_ & [(i & ep & Hf & ? & ->)|(_ & ? & _)])|(Hfree & _)];
    simplify_eq; [|congruence].
  apply list_find_Some in Hf as (Hf & Hp & _). apply live_lookup in Hf.
  rewrite Hen in Hf.
  exists ep, (start_cursor k (begin c) keep). split_and!; try done.
  - simpl. rewrite Hen. by erewrite alter_insert.
  - change (the_ep (set_endpointsActivity idling ?x) ?i) with (the_ep x i).
    erewrite the_ep_upd_entry; [done|]. by rewrite Hen.
Qed.

(** ** C2: an endpoint that is canceled outside Range *)

Lemma commitData_idle c : write c <= commit c -> commitData c = Ret c (commit c).
Proof. intros H. unfold commitData. by destruct (Z.leb_spec (write c) (commit c)); [|lia]. Qed.

Lemma NewForChanFoo_fresh c keep now :
  endpointsActivity (endpoints c) = idling ->
  write c <= commit c ->
  len (endpoints c) <> Z.of_nat (length (entry (endpoints c))) ->
  (Z.to_nat (len (endpoints c)) < length (entry (endpoints c)))%nat ->
  NewForChanFoo c keep now =
    Ret (set_endpointsActivity idling
           (set_len (u32 (len (endpoints c) + 1))
              (upd_entry (Z.to_nat (len (endpoints c)))
                 (fun ep => attach (start_cursor (commit c) (begin c) keep)
                              (channelState c) now (set_chanRef true ep))
                 (set_endpointsActivity creating c))))
        (inl (Z.to_nat (len (endpoints c)))).
Proof.
  intros Ha Hw Hne Hlt. unfold NewForChanFoo. rewrite Ha.
  change (negb (idling =? idling)) with false. cbv iota.
  rewrite commitData_idle by done.
  cbn [endpoints set_endpointsActivity set_endpoints len entry begin
       channelState commit].
  destruct (Z.eqb_spec (len (endpoints c))
              (Z.of_nat (length (entry (endpoints c))))); [done|].
  by destruct (decide _).
Qed.

Lemma NewForChanFoo_full c keep now :
  endpointsActivity (endpoints c) = idling ->
  write c <= commit c ->
  len (endpoints c) = Z.of_nat (length (entry (endpoints c))) ->
  NewForChanFoo c keep now =
    match list_find (fun ep => cursor ep = parked) (live (endpoints c)) with
    | Some (index, _) =>
        Ret (set_endpointsActivity idling
               (upd_entry index
                  (attach (start_cursor (commit c) (begin c) keep)
                     (channelState c) now)
                  (set_endpointsActivity creating c)))
            (inl index)
    | None =>
        Ret (set_endpointsActivity idling (set_endpointsActivity creating c))
            (inr ErrOutOfEndpoints)
    end.
Proof.
  intros Ha Hw Hfull. unfold NewForChanFoo. rewrite Ha.
  change (negb (idling =? idling)) with false. cbv iota.
  rewrite commitData_idle by done.
  cbn [endpoints set_endpointsActivity set_endpoints len entry begin
       channelState commit].
  by destruct (Z.eqb_spec (len (endpoints c))
              (Z.of_nat (length (entry (endpoints c))))).
Qed.

Lemma start_cursor_zero keep : 0 <= keep -> start_cursor 0 0 keep = 0.
Proof.
  intros H. unfold start_cursor. change (u64 (0 - 0)) with 0.
  by destruct (Z.leb_spec 0 keep); [|lia].
Qed.

Lemma NewChanFoo_one bufferCapacity t0 c0 :
  NewChanFoo zero ceilLog2 bufferCapacity 1 t0 = Ret c0 tt ->
  endpoints c0 = {| entry := [zeroEndpoint]; len := 0;
                    endpointsActivity := idling |} /\
  begin c0 = 0 /\ commit c0 = 0 /\ write c0 = 0 /\ channelState c0 = active.
Proof. unfold NewChanFoo. simpl. intros; simplify_eq. done. Qed.

(** C2, the code at the failing input: on a channel with one endpoint
    record, [NewEndpoint] returns the record, [Cancel] marks it canceled
    and leaves its cursor where it is, and the next [NewEndpoint] finds
    no parked cursor: it returns [ErrOutOfEndpoints]. *)
Theorem C2_cancel_then_NewEndpoint bufferCapacity t0 keep1 t1 keep2 t2 c0 :
  NewChanFoo zero ceilLog2 bufferCapacity 1 t0 = Ret c0 tt ->
  0 <= keep1 ->
  exists c1 c2,
    NewEndpoint c0 keep1 t1 = Ret c1 (inl 0%nat) /\
    cursor (the_ep (Cancel c1 0) 0) = 0 /\
    endpointState (the_ep (Cancel c1 0) 0) = canceled /\
    NewEndpoint (Cancel c1 0) keep2 t2 = Ret c2 (inr ErrOutOfEndpoints).
Proof.
  intros Hc Hk. apply NewChanFoo_one in Hc as (He & Hb & Hcm & Hw & Hs).
  unfold NewEndpoint.
  rewrite (NewForChanFoo_fresh c0 keep1 t1);
    [| by rewrite He | lia | by rewrite He | by rewrite He; simpl; lia].
  rewrite He, Hb, Hcm, Hs, start_cursor_zero by done.
  eexists _, _. split; [reflexivity|].
  match goal with |- context [Cancel ?x 0] => set (c1 := x) end.
  assert (endpoints (Cancel c1 0) =
          {| entry := [ {| chanRef := true; cursor := 0;
                           endpointState := canceled; lastActive := t1;
                           endpointClosed := 0 |} ];
             len := 1; endpointsActivity := idling |}) as He2.
  { unfold c1, Cancel, upd_entry, set_entry, set_len, set_endpointsActivity.
    cbn [endpoints set_endpoints entry len endpointsActivity].
    rewrite He. vm_compute. reflexivity. }
  assert (write (Cancel c1 0) = 0 /\ commit (Cancel c1 0) = 0) as [Hw2 Hc2]
    by done.
  unfold the_ep. rewrite He2.
  split; [reflexivity|]. split; [reflexivity|].
  rewrite NewForChanFoo_full; rewrite ?He2; [| reflexivity | lia | reflexivity].
  change (list_find _ (live _)) with (@None (nat * EndpointFoo)).
  cbv iota. subst c1. reflexivity.
Qed.

(** [Range] on a canceled endpoint that has read everything parks the
    cursor and returns. *)
Lemma Range_loop_canceled fuel e foreach maxAge clock s :
  write (rs_chan s) <= commit (rs_chan s) ->
  cursor (the_ep (rs_chan s) e) = commit (rs_chan s) ->
  endpointState (the_ep (rs_chan s) e) = canceled ->
  Range_loop zero (S fuel) e foreach maxAge clock s
    = Ret (on_chan (park e) s) tt.
Proof.
  intros Hw Hc Hs. cbn [Range_loop]. unfold Range_commitData.
  rewrite commitData_idle by done.
  assert (on_chan (fun _ => rs_chan s) s = s) as -> by (by destruct s).
  cbn [Range_wait]. rewrite Hc, Z.eqb_refl.
  unfold Range_idle. rewrite Hs. reflexivity.
Qed.

(** The sibling path: once [Range] has run on the canceled endpoint, the
    cursor is parked and [NewEndpoint] hands the record out again. *)
Lemma recycled_after_Range bufferCapacity t0 keep1 t1 keep2 t2 c0
    fuel foreach maxAge clock :
  NewChanFoo zero ceilLog2 bufferCapacity 1 t0 = Ret c0 tt ->
  0 <= keep1 ->
  exists c1 s c2,
    NewEndpoint c0 keep1 t1 = Ret c1 (inl 0%nat) /\
    Range zero (S fuel) (Cancel c1 0) 0 foreach maxAge clock = Ret s tt /\
    rs_calls s = [] /\ cursor (the_ep (rs_chan s) 0) = parked /\
    NewEndpoint (rs_chan s) keep2 t2 = Ret c2 (inl 0%nat).
Proof.
  intros Hc Hk. apply NewChanFoo_one in Hc as (He & Hb & Hcm & Hw & Hs).
  unfold NewEndpoint.
  pose (c1 := set_endpointsActivity idling
                (set_len (u32 (len (endpoints c0) + 1))
                   (upd_entry (Z.to_nat (len (endpoints c0)))
                      (fun ep => attach 0 active t1 (set_chanRef true ep))
                      (set_endpointsActivity creating c0)))).
  pose (c2 := upd_entry 0 (set_lastActive (clock 0%nat)) (Cancel c1 0)).
  exists c1, {| rs_chan := park 0 c2; rs_tick := 1; rs_calls := [] |}.
  eexists.
  split.
  { rewrite (NewForChanFoo_fresh c0 keep1 t1);
      [| by rewrite He | lia | by rewrite He | by rewrite He; simpl; lia].
    rewrite Hb, Hcm, Hs, start_cursor_zero by done.
    unfold c1. by rewrite He. }
  assert (endpoints (Cancel c1 0) =
          {| entry := [ {| chanRef := true; cursor := 0;
                           endpointState := canceled; lastActive := t1;
                           endpointClosed := 0 |} ];
             len := 1; endpointsActivity := idling |}) as He2.
  { unfold c1, Cancel, upd_entry, set_entry, set_len, set_endpointsActivity.
    cbn [endpoints set_endpoints entry len endpointsActivity].
    rewrite He. vm_compute. reflexivity. }
  assert (endpoints c2 =
          {| entry := [ {| chanRef := true; cursor := 0;
                           endpointState := canceled;
                           lastActive := clock 0%nat;
                           endpointClosed := 0 |} ];
             len := 1; endpointsActivity := idling |}) as He3.
  { unfold c2, upd_entry, set_entry.
    cbn [endpoints set_endpoints]. rewrite He2. reflexivity. }
  assert (endpoints (park 0 c2) =
          {| entry := [ {| chanRef := true; cursor := parked;
                           endpointState := canceled;
                           lastActive := clock 0%nat;
                           endpointClosed := 0 |} ];
             len := 1; endpointsActivity := idling |}) as He4.
  { unfold park, upd_entry, set_entry.
    cbn [endpoints set_endpoints]. rewrite He3. reflexivity. }
  assert (write c2 = 0 /\ commit c2 = 0) as [Hw2 Hc2] by done.
  assert (write (park 0 c2) = 0 /\ commit (park 0 c2) = 0) as [Hw3 Hc3]
    by done.
  clearbody c1.
  split.
  { unfold Range. rewrite He2. cbn [entry lookup list_lookup chanRef].
    fold c2. clearbody c2.
    rewrite Range_loop_canceled; [reflexivity|..];
      cbn [rs_chan]; unfold the_ep; rewrite ?He3, ?Hw2, ?Hc2;
      [lia | reflexivity | reflexivity]. }
  clearbody c2.
  cbn [rs_calls rs_chan].
  split; [reflexivity|].
  split; [unfold the_ep; rewrite He4; reflexivity|].
  rewrite NewForChanFoo_full; rewrite ?He4; [| reflexivity | lia | reflexivity].
  change (list_find _ (live _))
    with (Some (0%nat, {| chanRef := true; cursor := parked;
                          endpointState := canceled;
                          lastActive := clock 0%nat;
                          endpointClosed := 0 |})).
  cbv iota beta. reflexivity.
Qed.

(** ** C7: the age filter of Range *)



(** ** C1: the counter chain *)

Lemma slowest_foldl (l : list EndpointFoo) init :
  let r := foldl (fun slowestCursor ep =>
                    if cursor ep <? slowestCursor then cursor ep
                    else slowestCursor) init l in
  r <= init /\ Forall (fun ep => r <= cursor ep) l /\
  (r = init \/ exists ep, ep ∈ l /\ cursor ep = r).
Proof.
  revert init. induction l as [|ep l IH]; intros init; simpl.
  { split; [lia|]. split; [constructor | by left]. }
  destruct (IH (if cursor ep <? init then cursor ep else init))
    as (Hle & Hall & Hex).
  destruct (Z.ltb_spec (cursor ep) init).
  - split; [lia|]. split; [constructor; [lia | done]|].
    right. destruct Hex as [->|(ep' & Hin & <-)].
    + exists ep. split; [constructor | done].
    + exists ep'. split; [by constructor | done].
  - split; [lia|]. split; [constructor; [lia | done]|].
    destruct Hex as [->|(ep' & Hin & <-)]; [by left|].
    right. exists ep'. split; [by constructor | done].
Qed.

Lemma slowest_spec c :
  slowest c <= parked /\
  Forall (fun ep => slowest c <= cursor ep) (live (endpoints c)) /\
  (slowest c = parked \/
   exists ep, ep ∈ live (endpoints c) /\ cursor ep = slowest c).
Proof. apply slowest_foldl. Qed.

Lemma chain_lookup c :
  chain c <->
  begin c <= commit c /\ commit c <= end_ c /\
  forall i ep, live (endpoints c) !! i = Some ep ->
               cursor ep <> parked -> begin c <= cursor ep <= commit c.
Proof. unfold chain, cursor_in_window. by rewrite Forall_lookup. Qed.

Lemma Inv_slide c :
  Inv c -> commit c + mod_ c + 1 < parked ->
  begin c < slowest c <= end_ c ->
  Inv (set_end (slid_end c) (set_begin (slid_begin c) c)).
Proof.
  intros (Hmod & Hb & He & Hep & Hlen & Hch) Hbound Hs.
  destruct (slowest_spec c) as (_ & Hall & Hex).
  destruct Hch as (Hbc & Hce & Hcur).
  assert (slowest c <= commit c) as Hsc.
  { destruct Hex as [Hp|(ep & Hin & Heq)]; [lia|].
    rewrite Forall_forall in Hcur. apply Hcur in Hin.
    unfold cursor_in_window in Hin. lia. }
  assert (Forall (fun ep => cursor ep <> parked ->
                            slowest c <= cursor ep <= commit c)
                 (live (endpoints c))) as Hcur'.
  { rewrite Forall_forall in *. intros ep Hin Hnp.
    specialize (Hall ep Hin). specialize (Hcur ep Hin Hnp). lia. }
  unfold Inv, chain, cursor_in_window, slid_begin, slid_end. simpl.
  unfold parked in *.
  destruct (Z.ltb_spec (mod_ c) 16).
  - rewrite !u64_small by lia. split_and!; [lia..|].
    eapply Forall_impl; [exact Hcur'|]. simpl. intros ep H0 Hnp.
    specialize (H0 Hnp). lia.
  - rewrite !u64_small by lia. split_and!; [lia..|].
    eapply Forall_impl; [exact Hcur'|]. simpl. intros ep H0 Hnp.
    specialize (H0 Hnp). lia.
Qed.

Lemma Inv2_slideBuffer fs c c' :
  Inv2 fs c -> commit c + mod_ c + 1 < parked ->
  leaves (slideBuffer c) c' ->
  Inv2 fs c' /\ commit c' = commit c /\ mod_ c' = mod_ c /\
  write c' = write c /\ endpoints c' = endpoints c.
Proof.
  intros [HI Hw] Hbound.
  destruct (slideBuffer c) as [c1 more| |c1] eqn:Hs; simpl; [| done |].
  - intros <-.
    apply slideBuffer_Ret in Hs as (_ & _ & [(Hsl & -> & _)|(_ & -> & _)]);
      [|done].
    split; [|done]. split; [by apply Inv_slide | done].
  - intros <-. by apply slideBuffer_Susp in Hs as ->.
Qed.

Lemma Inv_commit_advance c k :
  Inv c -> commit c <= k <= end_ c -> Inv (set_commit k c).
Proof.
  intros (Hmod & Hb & He & Hep & Hlen & Hbc & Hce & Hcur) Hk.
  unfold Inv, chain, cursor_in_window. simpl. split_and!; try lia.
  eapply Forall_impl; [exact Hcur|]. unfold cursor_in_window. simpl.
  intros ep H Hnp. specialize (H Hnp). lia.
Qed.

Lemma commit_walk_bounds fuel md e w k :
  0 <= k <= e -> e < 2 ^ 64 ->
  satisfies (commit_walk fuel md e w k) (fun _ k' => k <= k' <= e)
    (fun _ => True).
Proof.
  revert w k. induction fuel as [|fuel IH]; intros w k Hk He; simpl; [done|].
  destruct (w !! _) as [m|]; [|done].
  destruct (Z.land m 1 =? 1); simpl; [|lia].
  destruct (Z.leb_spec e k); simpl; [lia|].
  rewrite (u64_small (k + 1)) by lia.
  specialize (IH (<[Z.to_nat (Z.land k md) := i64 (m - 1)]> w) (k + 1)
                ltac:(lia) He).
  destruct (commit_walk _ _ _ _ _) as [w' k'| |w']; simpl in *; try done.
  lia.
Qed.

Lemma commitData_commit c :
  Inv c ->
  satisfies (commitData c)
    (fun c' k => k = commit c' /\ commit c <= commit c' <= end_ c /\
                 (commit c <= write c -> commit c' <= write c))
    (fun c' => commit c' = commit c).
Proof.
  intros (Hmod & Hb & He & Hep & Hlen & Hbc & Hce & Hcur).
  unfold commitData.
  destruct (Z.leb_spec (write c) (commit c)); [cbn; lia|].
  destruct (negb _); [cbn; lia|].
  cbn [written mod_ end_ commit set_committerActivity].
  pose proof (commit_walk_bounds (S (length (written c))) (mod_ c) (end_ c)
                (written c) (commit c)) as Hw.
  unfold parked in *.
  destruct (commit_walk _ _ _ _ _) as [w k| |w]; [| done | done].
  cbn [satisfies] in Hw |- *. specialize (Hw ltac:(lia) ltac:(lia)).
  cbn [write set_written set_committerActivity commit].
  destruct (Z.ltb_spec (write c) k); [done|].
  destruct (Z.ltb_spec (commit c) k); cbn; lia.
Qed.

Lemma Inv2_commitData fs c :
  Inv2 fs c ->
  satisfies (commitData c)
    (fun c' k => Inv2 fs c' /\ k = commit c' /\ commit c <= commit c')
    (fun c' => Inv2 fs c' /\ commit c' = commit c).
Proof.
  intros [HI Hw]. pose proof (commitData_commit c HI) as Hc.
  pose proof (commitData_frame c) as Hf.
  destruct (commitData c) as [c' k| |c']; simpl in *; [| done |].
  - destruct Hc as (-> & Hk & Hkw). specialize (Hf c' eq_refl).
    split; [|split; [done|lia]].
    assert (write c' = write c) as Hwr by (by rewrite Hf).
    split; [|rewrite Hwr; auto].
    rewrite Hf. by apply (Inv_commit_advance c (commit c')).
  - specialize (Hf c' eq_refl).
    assert (write c' = write c) as Hwr by (by rewrite Hf).
    split; [|done]. split; [|rewrite Hwr, Hc; auto].
    rewrite Hf, Hc. apply (Inv_commit_advance c (commit c)); [done|].
    destruct HI as (_ & _ & _ & _ & _ & _ & ? & _). lia.
Qed.

Lemma Inv2_FastSend_full fs fuel c :
  Inv2 fs c -> commit c + mod_ c + 1 < parked ->
  satisfies (FastSend_full fuel c)
    (fun c' more => Inv2 fs c' /\ (more = true -> commit c' <> end_ c'))
    (Inv2 fs).
Proof.
  revert c. induction fuel as [|fuel IH]; intros c HI Hb; simpl; [done|].
  destruct (Z.eqb_spec (commit c) (end_ c)); [|done].
  pose proof (Inv2_slideBuffer fs c) as Hs.
  destruct (slideBuffer c) as [c1 []| |c1]; simpl in *; [| | done |].
  - destruct (Hs c1 HI Hb eq_refl) as (HI1 & Hc & Hm & _).
    apply IH; [done|]. by rewrite Hc, Hm.
  - destruct (Hs c1 HI Hb eq_refl) as (HI1 & _). by split.
  - by destruct (Hs c1 HI Hb eq_refl) as (HI1 & _).
Qed.

Lemma Inv2_Send_full fs fuel c w :
  Inv2 fs c -> commit c + mod_ c + 1 < parked ->
  satisfies (Send_full fuel c w) (fun c' _ => Inv2 fs c') (Inv2 fs).
Proof.
  revert c. induction fuel as [|fuel IH]; intros c HI Hb; simpl; [done|].
  destruct (Z.leb_spec (end_ c) w); [|done].
  pose proof (Inv2_slideBuffer fs c) as Hs.
  destruct (slideBuffer c) as [c1 []| |c1]; simpl in *; [| | done |].
  - destruct (Hs c1 HI Hb eq_refl) as (HI1 & Hc & Hm & _).
    apply IH; [done|]. by rewrite Hc, Hm.
  - by destruct (Hs c1 HI Hb eq_refl) as (HI1 & _).
  - by destruct (Hs c1 HI Hb eq_refl) as (HI1 & _).
Qed.

Lemma store_buffer_frame c i v c' :
  leaves (store_buffer c i v) c' -> exists b, c' = set_buffer b c.
Proof.
  unfold store_buffer. destruct (decide _); simpl; [|done].
  intros <-. eauto.
Qed.

Lemma Inv_FastSend fuel c v c' :
  Inv c -> commit c + mod_ c + 1 < parked ->
  leaves (FastSend fuel c v) c' -> Inv c'.
Proof.
  intros HI Hb. unfold FastSend.
  pose proof (Inv2_FastSend_full true fuel c) as Hf.
  destruct (FastSend_full fuel c) as [c1 []| |c1]; simpl in *; [| | done |].
  - destruct Hf as ([HI1 _] & Hne); [by split | done |].
    specialize (Hne eq_refl).
    pose proof (store_buffer_frame c1 (slot c1 (commit c1)) v) as Hs.
    destruct (store_buffer _ _ _) as [c2 []| |c2]; simpl in *; [| done |].
    + destruct (Hs c2 eq_refl) as [b ->]. intros <-. simpl.
      assert (commit c1 < end_ c1 < parked) as Hlt.
      { destruct HI1 as (_ & _ & _ & ? & _ & _ & ? & _). lia. }
      unfold parked in *. rewrite u64_small.
      * apply (Inv_commit_advance (set_buffer b c1)); [done|]. simpl. lia.
      * destruct HI1 as (_ & ? & _ & _ & _ & ? & _ & _). lia.
    + destruct (Hs c2 eq_refl) as [b ->]. by intros <-.
  - intros <-. by destruct Hf as ([HI1 _] & _); [by split | done |].
  - intros <-. by destruct Hf as [HI1 _]; [by split | done |].
Qed.

Lemma Inv2_Send fs fuel c v now c' :
  Inv2 fs c -> bounded c ->
  leaves (Send fuel c v now) c' -> Inv2 fs c'.
Proof.
  intros [HI Hw] [Hb Hwb]. unfold Send.
  assert (0 <= commit c) as Hc0.
  { destruct HI as (_ & ? & _ & _ & _ & ? & _ & _). lia. }
  assert (Inv2 fs (set_write (u64 (write c + 1)) c)) as HI1.
  { split; [done|]. simpl. intros Hfs. specialize (Hw Hfs).
    unfold parked in *. rewrite u64_small by lia. lia. }
  pose proof (Inv2_Send_full fs fuel _ (write c) HI1 Hb) as Hf.
  destruct (Send_full _ _ _) as [c1 []| |c1]; simpl in *; [| | done |].
  - pose proof (store_buffer_frame c1 (slot c1 (write c)) v) as Hs.
    destruct (store_buffer _ _ _) as [c2 []| |c2]; simpl in *; [| done |].
    + destruct (Hs c2 eq_refl) as [b ->].
      repeat case_match; simpl; try done. by intros <-.
    + destruct (Hs c2 eq_refl) as [b ->]. by intros <-.
  - by intros <-.
  - by intros <-.
Qed.

Lemma live_upd_entry c e f :
  live (endpoints (upd_entry e f c)) =
    if decide (e < Z.to_nat (len (endpoints c)))%nat
    then alter f e (live (endpoints c)) else live (endpoints c).
Proof. unfold live, upd_entry. simpl. apply take_alter. Qed.

Lemma Inv2_upd_entry fs c e f :
  Inv2 fs c ->
  (forall ep, live (endpoints c) !! e = Some ep ->
              cursor_in_window c ep -> cursor_in_window c (f ep)) ->
  Inv2 fs (upd_entry e f c).
Proof.
  intros [(Hmod & Hb & He & Hep & Hlen & Hbc & Hce & Hcur) Hw] Hf.
  split; [|done]. unfold Inv, chain. rewrite live_upd_entry.
  change (cursor_in_window (upd_entry e f c)) with (cursor_in_window c).
  simpl. split_and!; try done.
  destruct (decide _); [|done]. by apply Forall_alter.
Qed.

(** An update of a record that keeps its cursor. *)
Lemma Inv2_upd_entry_same fs c e f :
  Inv2 fs c -> (forall ep, cursor (f ep) = cursor ep) ->
  Inv2 fs (upd_entry e f c).
Proof.
  intros HI Hf. apply Inv2_upd_entry; [done|].
  intros ep _. unfold cursor_in_window. by rewrite Hf.
Qed.

Lemma Inv2_Cancel fs c e : Inv2 fs c -> Inv2 fs (Cancel c e).
Proof.
  intros HI. apply Inv2_upd_entry_same; [done|].
  intros ep. by destruct (endpointState ep =? active).
Qed.

Lemma Inv2_entries fs c es :
  Inv2 fs c -> cursor <$> es = cursor <$> entry (endpoints c) ->
  Inv2 fs (set_entry es c).
Proof.
  intros [(Hmod & Hb & He & Hep & Hlen & Hbc & Hce & Hcur) Hw] Hes.
  split; [|done]. unfold Inv, chain. simpl. split_and!; try done.
  change (cursor_in_window (set_entry es c)) with (cursor_in_window c).
  unfold live in *. simpl in *.
  assert (forall l : list EndpointFoo,
            Forall (cursor_in_window c) l <->
            Forall (fun x => x <> parked -> begin c <= x <= commit c)
                   (cursor <$> l)) as Hfm
    by (intros l; by rewrite Forall_fmap).
  rewrite Hfm, fmap_take, Hes, <- fmap_take, <- Hfm. done.
Qed.

Lemma Inv2_Close fs c e c' :
  Inv2 fs c -> leaves (Close c e) c' -> Inv2 fs c'.
Proof.
  intros HI. unfold Close, Access.
  destruct (channelState c =? active); [|by intros <-].
  cbn [endpointsActivity endpoints set_err set_channelState].
  destruct (endpointsActivity (endpoints c) =? idling); [|by intros <-].
  destruct (entries_in_range _); [|done]. cbn [leaves]. intros <-.
  change (Inv2 fs (set_entry
            ((close_endpoint <$> take (Z.to_nat (len (endpoints c)))
                                   (entry (endpoints c)))
             ++ drop (Z.to_nat (len (endpoints c))) (entry (endpoints c)))
            c)).
  apply Inv2_entries; [done|].
  rewrite fmap_app, <- list_fmap_compose.
  rewrite (list_fmap_ext (cursor ∘ close_endpoint) cursor).
  - by rewrite <- fmap_app, take_drop.
  - intros i ep _. unfold close_endpoint. simpl.
    by destruct (endpointState ep =? active).
Qed.

Lemma start_cursor_bounds k b keep :
  0 <= b <= k -> k < 2 ^ 64 -> 0 <= keep ->
  b <= start_cursor k b keep <= k.
Proof.
  intros Hb Hk Hkeep. unfold start_cursor.
  rewrite (u64_small (k - b)) by lia.
  destruct (Z.leb_spec (k - b) keep); [lia|].
  rewrite u64_small by lia. lia.
Qed.

Lemma u32_le x : 0 <= x -> 0 <= u32 x <= x.
Proof.
  intros Hx. unfold u32. split; [apply Z.mod_pos_bound; lia|].
  apply Z.mod_le; lia.
Qed.

Lemma Inv2_NewForChanFoo fs c keep now c' :
  Inv2 fs c -> 0 <= keep ->
  leaves (NewForChanFoo c keep now) c' -> Inv2 fs c'.
Proof.
  intros HI Hkeep.
  destruct (NewForChanFoo c keep now) as [c2 r| |c2] eqn:HN; simpl;
    [| done |]; intros <-.
  - apply NewForChanFoo_Ret in HN as (c1 & k & Hc & HN).
    pose proof (Inv2_commitData fs (set_endpointsActivity creating c) HI) as H1.
    rewrite Hc in H1. simpl in H1. destruct H1 as (HI1 & -> & _).
    assert (leaves (commitData (set_endpointsActivity creating c)) c1) as Hl
      by (by rewrite Hc).
    apply commitData_fields in Hl as (_ & _ & Hb & _). simpl in Hb.
    rewrite <- Hb in HN. simpl in HN.
    assert (forall ep, cursor_in_window c1
              (attach (start_cursor (commit c1) (begin c1) keep)
                 (channelState c) now ep)) as Hat.
    { intros ep _. simpl.
      destruct HI1 as [(_ & ? & _ & ? & _ & ? & ? & _) _]. unfold parked in *.
      apply start_cursor_bounds; lia. }
    destruct HN as [(_ & [(i & ep & Hf & ? & ->)|(_ & ? & ->)])
                   |(_ & Hi & ? & ->)]; simplify_eq.
    + apply (Inv2_upd_entry fs c1); [done|]. intros; apply Hat.
    + done.
    + set (f := fun ep => attach _ _ _ (set_chanRef true ep)).
      assert (Inv2 fs (upd_entry (Z.to_nat (len (endpoints c1))) f c1)) as HI2.
      { apply (Inv2_upd_entry fs c1); [done|]. intros; apply Hat. }
      destruct HI1 as [(Hmod & Hb1 & He & Hep & Hlen & Hbc & Hce & Hcur) Hw].
      split; [|done]. unfold Inv, chain. simpl.
      pose proof (u32_le (len (endpoints c1) + 1) ltac:(lia)) as Hu.
      split_and!; try done; try lia.
      change (cursor_in_window _) with (cursor_in_window c1).
      unfold live. simpl.
      replace (Z.to_nat (u32 (len (endpoints c1) + 1)))
        with (Nat.min (Z.to_nat (u32 (len (endpoints c1) + 1)))
                (S (Z.to_nat (len (endpoints c1))))) by lia.
      rewrite <- take_take. apply Forall_take.
      apply lookup_lt_is_Some_2 in Hi as [ep Hep'].
      erewrite take_S_r
        by (rewrite list_lookup_alter_eq, Hep'; reflexivity).
      rewrite take_alter_ge by lia.
      apply Forall_app. split; [done|]. constructor; [apply Hat|constructor].
  - unfold NewForChanFoo in HN.
    destruct (negb _); [by simplify_eq|].
    pose proof (Inv2_commitData fs (set_endpointsActivity creating c) HI) as H1.
    destruct (commitData _) as [c1 k| |c1]; simpl in *; [| done |].
    + repeat case_match; simplify_eq.
    + simplify_eq. by destruct H1.
Qed.

(** *** Range *)

Lemma in_use_lookup c e :
  (e < length (live (endpoints c)))%nat ->
  live (endpoints c) !! e = Some (the_ep c e) /\
  entry (endpoints c) !! e = Some (the_ep c e).
Proof.
  intros H. apply lookup_lt_is_Some_2 in H as [ep Hep].
  pose proof (live_lookup _ _ _ Hep) as Hen.
  unfold the_ep. by rewrite Hen.
Qed.

Lemma in_use_upd_entry c e f :
  in_use e c -> cursor (f (the_ep c e)) <> parked ->
  in_use e (upd_entry e f c).
Proof.
  intros [Hlt Hc] Hf. destruct (in_use_lookup c e Hlt) as [_ Hen].
  split.
  - rewrite live_upd_entry. destruct (decide _); [|done].
    by rewrite length_alter.
  - by erewrite the_ep_upd_entry.
Qed.

Lemma Range_inv_upd_same fs e f s :
  Range_inv fs e s -> (forall ep, cursor (f ep) = cursor ep) ->
  Range_inv fs e (on_chan (upd_entry e f) s).
Proof.
  intros [HI Hu] Hf. split; simpl.
  - by apply Inv2_upd_entry_same.
  - apply in_use_upd_entry; [done|]. rewrite Hf. by destruct Hu.
Qed.

Lemma Range_inv_park fs e s :
  Range_inv fs e s -> Inv2 fs (rs_chan (on_chan (park e) s)).
Proof.
  intros [HI _]. simpl. apply Inv2_upd_entry; [done|].
  intros ep _ _. by intros [].
Qed.

Lemma Range_inv_next fs e s :
  Range_inv fs e s ->
  cursor (the_ep (rs_chan s) e) <> commit (rs_chan s) ->
  Range_inv fs e
    (on_chan (upd_entry e (fun ep => set_cursor (u64 (cursor ep + 1)) ep)) s).
Proof.
  intros [HI [Hlt Hnp]] Hne.
  destruct (in_use_lookup _ e Hlt) as [Hlv Hen].
  pose proof HI as [(Hmod & Hb & He & Hep & Hlen & Hch) _].
  apply chain_lookup in Hch as (Hbc & Hce & Hcur).
  specialize (Hcur e _ Hlv Hnp). unfold parked in *.
  assert (u64 (cursor (the_ep (rs_chan s) e) + 1)
          = cursor (the_ep (rs_chan s) e) + 1) as Hu
    by (apply u64_small; lia).
  split; simpl.
  - apply Inv2_upd_entry; [done|]. intros ep Hep' _ _. simplify_eq. simpl.
    rewrite Hu. lia.
  - apply in_use_upd_entry; [done|]. simpl. rewrite Hu. unfold parked. lia.
Qed.

Lemma Range_inv_commitData fs e s :
  Range_inv fs e s ->
  satisfies (Range_commitData s)
    (fun s' k => Range_inv fs e s' /\ k = commit (rs_chan s'))
    (Range_inv fs e).
Proof.
  intros [HI Hu]. unfold Range_commitData.
  pose proof (Inv2_commitData fs (rs_chan s) HI) as Hc.
  pose proof (commitData_fields (rs_chan s)) as Hf.
  destruct (commitData _) as [c k| |c]; simpl in *; [| done |].
  - destruct Hc as (HI' & -> & _). destruct (Hf c eq_refl) as (Hen & _).
    split; [|done]. split; [done|].
    unfold in_use, the_ep in *. simpl. by rewrite Hen.
  - destruct Hc as (HI' & _). destruct (Hf c eq_refl) as (Hen & _).
    split; [done|]. unfold in_use, the_ep in *. simpl. by rewrite Hen.
Qed.

Lemma Range_inv_item fs e foreach maxAge clock s :
  Range_inv fs e s ->
  satisfies (Range_item e foreach maxAge clock s)
    (fun s' _ => Range_inv fs e s' /\
                 commit (rs_chan s') = commit (rs_chan s) /\
                 cursor (the_ep (rs_chan s') e) = cursor (the_ep (rs_chan s) e))
    (fun _ => False).
Proof.
  intros HR. unfold Range_item.
  destruct (buffer _ !! _) as [item|]; [|done].
  assert (Range_inv fs e (if maxAge =? 0 then s else tick s)) as HR1
    by (by destruct (maxAge =? 0)).
  assert (rs_chan (if maxAge =? 0 then s else tick s) = rs_chan s) as Hch
    by (by destruct (maxAge =? 0)).
  set (s1 := if maxAge =? 0 then s else tick s) in *. clearbody s1.
  destruct (if maxAge =? 0 then Some 0 else _) as [m|]; [|done].
  destruct (emit _ _ _ _); cbn [satisfies]; [|by rewrite Hch].
  destruct (foreach _ _); cbn [satisfies].
  - split; [exact HR1|]. cbn [record_call rs_chan]. by rewrite Hch.
  - pose proof (Range_inv_upd_same fs e (set_endpointState canceled)
                  (record_call (item, None, false) s1) HR1
                  (fun _ => eq_refl)) as HR2.
    split; [exact HR2|]. cbn [on_chan record_call rs_chan].
    split; [by rewrite <- Hch|].
    destruct HR1 as [_ [Hlt _]]. destruct (in_use_lookup _ e Hlt) as [_ Hen].
    erewrite the_ep_upd_entry by exact Hen. by rewrite <- Hch.
Qed.

Lemma Range_inv_process fs fuel e foreach maxAge clock k s :
  Range_inv fs e s -> k = commit (rs_chan s) ->
  satisfies (Range_process fuel e foreach maxAge clock k s)
    (fun s' more => if more then Range_inv fs e s'
                    else Inv2 fs (rs_chan s'))
    (fun s' => Inv2 fs (rs_chan s')).
Proof.
  revert k s. induction fuel as [|fuel IH]; intros k s HR Hk;
    cbn [Range_process].
  { by destruct HR. }
  destruct (Z.eqb_spec (cursor (the_ep (rs_chan s) e)) k) as [|Hne]; [done|].
  pose proof (Range_inv_item fs e foreach maxAge clock s HR) as Hi.
  destruct (Range_item _ _ _ _ _) as [s1 []| |s1]; cbn [satisfies] in *;
    [| done | done].
  destruct Hi as (HR1 & Hc & Hcur).
  destruct (_ =? canceled); cbn [satisfies].
  - by apply (Range_inv_park fs e s1).
  - apply IH; [|cbn [on_chan rs_chan upd_entry set_entry set_endpoints commit];
                congruence].
    apply Range_inv_next; [done|]. rewrite Hc, Hcur. congruence.
Qed.

Lemma Range_inv_idle fs e foreach clock s :
  Range_inv fs e s ->
  satisfies (Range_idle zero e foreach clock s)
    (fun s' more => if more then Range_inv fs e s'
                    else Inv2 fs (rs_chan s'))
    (Range_inv fs e).
Proof.
  intros HR. unfold Range_idle.
  assert (Range_inv fs e (tick s)) as HRt by exact HR.
  destruct (_ =? canceled); cbn [satisfies];
    [by apply (Range_inv_park fs e s)|].
  destruct (_ <? write _); cbn [satisfies].
  { destruct (_ =? 1); cbn [satisfies]; [done|].
    by apply (Range_inv_upd_same fs e _ s). }
  destruct (_ <? _ + 1 * millisecond); cbn [satisfies].
  { destruct (_ =? closed); cbn [satisfies]; [|done].
    by apply (Range_inv_upd_same fs e _ (tick s)). }
  destruct (_ <? _ + 250 * millisecond); cbn [satisfies]; [|done].
  destruct (_ =? closed); cbn [satisfies]; [|done].
  by apply (Range_inv_park fs e
              (record_call (zero, err (rs_chan s), true) (tick s))).
Qed.

Lemma Range_inv_wait fs fuel e foreach clock k s :
  Range_inv fs e s -> k = commit (rs_chan s) ->
  satisfies (Range_wait zero fuel e foreach clock k s)
    (fun s' r => match r with
                 | Some k' => Range_inv fs e s' /\ k' = commit (rs_chan s')
                 | None => Inv2 fs (rs_chan s')
                 end)
    (fun s' => Inv2 fs (rs_chan s')).
Proof.
  revert k s. induction fuel as [|fuel IH]; intros k s HR Hk;
    cbn [Range_wait].
  { by destruct HR. }
  destruct (_ =? k); [|done].
  pose proof (Range_inv_idle fs e foreach clock s HR) as Hi.
  destruct (Range_idle _ _ _ _ _) as [s1 []| |s1]; cbn [satisfies] in *;
    [| done | done | by destruct Hi].
  pose proof (Range_inv_commitData fs e s1 Hi) as Hc.
  destruct (Range_commitData s1) as [s2 k2| |s2]; cbn [satisfies] in *;
    [| done | by destruct Hc].
  destruct Hc as [HR2 Hk2]. by apply IH.
Qed.

Lemma Range_inv_loop fs fuel e foreach maxAge clock s :
  Range_inv fs e s ->
  satisfies (Range_loop zero fuel e foreach maxAge clock s)
    (fun s' _ => Inv2 fs (rs_chan s')) (fun s' => Inv2 fs (rs_chan s')).
Proof.
  revert s. induction fuel as [|fuel IH]; intros s HR.
  { simpl. by destruct HR. }
  cbn [Range_loop].
  pose proof (Range_inv_commitData fs e s HR) as Hc.
  destruct (Range_commitData s) as [s1 k1| |s1]; cbn [satisfies] in *;
    [| done | by destruct Hc].
  destruct Hc as [HR1 ->].
  pose proof (Range_inv_wait fs (S fuel) e foreach clock _ s1 HR1 eq_refl)
    as Hw.
  destruct (Range_wait _ _ _ _ _ _ _) as [s2 [k2|]| |s2];
    cbn [satisfies] in *; [| done | done | done].
  destruct Hw as [HR2 ->].
  pose proof (Range_inv_process fs (S fuel) e foreach maxAge clock _ s2
                HR2 eq_refl) as Hp.
  destruct (Range_process _ _ _ _ _ _ _) as [s3 []| |s3];
    cbn [satisfies] in *; [| done | done | done].
  apply IH. by apply (Range_inv_upd_same fs e _ s3).
Qed.

Lemma Inv2_Range fs fuel c e foreach maxAge clock s' :
  Inv2 fs c -> in_use e c ->
  leaves (Range zero fuel c e foreach maxAge clock) s' ->
  Inv2 fs (rs_chan s').
Proof.
  intros HI Hu. unfold Range.
  destruct (_ !! e) as [ep|]; [|done]. destruct (chanRef ep); [|done].
  pose proof (Range_inv_loop fs fuel e foreach maxAge clock
                {| rs_chan := upd_entry e (set_lastActive (clock O)) c;
                   rs_tick := 1; rs_calls := [] |}) as Hl.
  destruct (Range_loop _ _ _ _ _ _ _) as [s1 []| |s1]; simpl in *;
    [| done |]; intros <-; apply Hl;
    by apply (Range_inv_upd_same fs e _ {| rs_chan := c; rs_tick := 1;
                                           rs_calls := [] |}).
Qed.

(** *** Every call keeps the invariant *)

Lemma Inv2_weaken fs c : Inv2 fs c -> Inv2 true c.
Proof. intros [HI _]. by split. Qed.

Lemma Inv2_after fs o c c' :
  Inv2 fs c -> bounded c -> wf_op c o -> after zero o c c' ->
  Inv2 (fs || is_FastSend o) c'.
Proof.
  intros HI Hb Hwf. unfold after.
  destruct o; simpl in *; rewrite ?orb_false_r, ?orb_true_r.
  - by apply Inv2_Close.
  - intros H. split; [|done]. destruct HI, Hb. by eapply Inv_FastSend.
  - by apply Inv2_Send.
  - rewrite leaves_forget. intros H. destruct Hb.
    by apply (Inv2_slideBuffer fs c c').
  - rewrite leaves_forget. intros H.
    pose proof (Inv2_commitData fs c HI) as Hc.
    destruct (commitData c); simpl in *; [| done |]; subst; by destruct Hc.
  - rewrite leaves_forget. apply Inv2_NewForChanFoo; [done|lia].
  - intros <-. by apply Inv2_Cancel.
  - rewrite leaves_forget_range. intros (s & H & <-).
    by eapply Inv2_Range.
Qed.

Lemma Inv2_NewChanFoo bufferCapacity endpointCapacity now c :
  NewChanFoo zero ceilLog2 bufferCapacity endpointCapacity now = Ret c tt ->
  bounded c -> Inv2 false c.
Proof.
  intros Hnew [Hb _].
  apply NewChanFoo_counters in Hnew as Hc. simpl in Hc.
  destruct Hc as (Hbg & Hcm & Hwr & Hen & Hmd & _).
  assert (len (endpoints c) = 0) as Hlen.
  { unfold NewChanFoo in Hnew. case_match; by simplify_eq. }
  pose proof (shl64_range 1 (ceilLog2 bufferCapacity)) as HN.
  set (N := shl64 1 (ceilLog2 bufferCapacity)) in *.
  pose proof (u64_range (N - 1)) as Hmr.
  assert (N <> 0) as HN0.
  { intros H0. rewrite H0 in Hmd. change (u64 (0 - 1)) with (2 ^ 64 - 1) in Hmd.
    unfold parked in Hb. lia. }
  rewrite u64_small in Hmd by lia.
  split; [|lia]. unfold Inv, chain, live. rewrite Hlen.
  change (take (Z.to_nat 0) (entry (endpoints c))) with (@nil EndpointFoo).
  unfold parked in *. split_and!; [lia..|constructor].
Qed.

(** C1 (amended): in every state reached before a counter wraps, by calls
    that return or are suspended, [begin <= cursor <= commit <= end] holds
    for every cursor that is not parked; [commit <= write] holds as long
    as [FastSend] has not been called, and so after every [Send] on such
    a channel. *)
Theorem C1_counter_chain fs c :
  reachable_bounded zero ceilLog2 fs c ->
  chain c /\ (fs = false -> commit c <= write c).
Proof.
  intros Hr. assert (Inv2 fs c) as [(_ & _ & _ & _ & _ & Hch) Hw]; [|done].
  induction Hr as [b e now c Hnew Hb|fs o c c' _ IH Hb Hwf Hstep].
  - by eapply Inv2_NewChanFoo.
  - by eapply Inv2_after.
Qed.

(** ** C3: Send on a closed channel, whatever the window *)

(** One attempt of the loop of [Send] on a closed channel. *)
Lemma Send_full_closed_step c w :
  channelState c = closed ->
  endpointsActivity (endpoints c) = idling ->
  entries_in_range c = true ->
  let c' := set_end (slid_end c) (set_begin (slid_begin c) c) in
  (w < end_ c /\ forall fuel, Send_full (S fuel) c w = Ret c true) \/
  (end_ c <= w /\ ~ begin c < slowest c <= end_ c /\
   forall fuel, Send_full (S fuel) c w = Ret c false) \/
  (end_ c <= w /\ begin c < slowest c <= end_ c /\ slowest c = parked /\
   forall fuel, Send_full (S fuel) c w = Ret c' false) \/
  (end_ c <= w /\ begin c < slowest c <= end_ c /\ slowest c <> parked /\
   forall fuel, Send_full (S fuel) c w = Send_full fuel c' w).
Proof.
  intros Hs Ha Hr c'.
  destruct (Z.leb_spec (end_ c) w) as [Hfull|Hroom].
  2: { left. split; [done|]. intros fuel. by apply Send_full_room. }
  right.
  destruct (slideBuffer_total c Ha Hr) as (c2 & more & Hsl).
  pose proof Hsl as Hsl'.
  apply slideBuffer_Ret in Hsl' as (_ & _ & [(Hslide & Hc2 & Hmore)
                                             |(Hstuck & Hc2 & Hmore)]).
  - right. rewrite Hs in Hmore. change (closed =? active) with false in Hmore.
    fold c' in Hc2. subst c2.
    destruct (Z.eqb_spec (slowest c) parked) as [Hp|Hp]; subst more.
    + left. split_and!; [done | apply Hslide | apply Hslide | done |].
      intros fuel. cbn [Send_full].
      destruct (Z.leb_spec (end_ c) w); [|lia]. by rewrite Hsl.
    + right. split_and!; [done | apply Hslide | apply Hslide | done |].
      intros fuel. cbn [Send_full].
      destruct (Z.leb_spec (end_ c) w); [|lia]. by rewrite Hsl.
  - left. split; [done|]. split; [done|]. intros fuel.
    by apply Send_full_closed_stuck.
Qed.

(** The loop of [Send] on a closed channel ends: every attempt but the
    last slides the window, and the window can slide [slides_left] times
    at most. *)
Lemma Send_full_closed n :
  forall c w,
    channelState c = closed ->
    endpointsActivity (endpoints c) = idling ->
    entries_in_range c = true ->
    0 <= begin c ->
    (slides_left c <= n)%nat ->
    exists c1 stored,
      (forall fuel, (n < fuel)%nat -> Send_full fuel c w = Ret c1 stored) /\
      c1 = set_end (end_ c1) (set_begin (begin c1) c) /\
      (stored = true -> w < end_ c1) /\
      (stored = false ->
       end_ c <= w /\
       (~ begin c1 < slowest c <= end_ c1 \/ slowest c = parked)) /\
      (w < end_ c -> c1 = c /\ stored = true) /\
      (end_ c <= w -> ~ begin c < slowest c <= end_ c ->
       c1 = c /\ stored = false) /\
      (end_ c <= w -> stored = true ->
       exists c2, end_ c2 <= w /\ begin c2 < slowest c <= end_ c2 /\
                  c1 = set_end (slid_end c2) (set_begin (slid_begin c2) c2)).
Proof.
  induction n as [|n IH]; intros c w Hs Ha Hr Hb Hn;
    destruct (Send_full_closed_step c w Hs Ha Hr)
      as [(Hw & Hrun)|[(Hw & Hno & Hrun)|[(Hw & Hsl & Hp & Hrun)
                                          |(Hw & Hsl & Hp & Hrun)]]].
  all: try (exists c, true; split;
              [intros [|fuel] Hf; [lia | apply Hrun]|];
            split; [by rewrite set_end_begin_id|];
            split; [done|]; split; [done|]; split; [done|];
            split; [lia | lia]).
  all: try (exists c, false; split;
              [intros [|fuel] Hf; [lia | apply Hrun]|];
            split; [by rewrite set_end_begin_id|];
            split; [done|]; split; [intros _; split; [done | by left]|];
            split; [lia|]; split; [done | done]).
  all: try (eexists _, false; split;
              [intros [|fuel] Hf; [lia | apply Hrun]|];
            split; [reflexivity|];
            split; [done|]; split; [intros _; split; [done | by right]|];
            split; [lia|]; split; [done | done]).
  - (* a slide costs one of the [slides_left] *)
    unfold slides_left in Hn.
    destruct (Z.ltb_spec (begin c) (slowest c)); [|lia].
    destruct (Z.leb_spec (slowest c) (end_ c)); [|lia].
    cbn [andb] in Hn. lia.
  - set (c' := set_end (slid_end c) (set_begin (slid_begin c) c)) in *.
    assert (slowest c' = slowest c) as Hsl_eq by reflexivity.
    assert (begin c < begin c' <= slowest c) as Hbeg.
    { cbn [c' begin set_end set_begin]. unfold slid_begin.
      pose proof (slowest_spec c) as (Hle & _). unfold parked in Hle.
      destruct (mod_ c <? 16); [rewrite u64_small|]; lia. }
    destruct (IH c' w)
      as (c1 & stored & Hrun1 & Hfr & Ht & Hf & Hroom1 & _ & Hlast);
      [done | done | done | lia | |].
    { unfold slides_left in *. rewrite Hsl_eq.
      destruct (Z.ltb_spec (begin c) (slowest c)); [|lia].
      destruct (Z.leb_spec (slowest c) (end_ c)); [|lia].
      cbn [andb] in Hn.
      destruct ((begin c' <? slowest c) && (slowest c <=? end_ c')); lia. }
    exists c1, stored. split.
    { intros [|fuel] Hfu; [lia|]. rewrite Hrun. apply Hrun1. lia. }
    split; [by rewrite Hfr|]. split; [done|].
    split; [intros Hst; destruct (Hf Hst) as [_ Hno]; by split|].
    split; [lia|]. split; [done|].
    intros _ Hst. destruct (Z.leb_spec (end_ c') w) as [Hfull'|Hroom'].
    + destruct (Hlast Hfull' Hst) as (c2 & H2 & H3 & H4). by exists c2.
    + destruct (Hroom1 Hroom') as [-> _]. by exists c.
Qed.

(** C3 (amended): [Send] on a closed channel never waits: with more
    attempts than the window can slide, it ends.  It increments [write];
    the loop slides the window as long as the reserved index is at or
    beyond [end] and a cursor allows it.  If the index is then below
    [end], [Send] stores the value and the odd marker in the slot as on
    an active channel, or panics on a zero duration; if not, it returns
    without storing, and the buffer, the markers and [commit] are as
    they were.  With room at the call nothing slides and the value is
    stored; with no room and no cursor to let the window slide, only
    [write] changes; and the window is not slid further than needed:
    before the last slide the index was still at or beyond [end]. *)
Theorem C3_Send_closed c v now :
  channelState c = closed ->
  endpointsActivity (endpoints c) = idling ->
  entries_in_range c = true ->
  0 <= begin c ->
  (slot c (write c) < length (buffer c))%nat ->
  (slot c (write c) < length (written c))%nat ->
  exists c1 (stored : bool),
    (forall fuel, (slides_left c < fuel)%nat ->
       Send fuel c v now =
         if stored then
           if since (start c) now =? 0
           then Panic "clock failure; zero duration measured"
           else Ret (set_written
                       (<[slot c (write c)
                          := i64 (Z.shiftl (since (start c) now) 1 + 1)]>
                          (written c))
                       (set_buffer (<[slot c (write c) := v]> (buffer c)) c1))
                    tt
         else Ret c1 tt) /\
    c1 = set_end (end_ c1)
           (set_begin (begin c1) (set_write (u64 (write c + 1)) c)) /\
    (stored = true -> write c < end_ c1) /\
    (stored = false ->
     end_ c <= write c /\
     (~ begin c1 < slowest c <= end_ c1 \/ slowest c = parked)) /\
    (write c < end_ c ->
     c1 = set_write (u64 (write c + 1)) c /\ stored = true) /\
    (end_ c <= write c -> ~ begin c < slowest c <= end_ c ->
     c1 = set_write (u64 (write c + 1)) c /\ stored = false) /\
    (end_ c <= write c -> stored = true ->
     exists c2, end_ c2 <= write c /\ begin c2 < slowest c <= end_ c2 /\
                c1 = set_end (slid_end c2) (set_begin (slid_begin c2) c2)).
Proof.
  intros Hs Ha Hr Hb Hib Hiw.
  destruct (Send_full_closed (slides_left c) (set_write (u64 (write c + 1)) c)
              (write c) Hs Ha Hr Hb (le_n _))
    as (c1 & stored & Hrun & Hfr & Ht & Hf & Hroom & Hstuck).
  exists c1, stored. split; [|done].
  intros fuel Hfu. unfold Send. rewrite (Hrun fuel Hfu).
  destruct stored; [|done].
  assert (mod_ c1 = mod_ c /\ buffer c1 = buffer c /\
          written c1 = written c /\ start c1 = start c)
    as (Hm1 & Hb1 & Hw1 & Hs1) by (by rewrite Hfr).
  unfold store_buffer, slot in *. rewrite Hm1, Hb1.
  destruct (decide _) as [|[]]; [|done].
  cbn [start set_buffer written mod_]. rewrite Hs1, Hm1, Hw1.
  destruct (Z.eqb_spec (since (start c) now) 0); [done|].
  by destruct (decide _) as [|[]].
Qed.

End Proofs.

(** * Further properties of the code *)

Section Further.

Context {foo : Type} (zero : foo) (ceilLog2 : Z -> Z).
Implicit Types (c : ChanFoo foo) (ep : EndpointFoo) (s : RangeSt foo).

(** ** Bits *)

Lemma land_upper m x : 0 <= m -> 0 <= Z.land x m <= m.
Proof.
  intros Hm. split; [apply Z.land_nonneg; by right|].
  assert (Z.land (Z.land x m) (Z.land (Z.lnot x) m) = 0) as Hdisj.
  { apply Z.bits_inj'. intros n Hn.
    rewrite !Z.land_spec, Z.lnot_spec, Z.bits_0 by assumption.
    by destruct (Z.testbit x n), (Z.testbit m n). }
  assert (Z.land x m + Z.land (Z.lnot x) m = m) as H.
  { rewrite Z.add_nocarry_lxor, Z.lxor_lor by done.
    rewrite <- Z.land_lor_distr_l, Z.lor_lnot_diag. apply Z.land_m1_l. }
  assert (0 <= Z.land (Z.lnot x) m) by (apply Z.land_nonneg; by right).
  lia.
Qed.

Lemma land_1 a : Z.land a 1 = a mod 2.
Proof. apply (Z.land_ones a 1). lia. Qed.

(** Clearing the low bit of a published marker gives an unpublished one. *)
Lemma cleared_even m : Z.land m 1 = 1 -> Z.land (i64 (m - 1)) 1 <> 1.
Proof.
  unfold i64. rewrite !land_1. intros H.
  assert ((2 | 2 ^ 64)) as Hd by (exists (2 ^ 63); lia).
  rewrite Zminus_mod, Z.mod_mod_divide, <- Zminus_mod by done.
  replace (m - 1 + 2 ^ 63 - 2 ^ 63) with (m - 1) by lia.
  rewrite Zminus_mod, H. done.
Qed.

(** ** commitData *)

Lemma count_odd_le w : (count_odd w <= length w)%nat.
Proof.
  induction w as [|m w IH]; simpl; [lia|].
  destruct (Z.land m 1 =? 1); lia.
Qed.

Lemma count_odd_clear w i m :
  w !! i = Some m -> Z.land m 1 = 1 ->
  S (count_odd (<[i := i64 (m - 1)]> w)) = count_odd w.
Proof.
  revert i. induction w as [|m' w IH]; intros [|i] Hl Hodd; simplify_eq/=.
  - rewrite Hodd. simpl.
    by destruct (Z.eqb_spec (Z.land (i64 (m - 1)) 1) 1) as [He|];
      [apply cleared_even in Hodd|].
  - destruct (Z.land m' 1 =? 1); by rewrite (IH i).
Qed.

Lemma commit_walk_fuel fuel md e w k :
  (count_odd w < fuel)%nat ->
  forall w', commit_walk fuel md e w k <> Susp w'.
Proof.
  revert w k. induction fuel as [|fuel IH]; intros w k Hf w'; [lia|].
  simpl. destruct (w !! _) as [m|] eqn:Hl; [|done].
  destruct (Z.eqb_spec (Z.land m 1) 1) as [Hodd|]; [|done].
  destruct (e <=? k); [done|].
  apply IH. rewrite <- (count_odd_clear w _ m Hl Hodd) in Hf. lia.
Qed.

Lemma commitData_not_Susp c c' : commitData c <> Susp c'.
Proof.
  unfold commitData.
  destruct (write c <=? commit c); [done|].
  destruct (negb _); [done|].
  pose proof (commit_walk_fuel
                (S (length (written (set_committerActivity working c))))
                (mod_ (set_committerActivity working c))
                (end_ (set_committerActivity working c))
                (written (set_committerActivity working c))
                (commit (set_committerActivity working c))) as Hw.
  destruct (commit_walk _ _ _ _ _) as [w k| |w]; [| done |].
  - by destruct (_ <? k).
  - exfalso. eapply Hw; [|done].
    pose proof (count_odd_le (written (set_committerActivity working c))).
    lia.
Qed.

Lemma commit_walk_keeps_even fuel md e w k w' k' :
  commit_walk fuel md e w k = Ret w' k' ->
  forall i m, w !! i = Some m -> Z.land m 1 <> 1 -> w' !! i = Some m.
Proof.
  revert w k. induction fuel as [|fuel IH]; intros w k; simpl; [done|].
  destruct (w !! Z.to_nat (Z.land k md)) as [m0|] eqn:Hl; [|done].
  destruct (Z.eqb_spec (Z.land m0 1) 1) as [Hodd|];
    [|by intros; simplify_eq].
  assert (forall i m, w !! i = Some m -> Z.land m 1 <> 1 ->
            <[Z.to_nat (Z.land k md) := i64 (m0 - 1)]> w !! i = Some m) as Hi.
  { intros i m Hm Hev. rewrite list_lookup_insert_ne; [done|].
    intros <-. by simplify_eq. }
  destruct (e <=? k).
  - intros; simplify_eq. by apply Hi.
  - intros Hw i m Hm Hev. eapply IH; [exact Hw | by apply Hi | done].
Qed.

(** The walk stops at an unpublished marker. *)
Lemma commit_walk_stops_even fuel md e w k w' k' :
  commit_walk fuel md e w k = Ret w' k' ->
  exists m, w' !! Z.to_nat (Z.land k' md) = Some m /\ Z.land m 1 <> 1.
Proof.
  revert w k. induction fuel as [|fuel IH]; intros w k; simpl; [done|].
  destruct (w !! Z.to_nat (Z.land k md)) as [m0|] eqn:Hl; [|done].
  destruct (Z.eqb_spec (Z.land m0 1) 1) as [Hodd|];
    [|intros; simplify_eq; eauto].
  destruct (e <=? k); [|by apply IH].
  intros; simplify_eq. exists (i64 (m0 - 1)).
  split; [|by apply cleared_even].
  apply list_lookup_insert_eq. by eapply lookup_lt_Some.
Qed.

(** ... and leaves the marker it started from unpublished when it has
    moved. *)
Lemma commit_walk_start_even fuel md e w k w' k' :
  commit_walk fuel md e w k = Ret w' k' -> k' <> k ->
  exists m, w' !! Z.to_nat (Z.land k md) = Some m /\ Z.land m 1 <> 1.
Proof.
  destruct fuel as [|fuel]; simpl; [done|].
  destruct (w !! Z.to_nat (Z.land k md)) as [m0|] eqn:Hl; [|done].
  destruct (Z.eqb_spec (Z.land m0 1) 1) as [Hodd|];
    [|by intros; simplify_eq].
  destruct (e <=? k); [by intros; simplify_eq|].
  intros Hw _. exists (i64 (m0 - 1)). split; [|by apply cleared_even].
  eapply commit_walk_keeps_even; [exact Hw | | by apply cleared_even].
  apply list_lookup_insert_eq. by eapply lookup_lt_Some.
Qed.

Lemma commit_walk_at_even fuel md e w k m :
  w !! Z.to_nat (Z.land k md) = Some m -> Z.land m 1 <> 1 ->
  commit_walk (S fuel) md e w k = Ret w k.
Proof.
  intros Hl Hev. simpl. rewrite Hl.
  by destruct (Z.eqb_spec (Z.land m 1) 1).
Qed.

(** X1: [commitData] returns or panics, it is never left in its loop:
    every iteration clears the low bit of one marker, so the loop ends
    within [len(written) + 1] iterations. *)
Theorem commitData_returns c :
  (exists c' k, commitData c = Ret c' k) \/ (exists m, commitData c = Panic m).
Proof.
  pose proof (commitData_not_Susp c) as H.
  destruct (commitData c) as [c' k|m|c']; [by left; eauto | by right; eauto|].
  by destruct (H c').
Qed.

(** X2: a second [commitData] with no producer in between changes nothing
    and returns the same [commit]. *)
Theorem commitData_idempotent c c' k :
  commitData c = Ret c' k -> commitData c' = Ret c' k.
Proof.
  unfold commitData at 1.
  destruct (Z.leb_spec (write c) (commit c)) as [Hle|Hlt].
  { intros; simplify_eq. unfold commitData.
    by destruct (Z.leb_spec (write c') (commit c')); [|lia]. }
  destruct (Z.eqb_spec (committerActivity c) resting) as [Hrest|Hbusy];
    cbn [negb].
  2: { intros; simplify_eq. unfold commitData.
       destruct (Z.leb_spec (write c') (commit c')); [lia|].
       by destruct (Z.eqb_spec (committerActivity c') resting). }
  cbn [written mod_ end_ commit write set_committerActivity set_written].
  destruct (commit_walk _ _ _ _ _) as [w k1| |w] eqn:Hw; [| done | done].
  destruct (Z.ltb_spec (write c) k1) as [|Hk1]; [done|].
  intros Heq.
  set (k2 := if commit c <? k1 then k1 else commit c).
  assert (c' = set_committerActivity resting
                 (set_written w (set_commit k2 c)) /\ k = k2) as [-> ->].
  { unfold k2. destruct (commit c <? k1); simplify_eq; by destruct c. }
  clear Heq. unfold commitData.
  cbn [written mod_ end_ commit write committerActivity negb
       set_committerActivity set_written set_commit].
  destruct (Z.leb_spec (write c) k2); [done|].
  change (resting =? resting) with true. cbn [negb].
  cbn [written mod_ end_ commit write committerActivity
       set_committerActivity set_written set_commit].
  assert (exists m, w !! Z.to_nat (Z.land k2 (mod_ c)) = Some m /\
                    Z.land m 1 <> 1) as (m & Hm & Hev).
  { unfold k2. destruct (Z.ltb_spec (commit c) k1).
    - by eapply commit_walk_stops_even.
    - destruct (decide (k1 = commit c)) as [->|Hne].
      + by eapply commit_walk_stops_even.
      + by eapply commit_walk_start_even. }
  rewrite (commit_walk_at_even _ _ _ _ _ m) by done.
  cbn [written mod_ end_ commit write committerActivity
       set_committerActivity set_written set_commit].
  destruct (Z.ltb_spec (write c) k2); [lia|].
  by rewrite Z.ltb_irrefl.
Qed.

(** ** What Range does to the channel

    [Range] acts on the channel through [commitData] and through writes
    to the fields of its own record only: a relation that these two keep
    holds between the channel before the call and the channel it leaves
    behind. *)

Section Range_rel.

Variable P : ChanFoo foo -> ChanFoo foo -> Prop.
Hypothesis P_refl : forall c, P c c.
Hypothesis P_trans : forall c1 c2 c3, P c1 c2 -> P c2 c3 -> P c1 c3.
Variable e : nat.
Hypothesis P_commitData : forall c c', leaves (commitData c) c' -> P c c'.
Hypothesis P_upd_entry : forall c f, P c (upd_entry e f c).

Lemma Range_commitData_rel s s' :
  leaves (Range_commitData s) s' -> P (rs_chan s) (rs_chan s').
Proof.
  unfold Range_commitData. pose proof (P_commitData (rs_chan s)) as Hc.
  destruct (commitData _); cbn [leaves] in *; [| done |];
    intros <-; by apply Hc.
Qed.

Lemma Range_idle_rel foreach clock s s' :
  leaves (Range_idle zero e foreach clock s) s' -> P (rs_chan s) (rs_chan s').
Proof.
  unfold Range_idle.
  repeat (case_match; cbn [leaves]); try done; intros <-;
    cbn [rs_chan on_chan tick record_call]; try apply P_refl;
    apply P_upd_entry.
Qed.

Lemma Range_item_rel foreach maxAge clock s s' :
  leaves (Range_item e foreach maxAge clock s) s' ->
  P (rs_chan s) (rs_chan s').
Proof.
  unfold Range_item.
  repeat (case_match; cbn [leaves]); try done; intros <-;
    cbn [rs_chan on_chan tick record_call]; try apply P_refl;
    apply P_upd_entry.
Qed.

Lemma Range_process_rel fuel foreach maxAge clock k s s' :
  leaves (Range_process fuel e foreach maxAge clock k s) s' ->
  P (rs_chan s) (rs_chan s').
Proof.
  revert s. induction fuel as [|fuel IH]; intros s; cbn [Range_process].
  { intros <-. apply P_refl. }
  destruct (_ =? k); [intros <-; apply P_refl|].
  pose proof (Range_item_rel foreach maxAge clock s) as Hi.
  destruct (Range_item _ _ _ _ _) as [s1 []| |s1]; cbn [leaves] in *;
    [| done | by intros <-; apply Hi].
  specialize (Hi s1 eq_refl).
  destruct (_ =? canceled); cbn [leaves].
  - intros <-. eapply P_trans; [exact Hi|]. apply P_upd_entry.
  - intros H. apply IH in H. eapply P_trans; [exact Hi|].
    eapply P_trans; [|exact H]. apply P_upd_entry.
Qed.

Lemma Range_wait_rel fuel foreach clock k s s' :
  leaves (Range_wait zero fuel e foreach clock k s) s' ->
  P (rs_chan s) (rs_chan s').
Proof.
  revert k s. induction fuel as [|fuel IH]; intros k s; cbn [Range_wait].
  { intros <-. apply P_refl. }
  destruct (_ =? k); [|intros <-; apply P_refl].
  pose proof (Range_idle_rel foreach clock s) as Hi.
  destruct (Range_idle _ _ _ _ _) as [s1 []| |s1]; cbn [leaves] in *;
    [| by intros <-; apply Hi | done | by intros <-; apply Hi].
  specialize (Hi s1 eq_refl).
  pose proof (Range_commitData_rel s1) as Hc.
  destruct (Range_commitData s1) as [s2 k2| |s2]; cbn [leaves] in *;
    [| done |].
  - intros H. apply IH in H. eapply P_trans; [exact Hi|].
    eapply P_trans; [|exact H]. by apply Hc.
  - intros <-. eapply P_trans; [exact Hi|]. by apply Hc.
Qed.

Lemma Range_loop_rel fuel foreach maxAge clock s s' :
  leaves (Range_loop zero fuel e foreach maxAge clock s) s' ->
  P (rs_chan s) (rs_chan s').
Proof.
  revert s. induction fuel as [|fuel IH]; intros s.
  { cbn. intros <-. apply P_refl. }
  cbn [Range_loop].
  pose proof (Range_commitData_rel s) as Hc.
  destruct (Range_commitData s) as [s1 k1| |s1]; cbn [leaves] in Hc |- *;
    [| done | by intros <-; apply Hc].
  specialize (Hc s1 eq_refl).
  pose proof (Range_wait_rel (S fuel) foreach clock k1 s1) as Hw.
  destruct (Range_wait _ _ _ _ _ _ _) as [s2 [k2|]| |s2];
    cbn [leaves] in Hw |- *; [| | done |];
    try (intros <-; eapply P_trans; [exact Hc|]; by apply Hw).
  specialize (Hw s2 eq_refl).
  pose proof (Range_process_rel (S fuel) foreach maxAge clock k2 s2) as Hp.
  destruct (Range_process _ _ _ _ _ _ _) as [s3 []| |s3];
    cbn [leaves] in Hp |- *; [| | done |];
    try (intros <-; eapply P_trans; [exact Hc|];
         eapply P_trans; [exact Hw|]; by apply Hp).
  specialize (Hp s3 eq_refl).
  intros H. apply IH in H. cbn [rs_chan tick on_chan] in H.
  eapply P_trans; [exact Hc|]. eapply P_trans; [exact Hw|].
  eapply P_trans; [exact Hp|]. eapply P_trans; [|exact H].
  apply P_upd_entry.
Qed.

Lemma Range_rel fuel c foreach maxAge clock s' :
  leaves (Range zero fuel c e foreach maxAge clock) s' -> P c (rs_chan s').
Proof.
  unfold Range. destruct (_ !! e) as [ep|]; [|done].
  destruct (chanRef ep); [|done].
  intros H. apply Range_loop_rel in H. cbn [rs_chan] in H.
  eapply P_trans; [|exact H]. apply P_upd_entry.
Qed.

End Range_rel.

(** ** The shape of the channel *)

Lemma stable_refl c : stable c c.
Proof. unfold stable. split_and!; auto. Qed.

Lemma stable_trans c1 c2 c3 : stable c1 c2 -> stable c2 c3 -> stable c1 c3.
Proof.
  unfold stable, active, closed.
  intros (Hm1 & Hs1 & Hb1 & Hw1 & He1 & Hc1 & Hr1)
         (Hm2 & Hs2 & Hb2 & Hw2 & He2 & Hc2 & Hr2).
  split_and!; try congruence.
  - destruct Hc1 as [?|[? ?]], Hc2 as [?|[? ?]]; (left; congruence) ||
      (right; split; congruence) || congruence.
  - intros Hna. rewrite Hr2, Hr1; [done..|].
    destruct Hc1 as [?|[? ?]]; congruence.
Qed.

Ltac stable_solve :=
  unfold stable; cbn;
  rewrite ?length_alter, ?length_insert; split_and!; auto.

Lemma stable_upd_entry e c f : stable c (upd_entry e f c).
Proof. stable_solve. Qed.

Lemma commit_walk_length fuel md e w k w' :
  leaves (commit_walk fuel md e w k) w' -> length w' = length w.
Proof.
  revert w k. induction fuel as [|fuel IH]; intros w k; cbn [commit_walk].
  { by intros <-. }
  destruct (w !! _) as [m|]; [|done].
  destruct (Z.land m 1 =? 1); [|by intros <-].
  destruct (e <=? k); [intros <-; by rewrite length_insert|].
  intros H. apply IH in H. by rewrite length_insert in H.
Qed.

Lemma commitData_written_length c c' :
  leaves (commitData c) c' -> length (written c') = length (written c).
Proof.
  unfold commitData.
  destruct (write c <=? commit c); [by intros <-|].
  destruct (negb _); [by intros <-|].
  pose proof (commit_walk_length
                (S (length (written (set_committerActivity working c))))
                (mod_ (set_committerActivity working c))
                (end_ (set_committerActivity working c))
                (written (set_committerActivity working c))
                (commit (set_committerActivity working c))) as Hw.
  destruct (commit_walk _ _ _ _ _) as [w k| |w]; cbn [leaves] in *;
    [| done |].
  - specialize (Hw w eq_refl).
    destruct (_ <? k); [done|]. cbn [leaves]. intros <-.
    by destruct (_ <? k).
  - specialize (Hw w eq_refl). by intros <-.
Qed.

Lemma stable_commitData c c' : leaves (commitData c) c' -> stable c c'.
Proof.
  intros H. pose proof (commitData_written_length c c' H) as Hl.
  apply commitData_frame in H. rewrite H in Hl |- *. cbn in Hl.
  unfold stable. cbn. split_and!; auto.
Qed.

Lemma stable_slideBuffer c c' : leaves (slideBuffer c) c' -> stable c c'.
Proof.
  destruct (slideBuffer c) as [c1 more| |c1] eqn:Hs; cbn [leaves]; [| done |].
  - intros <-.
    apply slideBuffer_Ret in Hs as (_ & _ & [(_ & -> & _)|(_ & -> & _)]).
    + stable_solve.
    + apply stable_refl.
  - intros <-. apply slideBuffer_Susp in Hs as ->. apply stable_refl.
Qed.

Lemma stable_FastSend_full fuel c c' :
  leaves (FastSend_full fuel c) c' -> stable c c'.
Proof.
  revert c. induction fuel as [|fuel IH]; intros c; cbn [FastSend_full].
  { intros <-. apply stable_refl. }
  destruct (_ =? _); [|intros <-; apply stable_refl].
  pose proof (stable_slideBuffer c) as Hs.
  destruct (slideBuffer c) as [c1 []| |c1]; cbn [leaves] in *; [| | done |];
    try (intros <-; by apply Hs).
  intros H. eapply stable_trans; [by apply Hs | by apply IH].
Qed.

Lemma stable_Send_full fuel c w c' :
  leaves (Send_full fuel c w) c' -> stable c c'.
Proof.
  revert c. induction fuel as [|fuel IH]; intros c; cbn [Send_full].
  { intros <-. apply stable_refl. }
  destruct (_ <=? _); [|intros <-; apply stable_refl].
  pose proof (stable_slideBuffer c) as Hs.
  destruct (slideBuffer c) as [c1 []| |c1]; cbn [leaves] in *; [| | done |];
    try (intros <-; by apply Hs).
  intros H. eapply stable_trans; [by apply Hs | by apply IH].
Qed.

Lemma stable_store_buffer c i v c' :
  leaves (store_buffer c i v) c' -> stable c c'.
Proof.
  unfold store_buffer. destruct (decide _); cbn [leaves]; [|done].
  intros <-. stable_solve.
Qed.

Lemma stable_FastSend fuel c v c' :
  leaves (FastSend fuel c v) c' -> stable c c'.
Proof.
  unfold FastSend. pose proof (stable_FastSend_full fuel c) as Hf.
  destruct (FastSend_full fuel c) as [c1 []| |c1]; cbn [leaves] in *;
    [| | done |]; try (intros <-; by apply Hf).
  specialize (Hf c1 eq_refl).
  pose proof (stable_store_buffer c1 (slot c1 (commit c1)) v) as Hb.
  destruct (store_buffer _ _ _) as [c2 []| |c2]; cbn [leaves] in *;
    [| done |].
  - intros <-. eapply stable_trans; [exact Hf|].
    eapply stable_trans; [by apply Hb|]. stable_solve.
  - intros <-. eapply stable_trans; [exact Hf | by apply Hb].
Qed.

Lemma stable_Send fuel c v now c' :
  leaves (Send fuel c v now) c' -> stable c c'.
Proof.
  unfold Send.
  pose proof (stable_Send_full fuel (set_write (u64 (write c + 1)) c)
                (write c)) as Hf.
  assert (stable c (set_write (u64 (write c + 1)) c)) as H0 by stable_solve.
  destruct (Send_full _ _ _) as [c1 []| |c1]; cbn [leaves] in *;
    [| | done |];
    try (intros <-; eapply stable_trans; [exact H0 | by apply Hf]).
  specialize (Hf c1 eq_refl).
  pose proof (stable_store_buffer c1 (slot c1 (write c)) v) as Hb.
  destruct (store_buffer _ _ _) as [c2 []| |c2]; cbn [leaves] in *;
    [| done |].
  - specialize (Hb c2 eq_refl).
    destruct (_ =? 0); [done|]. destruct (decide _); cbn [leaves]; [|done].
    intros <-. eapply stable_trans; [exact H0|].
    eapply stable_trans; [exact Hf|]. eapply stable_trans; [exact Hb|].
    stable_solve.
  - intros <-. eapply stable_trans; [exact H0|].
    eapply stable_trans; [exact Hf | by apply Hb].
Qed.

Lemma close_entries_length (es : list EndpointFoo) n :
  length ((close_endpoint <$> take n es) ++ drop n es) = length es.
Proof.
  rewrite length_app, length_fmap, length_take, length_drop. lia.
Qed.

Lemma stable_Close c e c' : leaves (Close c e) c' -> stable c c'.
Proof.
  unfold Close, Access.
  destruct (Z.eqb_spec (channelState c) active) as [Ha|];
    [|intros <-; apply stable_refl].
  cbn [endpointsActivity endpoints set_err set_channelState].
  destruct (endpointsActivity (endpoints c) =? idling).
  - destruct (entries_in_range _); cbn [leaves]; [|done]. intros <-.
    unfold stable. cbn. rewrite close_entries_length.
    split_and!; auto. intros Hn. by rewrite Ha in Hn.
  - cbn [leaves]. intros <-. unfold stable. cbn.
    split_and!; auto. intros Hn. by rewrite Ha in Hn.
Qed.

Lemma stable_Cancel c e : stable c (Cancel c e).
Proof. apply stable_upd_entry. Qed.

Lemma stable_NewForChanFoo c keep now c' :
  leaves (NewForChanFoo c keep now) c' -> stable c c'.
Proof.
  destruct (NewForChanFoo c keep now) as [c2 r| |c2] eqn:HN; cbn [leaves];
    [| done |]; intros <-.
  - apply NewForChanFoo_Ret in HN as (c1 & k & Hc & HN).
    assert (stable c c1) as H1.
    { apply (stable_trans _ (set_endpointsActivity creating c));
        [stable_solve|]. apply stable_commitData. by rewrite Hc. }
    cbn in HN.
    destruct HN as [(_ & [(i & ep & _ & _ & ->)|(_ & _ & ->)])
                   |(_ & _ & _ & ->)];
      (eapply stable_trans; [exact H1|]); stable_solve.
  - unfold NewForChanFoo in HN. destruct (negb _).
    + simplify_eq. apply stable_refl.
    + pose proof (stable_commitData (set_endpointsActivity creating c)) as H1.
      destruct (commitData _) as [c1 k| |c1]; cbn [leaves] in *.
      * repeat case_match; simplify_eq.
      * done.
      * simplify_eq.
        apply (stable_trans _ (set_endpointsActivity creating c));
          [stable_solve | by apply H1].
Qed.

Lemma after_stable o c c' : after zero o c c' -> stable c c'.
Proof.
  unfold after. destruct o; cbn [exec].
  - apply stable_Close.
  - apply stable_FastSend.
  - apply stable_Send.
  - rewrite leaves_forget. apply stable_slideBuffer.
  - rewrite leaves_forget. apply stable_commitData.
  - rewrite leaves_forget. apply stable_NewForChanFoo.
  - cbn [leaves]. intros <-. apply stable_Cancel.
  - rewrite leaves_forget_range. intros (s & H & <-).
    eapply (Range_rel stable stable_refl stable_trans);
      [apply stable_commitData | apply stable_upd_entry | exact H].
Qed.

Lemma run_stable c c' : run zero c c' -> stable c c'.
Proof.
  induction 1 as [c|o c c1 c2 _ IH Hstep]; [apply stable_refl|].
  eapply stable_trans; [exact IH|]. by eapply after_stable.
Qed.

(** X3: a closed channel stays closed, and the error recorded by the
    [Close] that closed it is never written again, whatever calls
    follow. *)
Theorem Closed_permanent c c' :
  run zero c c' -> Closed c = true ->
  Closed c' = true /\ err c' = err c.
Proof.
  intros Hr Hc. apply run_stable in Hr as (_ & _ & _ & _ & _ & Hs & He).
  unfold Closed, closed, active in *.
  apply Z.leb_le in Hc. split.
  - apply Z.leb_le. destruct Hs as [->|[? ?]]; lia.
  - apply He. lia.
Qed.

(** X4: no call changes the size of the buffer, of the markers or of the
    endpoint table, nor the mask and the reference time. *)
Theorem sizes_constant c c' :
  run zero c c' ->
  mod_ c' = mod_ c /\ start c' = start c /\
  length (buffer c') = length (buffer c) /\
  length (written c') = length (written c) /\
  length (entry (endpoints c')) = length (entry (endpoints c)).
Proof. intros Hr. apply run_stable in Hr. unfold stable in Hr. tauto. Qed.

(** ** Indices stay in range *)

Lemma NewChanFoo_sizes bufferCapacity endpointCapacity now c :
  NewChanFoo zero ceilLog2 bufferCapacity endpointCapacity now = Ret c tt ->
  1 <= shl64 1 (ceilLog2 bufferCapacity) ->
  0 <= mod_ c /\
  (Z.to_nat (mod_ c) < length (buffer c))%nat /\
  (Z.to_nat (mod_ c) < length (written c))%nat.
Proof.
  intros Hnew HN.
  apply NewChanFoo_counters in Hnew as (_ & _ & _ & _ & Hm & Hb & Hw).
  pose proof (shl64_range 1 (ceilLog2 bufferCapacity)).
  rewrite u64_small in Hm by lia. rewrite Hm, Hb, Hw. lia.
Qed.

Lemma slot_lt c x n :
  0 <= mod_ c -> (Z.to_nat (mod_ c) < n)%nat -> (slot c x < n)%nat.
Proof.
  intros Hm Hn. unfold slot. pose proof (land_upper (mod_ c) x Hm). lia.
Qed.

Lemma reachable_run N c :
  reachable zero ceilLog2 N c ->
  exists bufferCapacity endpointCapacity now c0,
    NewChanFoo zero ceilLog2 bufferCapacity endpointCapacity now = Ret c0 tt /\
    N = shl64 1 (ceilLog2 bufferCapacity) /\ run zero c0 c.
Proof.
  induction 1 as [b e now c Hnew HN|o c c' _ IH Hstep].
  - exists b, e, now, c. split_and!; [done..|constructor].
  - destruct IH as (b & e & now & c0 & Hnew & HN & Hrun).
    exists b, e, now, c0. split_and!; [done..|]. by econstructor.
Qed.

(** X5: on a channel made with at least one slot, the slot of every
    counter is an index of [buffer] and of [written], in every reachable
    state: no access [c.buffer[i&c.mod]] or [c.written[i&c.mod]] is out of
    range. *)
Theorem slots_in_range N c x :
  reachable zero ceilLog2 N c -> 1 <= N ->
  (slot c x < length (buffer c))%nat /\ (slot c x < length (written c))%nat.
Proof.
  intros Hr HN.
  apply reachable_run in Hr as (b & e & now & c0 & Hnew & -> & Hrun).
  apply NewChanFoo_sizes in Hnew as (Hm & Hb & Hw); [|done].
  apply run_stable in Hrun as (Hm' & _ & Hb' & Hw' & _).
  split; apply slot_lt; congruence.
Qed.

(** ** The guards *)

Lemma quiet_commitData c c' :
  leaves (commitData c) c' -> committerActivity c = resting ->
  committerActivity c' = resting /\ endpoints c' = endpoints c.
Proof.
  intros H Hr. split; [|by apply commitData_fields in H as (? & _)].
  revert H. unfold commitData.
  destruct (write c <=? commit c); [by intros <-|].
  destruct (negb _); [by intros <-|].
  pose proof (commit_walk_fuel
                (S (length (written (set_committerActivity working c))))
                (mod_ (set_committerActivity working c))
                (end_ (set_committerActivity working c))
                (written (set_committerActivity working c))
                (commit (set_committerActivity working c))) as Hw.
  destruct (commit_walk _ _ _ _ _) as [w k| |w]; cbn [leaves]; [| done |].
  - destruct (_ <? k); [done|]. cbn [leaves]. by intros <-.
  - exfalso. eapply Hw; [|done].
    pose proof (count_odd_le (written (set_committerActivity working c))).
    lia.
Qed.

Lemma keeps_quiet_commitData c c' :
  leaves (commitData c) c' -> keeps_quiet c c'.
Proof.
  intros H (Ha & Hr & Hl). destruct (quiet_commitData c c' H Hr) as [Hr' He].
  unfold quiet. by rewrite He.
Qed.

Lemma keeps_quiet_upd_entry e c f : keeps_quiet c (upd_entry e f c).
Proof.
  intros (Ha & Hr & Hl). unfold quiet. cbn. by rewrite length_alter.
Qed.

Lemma keeps_quiet_slideBuffer c c' :
  leaves (slideBuffer c) c' -> keeps_quiet c c'.
Proof.
  destruct (slideBuffer c) as [c1 more| |c1] eqn:Hs; cbn [leaves]; [| done |].
  - intros <-.
    apply slideBuffer_Ret in Hs as (_ & _ & [(_ & -> & _)|(_ & -> & _)]);
      intros Hq; exact Hq.
  - intros <-. apply slideBuffer_Susp in Hs as ->. by intros Hq.
Qed.

Lemma keeps_quiet_FastSend_full fuel c c' :
  leaves (FastSend_full fuel c) c' -> keeps_quiet c c'.
Proof.
  revert c. induction fuel as [|fuel IH]; intros c; cbn [FastSend_full].
  { by intros <- ?. }
  destruct (_ =? _); [|by intros <- ?].
  pose proof (keeps_quiet_slideBuffer c) as Hs.
  destruct (slideBuffer c) as [c1 []| |c1]; cbn [leaves] in *; [| | done |];
    try (intros <-; by apply Hs).
  intros H Hq. eapply IH; [exact H|]. by apply Hs.
Qed.

Lemma keeps_quiet_Send_full fuel c w c' :
  leaves (Send_full fuel c w) c' -> keeps_quiet c c'.
Proof.
  revert c. induction fuel as [|fuel IH]; intros c; cbn [Send_full].
  { by intros <- ?. }
  destruct (_ <=? _); [|by intros <- ?].
  pose proof (keeps_quiet_slideBuffer c) as Hs.
  destruct (slideBuffer c) as [c1 []| |c1]; cbn [leaves] in *; [| | done |];
    try (intros <-; by apply Hs).
  intros H Hq. eapply IH; [exact H|]. by apply Hs.
Qed.

Lemma keeps_quiet_FastSend fuel c v c' :
  leaves (FastSend fuel c v) c' -> keeps_quiet c c'.
Proof.
  unfold FastSend. pose proof (keeps_quiet_FastSend_full fuel c) as Hf.
  destruct (FastSend_full fuel c) as [c1 []| |c1]; cbn [leaves] in *;
    [| | done |]; try (intros <-; by apply Hf).
  specialize (Hf c1 eq_refl).
  pose proof (store_buffer_frame c1 (slot c1 (commit c1)) v) as Hb.
  destruct (store_buffer _ _ _) as [c2 []| |c2]; cbn [leaves] in *;
    [| done |]; destruct (Hb c2 eq_refl) as [b ->]; intros <- Hq;
    by apply Hf in Hq.
Qed.

Lemma keeps_quiet_Send fuel c v now c' :
  leaves (Send fuel c v now) c' -> keeps_quiet c c'.
Proof.
  unfold Send.
  pose proof (keeps_quiet_Send_full fuel (set_write (u64 (write c + 1)) c)
                (write c)) as Hf.
  destruct (Send_full _ _ _) as [c1 []| |c1]; cbn [leaves] in *;
    [| | done |]; try (intros <- Hq; by apply (Hf _ eq_refl)).
  specialize (Hf c1 eq_refl).
  pose proof (store_buffer_frame c1 (slot c1 (write c)) v) as Hb.
  destruct (store_buffer _ _ _) as [c2 []| |c2]; cbn [leaves] in *;
    [| done |]; destruct (Hb c2 eq_refl) as [b ->].
  - destruct (_ =? 0); [done|]. destruct (decide _); cbn [leaves]; [|done].
    intros <- Hq. by apply Hf in Hq.
  - intros <- Hq. by apply Hf in Hq.
Qed.

Lemma keeps_quiet_Close c e c' : leaves (Close c e) c' -> keeps_quiet c c'.
Proof.
  unfold Close, Access. intros H (Ha & Hr & Hl). revert H.
  destruct (channelState c =? active); [|by intros <-].
  cbn [endpointsActivity endpoints set_err set_channelState].
  rewrite Ha. change (idling =? idling) with true. cbv iota.
  destruct (entries_in_range _); cbn [leaves]; [|done]. intros <-.
  unfold quiet. cbn. by rewrite close_entries_length.
Qed.

Lemma keeps_quiet_NewForChanFoo c keep now c' :
  leaves (NewForChanFoo c keep now) c' -> keeps_quiet c c'.
Proof.
  intros H (Ha & Hr & Hl).
  destruct (NewForChanFoo c keep now) as [c2 r| |c2] eqn:HN; cbn [leaves] in H;
    [| done |]; subst c2.
  - apply NewForChanFoo_Ret in HN as (c1 & k & Hc & HN).
    destruct (quiet_commitData (set_endpointsActivity creating c) c1)
      as [Hr1 He1]; [by rewrite Hc | done |].
    cbn in He1. cbn in HN.
    destruct HN as [(_ & [(i & ep & _ & _ & ->)|(_ & _ & ->)])
                   |(Hne & Hlt & _ & ->)].
    + unfold quiet. cbn. rewrite length_alter, He1. by cbn.
    + unfold quiet. cbn. rewrite He1. by cbn.
    + unfold quiet. cbn. rewrite length_alter. rewrite He1 in *. cbn in *.
      pose proof (u32_le (len (endpoints c) + 1)).
      split_and!; [done | done | lia | lia].
  - unfold NewForChanFoo in HN. rewrite Ha in HN.
    change (negb (idling =? idling)) with false in HN. cbv iota in HN.
    pose proof (commitData_not_Susp (set_endpointsActivity creating c)) as Hn.
    destruct (commitData _) as [c1 k| |c1].
    + repeat case_match; simplify_eq.
    + done.
    + by destruct (Hn c1).
Qed.

Lemma after_quiet o c c' : after zero o c c' -> quiet c -> quiet c'.
Proof.
  unfold after. destruct o; cbn [exec].
  - apply keeps_quiet_Close.
  - apply keeps_quiet_FastSend.
  - apply keeps_quiet_Send.
  - rewrite leaves_forget. apply keeps_quiet_slideBuffer.
  - rewrite leaves_forget. apply keeps_quiet_commitData.
  - rewrite leaves_forget. apply keeps_quiet_NewForChanFoo.
  - cbn [leaves]. intros <-. apply keeps_quiet_upd_entry.
  - rewrite leaves_forget_range. intros (s & H & <-).
    eapply (Range_rel keeps_quiet);
      [by intros ? ? | by intros c1 c2 c3 H12 H23 ?; apply H23, H12
      | apply keeps_quiet_commitData | apply keeps_quiet_upd_entry | exact H].
Qed.

Lemma reachable_quiet N c : reachable zero ceilLog2 N c -> quiet c.
Proof.
  induction 1 as [b e now c Hnew _|o c c' _ IH Hstep].
  - unfold NewChanFoo in Hnew. destruct (Z.ltb_spec e 0); simplify_eq.
    unfold quiet. cbn. rewrite length_replicate. lia.
  - by eapply after_quiet.
Qed.

(** X6: in every reachable state both guards are free and [len] is
    within the table: a call never finds a guard taken by a call that has
    returned or is suspended. *)
Theorem guards_free N c :
  reachable zero ceilLog2 N c ->
  endpointsActivity (endpoints c) = idling /\
  committerActivity c = resting /\
  0 <= len (endpoints c) <= Z.of_nat (length (entry (endpoints c))).
Proof. apply reachable_quiet. Qed.

Lemma Close_active_returns c e :
  channelState c = active ->
  endpointsActivity (endpoints c) = idling ->
  entries_in_range c = true ->
  exists c', Close c e = Ret c' tt.
Proof.
  intros Hs Ha Hr. unfold Close, Access.
  destruct c as [bf b e0 cm md [en ln act] er cs wr st wn ca].
  unfold entries_in_range in *. cbn in *. subst cs act. cbn.
  rewrite Hr. eauto.
Qed.

(** X7: in every reachable state [Close] and [slideBuffer] return: they
    neither spin on the guard nor index the table out of range. *)
Theorem Close_slideBuffer_return N c e :
  reachable zero ceilLog2 N c ->
  (exists c', Close c e = Ret c' tt) /\
  (exists c' more, slideBuffer c = Ret c' more).
Proof.
  intros Hr. apply reachable_quiet in Hr as (Ha & _ & Hl).
  assert (entries_in_range c = true) as Hin
    by (unfold entries_in_range; apply Z.leb_le; lia).
  split; [|by apply slideBuffer_total].
  destruct (Z.eq_dec (channelState c) active) as [Hs|Hs].
  - by apply Close_active_returns.
  - exists c. by apply Close_not_active.
Qed.

(** ** Range returns through a parked cursor *)

Lemma cursor_park c e :
  (e < length (entry (endpoints c)))%nat ->
  cursor (the_ep (park e c) e) = parked.
Proof.
  intros H. apply lookup_lt_is_Some_2 in H as [ep Hep].
  unfold park. by erewrite the_ep_upd_entry.
Qed.

Lemma stable_entries c c' :
  stable c c' -> forall e,
  (e < length (entry (endpoints c)))%nat ->
  (e < length (entry (endpoints c')))%nat.
Proof. intros (_ & _ & _ & _ & He & _) e. by rewrite He. Qed.

Lemma Range_idle_parked e foreach clock s s' :
  (e < length (entry (endpoints (rs_chan s))))%nat ->
  Range_idle zero e foreach clock s = Ret s' false ->
  cursor (the_ep (rs_chan s') e) = parked.
Proof.
  intros He. unfold Range_idle.
  repeat case_match; intros; simplify_eq; cbn [rs_chan on_chan];
    by apply cursor_park.
Qed.

Lemma Range_process_parked fuel e foreach maxAge clock k s s' :
  (e < length (entry (endpoints (rs_chan s))))%nat ->
  Range_process fuel e foreach maxAge clock k s = Ret s' false ->
  cursor (the_ep (rs_chan s') e) = parked.
Proof.
  revert s. induction fuel as [|fuel IH]; intros s He; cbn [Range_process];
    [done|].
  destruct (_ =? k); [done|].
  pose proof (Range_item_rel stable stable_refl e (stable_upd_entry e)
                foreach maxAge clock s) as Hi.
  destruct (Range_item _ _ _ _ _) as [s1 []| |s1]; [| done | done].
  specialize (Hi s1 eq_refl).
  pose proof (stable_entries _ _ Hi e He) as He1.
  destruct (_ =? canceled).
  - intros; simplify_eq. cbn [rs_chan on_chan]. by apply cursor_park.
  - apply IH. cbn [rs_chan on_chan].
    eapply stable_entries; [apply stable_upd_entry | done].
Qed.

Lemma Range_wait_parked fuel e foreach clock k s s' :
  (e < length (entry (endpoints (rs_chan s))))%nat ->
  Range_wait zero fuel e foreach clock k s = Ret s' None ->
  cursor (the_ep (rs_chan s') e) = parked.
Proof.
  revert k s. induction fuel as [|fuel IH]; intros k s He; cbn [Range_wait];
    [done|].
  destruct (_ =? k); [|done].
  pose proof (Range_idle_rel stable stable_refl e (stable_upd_entry e)
                foreach clock s) as Hi.
  pose proof (Range_idle_parked e foreach clock s) as Hp.
  destruct (Range_idle _ _ _ _ _) as [s1 []| |s1]; [| | done | done].
  - specialize (Hi s1 eq_refl).
    pose proof (Range_commitData_rel stable stable_commitData s1) as Hc.
    destruct (Range_commitData s1) as [s2 k2| |s2]; [| done | done].
    apply IH. eapply stable_entries; [by apply Hc|].
    by eapply stable_entries.
  - intros; simplify_eq. by apply Hp.
Qed.

Lemma Range_loop_parked fuel e foreach maxAge clock s s' :
  (e < length (entry (endpoints (rs_chan s))))%nat ->
  Range_loop zero fuel e foreach maxAge clock s = Ret s' tt ->
  cursor (the_ep (rs_chan s') e) = parked.
Proof.
  revert s. induction fuel as [|fuel IH]; intros s He; [done|].
  cbn [Range_loop].
  pose proof (Range_commitData_rel stable stable_commitData s) as Hc.
  destruct (Range_commitData s) as [s1 k1| |s1]; [| done | done].
  pose proof (stable_entries _ _ (Hc s1 eq_refl) e He) as He1.
  pose proof (Range_wait_rel stable stable_refl stable_trans e
                stable_commitData (stable_upd_entry e)
                (S fuel) foreach clock k1 s1) as Hw.
  pose proof (fun s' => Range_wait_parked (S fuel) e foreach clock k1 s1 s' He1)
    as Hwp.
  destruct (Range_wait _ _ _ _ _ _ _) as [s2 [k2|]| |s2]; [| | done | done].
  2: { intros; simplify_eq. by apply Hwp. }
  pose proof (stable_entries _ _ (Hw s2 eq_refl) e He1) as He2.
  pose proof (Range_process_rel stable stable_refl stable_trans e
                (stable_upd_entry e) (S fuel) foreach maxAge clock k2 s2)
    as Hp.
  pose proof (fun s' => Range_process_parked (S fuel) e foreach maxAge clock
                          k2 s2 s' He2) as Hpp.
  destruct (Range_process _ _ _ _ _ _ _) as [s3 []| |s3]; [| | done | done].
  2: { intros; simplify_eq. by apply Hpp. }
  pose proof (stable_entries _ _ (Hp s3 eq_refl) e He2) as He3.
  apply IH. cbn [rs_chan tick on_chan].
  eapply stable_entries; [apply stable_upd_entry | done].
Qed.

(** X8: whenever [Range] returns, the cursor of its endpoint is parked:
    the record is out of the window and free for [NewEndpoint]. *)
Theorem Range_returns_parked fuel c e foreach maxAge clock s :
  Range zero fuel c e foreach maxAge clock = Ret s tt ->
  cursor (the_ep (rs_chan s) e) = parked.
Proof.
  unfold Range. destruct (_ !! e) as [ep|] eqn:Hep; [|done].
  destruct (chanRef ep); [|done].
  apply Range_loop_parked. cbn [rs_chan].
  eapply stable_entries; [apply stable_upd_entry|].
  by eapply lookup_lt_Some.
Qed.

(** ** The processing loop of Range *)

Lemma the_ep_lookup c e ep :
  entry (endpoints c) !! e = Some ep -> the_ep c e = ep.
Proof. intros H. unfold the_ep. by rewrite H. Qed.

Lemma Range_item_emits e foreach clock s ep item :
  entry (endpoints (rs_chan s)) !! e = Some ep ->
  buffer (rs_chan s) !! slot (rs_chan s) (cursor ep) = Some item ->
  Range_item e foreach 0 clock s =
    if foreach (rs_calls s) (item, None, false)
    then Ret (record_call (item, None, false) s) tt
    else Ret (on_chan (upd_entry e (set_endpointState canceled))
                (record_call (item, None, false) s)) tt.
Proof.
  intros He Hb. unfold Range_item. rewrite (the_ep_lookup _ _ _ He), Hb.
  reflexivity.
Qed.

(** X9: an endpoint that is canceled while a value is pending, by
    [Cancel] before the iteration or by its callback returning [false],
    gets exactly that value, then its cursor is parked and [Range]
    returns. *)
Theorem Range_process_cancel fuel e foreach clock k s ep item :
  entry (endpoints (rs_chan s)) !! e = Some ep ->
  cursor ep <> k ->
  buffer (rs_chan s) !! slot (rs_chan s) (cursor ep) = Some item ->
  endpointState ep = canceled \/
    foreach (rs_calls s) (item, None, false) = false ->
  exists s',
    Range_process (S fuel) e foreach 0 clock k s = Ret s' false /\
    rs_calls s' = rs_calls s ++ [(item, None, false)] /\
    cursor (the_ep (rs_chan s') e) = parked /\
    endpointState (the_ep (rs_chan s') e) = canceled.
Proof.
  intros He Hk Hb Hc. cbn [Range_process].
  rewrite (the_ep_lookup _ _ _ He).
  destruct (Z.eqb_spec (cursor ep) k); [done|].
  rewrite (Range_item_emits e foreach clock s ep item He Hb).
  destruct (foreach _ _) eqn:Hf.
  - destruct Hc as [Hc|]; [|done].
    cbn [rs_chan record_call]. rewrite (the_ep_lookup _ _ _ He), Hc.
    change (canceled =? canceled) with true. cbv iota.
    eexists. split; [reflexivity|]. cbn [rs_calls rs_chan on_chan record_call].
    split; [done|]. unfold park.
    rewrite (the_ep_upd_entry _ _ _ _ He). by cbn.
  - cbn [rs_chan record_call on_chan].
    rewrite (the_ep_upd_entry _ _ _ _ He). cbn [endpointState set_endpointState].
    change (canceled =? canceled) with true. cbv iota.
    eexists. split; [reflexivity|]. cbn [rs_calls rs_chan on_chan record_call].
    split; [done|]. unfold park.
    assert (entry (endpoints (upd_entry e (set_endpointState canceled)
                                (rs_chan s))) !! e
            = Some (set_endpointState canceled ep)) as He'.
    { cbn. by rewrite list_lookup_alter_eq, He. }
    rewrite (the_ep_upd_entry _ _ _ _ He'). by cbn.
Qed.

Lemma pending_ext c c' k n :
  buffer c' = buffer c -> mod_ c' = mod_ c -> pending c' k n = pending c k n.
Proof.
  intros Hb Hm. revert k. induction n as [|n IH]; intros k; [done|].
  cbn [pending]. unfold slot. rewrite Hb, Hm.
  destruct (buffer c !! _); [|done]. by rewrite IH.
Qed.

Lemma Range_process_all n fuel e foreach clock s ep :
  (n < fuel)%nat ->
  entry (endpoints (rs_chan s)) !! e = Some ep ->
  endpointState ep <> canceled ->
  (forall h k, foreach h k = true) ->
  0 <= cursor ep -> cursor ep + Z.of_nat n < 2 ^ 64 ->
  (forall x, (slot (rs_chan s) x < length (buffer (rs_chan s)))%nat) ->
  exists s',
    Range_process fuel e foreach 0 clock (cursor ep + Z.of_nat n) s
      = Ret s' true /\
    rs_calls s' = rs_calls s ++ pending (rs_chan s) (cursor ep) n /\
    length (pending (rs_chan s) (cursor ep) n) = n /\
    cursor (the_ep (rs_chan s') e) = cursor ep + Z.of_nat n.
Proof.
  intros Hfuel He Hs Hf. revert fuel s ep Hfuel He Hs.
  induction n as [|n IH]; intros fuel s ep Hfuel He Hs H0 Hmax Hin;
    (destruct fuel as [|fuel]; [lia|]); cbn [Range_process];
    rewrite (the_ep_lookup _ _ _ He).
  - rewrite Z.add_0_r, Z.eqb_refl. exists s.
    rewrite (the_ep_lookup _ _ _ He), app_nil_r. by cbn.
  - destruct (Z.eqb_spec (cursor ep) (cursor ep + Z.of_nat (S n))); [lia|].
    destruct (lookup_lt_is_Some_2 _ _ (Hin (cursor ep))) as [item Hb].
    rewrite (Range_item_emits e foreach clock s ep item He Hb), Hf.
    cbn [rs_chan record_call]. rewrite (the_ep_lookup _ _ _ He).
    destruct (Z.eqb_spec (endpointState ep) canceled); [done|].
    set (s2 := on_chan _ _).
    assert (entry (endpoints (rs_chan s2)) !! e
            = Some (set_cursor (cursor ep + 1) ep)) as He2.
    { cbn. rewrite list_lookup_alter_eq, He. cbn.
      by rewrite u64_small by lia. }
    destruct (IH fuel s2 _ ltac:(lia) He2 Hs) as (s' & Hr & Hc & Hl & Hcur);
      [cbn; lia | cbn; lia | exact Hin |].
    cbn [cursor set_cursor] in Hr, Hc, Hl, Hcur.
    replace (cursor ep + 1 + Z.of_nat n) with (cursor ep + Z.of_nat (S n))
      in Hr, Hcur by lia.
    exists s'. split; [exact Hr|]. cbn [pending]. rewrite Hb.
    rewrite (pending_ext (rs_chan s) (rs_chan s2)) in Hc, Hl by done.
    split_and!; [| by cbn; rewrite Hl | done].
    rewrite Hc. cbn. by rewrite <- app_assoc.
Qed.

(** X10: for an endpoint that is not canceled, with [maxAge = 0] and a
    callback that keeps returning [true], the processing loop, given more
    iterations than the [n] slots between [cursor] and
    [commit = cursor + n] (no counter wraps, every slot is within the
    buffer), delivers the slots of the counters from [cursor] up to
    [commit], one call each and in this order, and leaves the cursor at
    [commit]. *)
Theorem Range_process_delivers n fuel e foreach clock s ep :
  (n < fuel)%nat ->
  entry (endpoints (rs_chan s)) !! e = Some ep ->
  endpointState ep <> canceled ->
  (forall h k, foreach h k = true) ->
  0 <= cursor ep -> cursor ep + Z.of_nat n < 2 ^ 64 ->
  (forall x, (slot (rs_chan s) x < length (buffer (rs_chan s)))%nat) ->
  exists s',
    Range_process fuel e foreach 0 clock (cursor ep + Z.of_nat n) s
      = Ret s' true /\
    rs_calls s' = rs_calls s ++ pending (rs_chan s) (cursor ep) n /\
    length (pending (rs_chan s) (cursor ep) n) = n /\
    cursor (the_ep (rs_chan s') e) = cursor ep + Z.of_nat n.
Proof. apply Range_process_all. Qed.

(** ** Cancel and Close *)

Lemma set_entry_id c : set_entry (entry (endpoints c)) c = c.
Proof. by destruct c as [? ? ? ? ? [] ? ? ? ? ? ?]. Qed.

Lemma alter_same {A} (f : A -> A) (l : list A) i :
  (forall x, l !! i = Some x -> f x = x) -> alter f i l = l.
Proof.
  intros H. apply list_eq. intros j. destruct (decide (i = j)) as [<-|].
  - rewrite list_lookup_alter_eq. destruct (l !! i) eqn:Hl; [|done].
    cbn. by rewrite H.
  - by rewrite list_lookup_alter_ne.
Qed.

Lemma Cancel_not_active c e :
  (forall ep, entry (endpoints c) !! e = Some ep ->
              endpointState ep <> active) ->
  Cancel c e = c.
Proof.
  intros H. unfold Cancel, upd_entry. rewrite alter_same; [apply set_entry_id|].
  intros ep Hep. specialize (H ep Hep).
  by destruct (Z.eqb_spec (endpointState ep) active).
Qed.

(** [Cancel] changes the state of its endpoint from active to
    canceled and nothing else; on an endpoint that is canceled or closed
    it changes nothing, so a second [Cancel] has no effect. *)
Lemma Cancel_idempotent c e :
  Cancel (Cancel c e) e = Cancel c e /\
  (forall ep, entry (endpoints c) !! e = Some ep ->
     entry (endpoints (Cancel c e)) !! e =
       Some (if endpointState ep =? active
             then set_endpointState canceled ep else ep)) /\
  (forall j, j <> e ->
     entry (endpoints (Cancel c e)) !! j = entry (endpoints c) !! j) /\
  (forall ep, entry (endpoints c) !! e = Some ep ->
     endpointState ep <> active -> Cancel c e = c).
Proof.
  split_and!.
  - apply Cancel_not_active. intros ep. cbn.
    rewrite list_lookup_alter_eq.
    destruct (entry (endpoints c) !! e) as [ep0|]; [|done]. cbn.
    intros; simplify_eq.
    by destruct (Z.eqb_spec (endpointState ep0) active).
  - intros ep Hep. cbn. by rewrite list_lookup_alter_eq, Hep.
  - intros j Hj. cbn. by rewrite list_lookup_alter_ne.
  - intros ep Hep Hna. apply Cancel_not_active. intros; by simplify_eq.
Qed.

Lemma Close_active c e c' :
  channelState c = active -> Close c e = Ret c' tt ->
  endpointsActivity (endpoints c) = idling /\
  (Z.to_nat (len (endpoints c)) <= length (entry (endpoints c)))%nat /\
  c' = set_entry ((close_endpoint <$> live (endpoints c))
                  ++ drop (Z.to_nat (len (endpoints c)))
                       (entry (endpoints c)))
         (set_err e (set_channelState closed c)).
Proof.
  intros Hs. unfold Close, Access. rewrite Hs.
  change (active =? active) with true. cbv iota.
  cbn [endpointsActivity endpoints set_err set_channelState].
  destruct (Z.eqb_spec (endpointsActivity (endpoints c)) idling) as [Ha|];
    [|done].
  destruct (entries_in_range _) eqn:Hr; [|done]. intros; simplify_eq.
  split; [done|]. split.
  - unfold entries_in_range in Hr. cbn in Hr. apply Z.leb_le in Hr. lia.
  - destruct c as [? ? ? ? ? [] ? ? ? ? ? ?]. cbn in *. by subst.
Qed.

Lemma live_after_Close c e c' :
  channelState c = active -> Close c e = Ret c' tt ->
  live (endpoints c') = close_endpoint <$> live (endpoints c).
Proof.
  intros Hs Hc. destruct (Close_active c e c' Hs Hc) as (_ & Hle & ->).
  unfold live. cbn.
  rewrite take_app_length'; [done|].
  rewrite length_fmap, length_take. lia.
Qed.

(** X11: [Close] on an active channel turns every active endpoint among
    [entry[0..len)] to closed, leaves the canceled ones canceled, and
    touches neither a cursor nor a counter nor the buffer. *)
Theorem Close_marks_endpoints c e c' :
  channelState c = active -> Close c e = Ret c' tt ->
  (forall i ep, live (endpoints c) !! i = Some ep ->
     live (endpoints c') !! i =
       Some (if endpointState ep =? active
             then set_endpointState closed ep else ep)) /\
  channelState c' = closed /\ err c' = e /\
  begin c' = begin c /\ end_ c' = end_ c /\ commit c' = commit c /\
  write c' = write c /\ buffer c' = buffer c /\ written c' = written c /\
  len (endpoints c') = len (endpoints c).
Proof.
  intros Hs Hc. split.
  - intros i ep Hep. rewrite (live_after_Close c e c' Hs Hc).
    by rewrite list_lookup_fmap, Hep.
  - by destruct (Close_active c e c' Hs Hc) as (_ & _ & ->).
Qed.

(** X12: after [Close], [Cancel] on an endpoint among [entry[0..len)]
    changes nothing: the endpoint keeps the state in which it will be
    told of the close. *)
Theorem Cancel_after_Close c e c' i :
  channelState c = active -> Close c e = Ret c' tt ->
  (i < length (live (endpoints c)))%nat ->
  Cancel c' i = c'.
Proof.
  intros Hs Hc Hi. apply Cancel_not_active. intros ep' Hep'.
  assert (live (endpoints c') !! i = Some ep') as Hl.
  { unfold live. apply lookup_take_Some. split; [done|].
    destruct (Close_active c e c' Hs Hc) as (_ & _ & ->). cbn.
    unfold live in Hi. rewrite length_take in Hi. lia. }
  rewrite (live_after_Close c e c' Hs Hc), list_lookup_fmap in Hl.
  destruct (live (endpoints c) !! i) as [ep|]; [|done]. cbn in Hl.
  simplify_eq. unfold close_endpoint.
  by destruct (Z.eqb_spec (endpointState ep) active).
Qed.

(** ** Producers on a full buffer *)

Lemma slideBuffer_stuck c :
  endpointsActivity (endpoints c) = idling ->
  entries_in_range c = true ->
  ~ begin c < slowest c <= end_ c ->
  slideBuffer c = Ret c (channelState c =? active).
Proof.
  intros Ha Hr Hn.
  destruct (slideBuffer_total c Ha Hr) as (c' & more & Hs). rewrite Hs.
  by apply slideBuffer_Ret in Hs as (_ & _ & [(? & _)|(_ & -> & ->)]).
Qed.

Lemma FastSend_full_stuck_active fuel c :
  endpointsActivity (endpoints c) = idling ->
  entries_in_range c = true ->
  ~ begin c < slowest c <= end_ c ->
  commit c = end_ c -> channelState c = active ->
  FastSend_full fuel c = Susp c.
Proof.
  intros Ha Hr Hn Hfull Hs. induction fuel as [|fuel IH]; [done|].
  cbn [FastSend_full]. rewrite Hfull, Z.eqb_refl.
  rewrite slideBuffer_stuck, Hs by done.
  change (active =? active) with true. cbv iota. exact IH.
Qed.

(** X13: on a full buffer whose window cannot slide (no cursor strictly
    inside it), [FastSend] on an active channel does not return, whatever
    the number of attempts, and changes nothing; once the channel is
    closed, [FastSend] returns at the first attempt and drops the
    value. *)
Theorem FastSend_full_buffer c v :
  endpointsActivity (endpoints c) = idling ->
  entries_in_range c = true ->
  ~ begin c < slowest c <= end_ c ->
  commit c = end_ c ->
  (channelState c = active -> forall fuel, FastSend fuel c v = Susp c) /\
  (channelState c <> active ->
   forall fuel, FastSend (S fuel) c v = Ret c tt).
Proof.
  intros Ha Hr Hn Hfull. split.
  - intros Hs fuel. unfold FastSend.
    by rewrite FastSend_full_stuck_active.
  - intros Hs fuel. unfold FastSend. cbn [FastSend_full].
    rewrite Hfull, Z.eqb_refl, slideBuffer_stuck by done.
    by destruct (Z.eqb_spec (channelState c) active).
Qed.

(** With no endpoint in the window (every cursor parked), the window
    cannot slide. *)
Lemma slowest_all_parked c :
  Forall (fun ep => cursor ep = parked) (live (endpoints c)) ->
  slowest c = parked.
Proof.
  intros H. destruct (slowest_spec c) as (_ & _ & [?|(ep & Hin & <-)]);
    [done|].
  rewrite Forall_forall in H. by apply H.
Qed.

(** ** NewEndpoint *)

(** X14: [NewEndpoint] fails with [ErrOutOfEndpoints] and with no other
    error, exactly when [len] has reached the size of the table and no
    cursor among [entry[0..len)] is parked; the table is then left as it
    was. *)
Theorem NewEndpoint_error c keep now c' r :
  NewEndpoint c keep now = Ret c' r ->
  (r = inr ErrOutOfEndpoints <->
   len (endpoints c) = Z.of_nat (length (entry (endpoints c))) /\
   Forall (fun ep => cursor ep <> parked) (live (endpoints c))) /\
  (forall err, r = inr err ->
               err = ErrOutOfEndpoints /\ endpoints c' = endpoints c).
Proof.
  intros H. unfold NewEndpoint in H.
  assert (endpointsActivity (endpoints c) = idling) as Ha.
  { unfold NewForChanFoo in H.
    by destruct (Z.eqb_spec (endpointsActivity (endpoints c)) idling). }
  apply NewForChanFoo_Ret in H as (c1 & k & Hc & H).
  assert (leaves (commitData (set_endpointsActivity creating c)) c1) as Hl
    by (by rewrite Hc).
  apply commitData_fields in Hl as (He & _). cbn in He, H.
  rewrite He in H. unfold live in *. cbn in H.
  destruct H as [(Hfull & [(i & ep & Hf & -> & ->)|(Hf & -> & ->)])
                |(Hne & _ & -> & ->)].
  - split; [|done]. split; [done|]. intros [_ Hall].
    apply list_find_Some in Hf as (Hi & Hp & _).
    rewrite Forall_lookup in Hall. by destruct (Hall i ep Hi).
  - apply list_find_None in Hf. split; [done|].
    intros err0 ?; simplify_eq. split; [done|]. cbn. rewrite He.
    destruct (endpoints c); cbn in *. by subst.
  - split; [|done]. split; [done|]. by intros [? _].
Qed.

(** ** What the producers write *)

Lemma Send_full_frame fuel c w c' :
  leaves (Send_full fuel c w) c' ->
  write c' = write c /\ commit c' = commit c /\
  buffer c' = buffer c /\ written c' = written c.
Proof.
  revert c. induction fuel as [|fuel IH]; intros c; cbn [Send_full].
  { by intros <-. }
  destruct (_ <=? _); [|by intros <-].
  destruct (slideBuffer c) as [c1 []| |c1] eqn:Hs; cbn [leaves];
    [| | done |].
  - intros H. apply IH in H.
    by apply slideBuffer_Ret in Hs as (_ & _ & [(_ & -> & _)|(_ & -> & _)]).
  - intros <-.
    by apply slideBuffer_Ret in Hs as (_ & _ & [(_ & -> & _)|(_ & -> & _)]).
  - intros <-. by apply slideBuffer_Susp in Hs as ->.
Qed.

Lemma FastSend_full_frame fuel c c' :
  leaves (FastSend_full fuel c) c' ->
  write c' = write c /\ commit c' = commit c /\
  buffer c' = buffer c /\ written c' = written c.
Proof.
  revert c. induction fuel as [|fuel IH]; intros c; cbn [FastSend_full].
  { by intros <-. }
  destruct (_ =? _); [|by intros <-].
  destruct (slideBuffer c) as [c1 []| |c1] eqn:Hs; cbn [leaves];
    [| | done |].
  - intros H. apply IH in H.
    by apply slideBuffer_Ret in Hs as (_ & _ & [(_ & -> & _)|(_ & -> & _)]).
  - intros <-.
    by apply slideBuffer_Ret in Hs as (_ & _ & [(_ & -> & _)|(_ & -> & _)]).
  - intros <-. by apply slideBuffer_Susp in Hs as ->.
Qed.

(** X15: [Send] takes exactly one index and never moves [commit], also
    when it gives up on a closed channel or is suspended on a full
    buffer. *)
Theorem Send_reserves_one fuel c v now c' :
  leaves (Send fuel c v now) c' ->
  write c' = u64 (write c + 1) /\ commit c' = commit c.
Proof.
  unfold Send.
  pose proof (Send_full_frame fuel (set_write (u64 (write c + 1)) c)
                (write c)) as Hf.
  destruct (Send_full _ _ _) as [c1 []| |c1]; cbn [leaves] in *;
    [| | done |]; try (intros <-; by destruct (Hf c1 eq_refl) as (? & ? & _)).
  destruct (Hf c1 eq_refl) as (Hw & Hc & _). cbn in Hw, Hc.
  pose proof (store_buffer_frame c1 (slot c1 (write c)) v) as Hb.
  destruct (store_buffer _ _ _) as [c2 []| |c2]; cbn [leaves] in *;
    [| done |]; destruct (Hb c2 eq_refl) as [b ->].
  - destruct (_ =? 0); [done|]. destruct (decide _); cbn [leaves]; [|done].
    by intros <-.
  - by intros <-.
Qed.

(** X16: [FastSend] touches neither [write] nor the markers: the slots it
    fills carry no time. *)
Theorem FastSend_untimed fuel c v c' :
  leaves (FastSend fuel c v) c' ->
  write c' = write c /\ written c' = written c.
Proof.
  unfold FastSend. pose proof (FastSend_full_frame fuel c) as Hf.
  destruct (FastSend_full fuel c) as [c1 []| |c1]; cbn [leaves] in *;
    [| | done |];
    try (intros <-; by destruct (Hf c1 eq_refl) as (? & _ & _ & ?)).
  destruct (Hf c1 eq_refl) as (Hw & _ & _ & Hm).
  pose proof (store_buffer_frame c1 (slot c1 (commit c1)) v) as Hb.
  destruct (store_buffer _ _ _) as [c2 []| |c2]; cbn [leaves] in *;
    [| done |]; destruct (Hb c2 eq_refl) as [b ->]; by intros <-.
Qed.

(** ** No index out of range in the producers *)

Lemma sound_stable c c' : sound c -> keeps_quiet c c' -> stable c c' -> sound c'.
Proof.
  intros (Hq & Hm & Hb & Hw) Hk (Hm' & _ & Hb' & Hw' & _).
  unfold sound. rewrite Hm', Hb', Hw'. split_and!; auto.
Qed.

Lemma sound_slideBuffer c :
  sound c -> exists c' more, slideBuffer c = Ret c' more /\ sound c'.
Proof.
  intros Hs. pose proof Hs as ((Ha & _ & Hl) & _).
  destruct (slideBuffer_total c Ha) as (c' & more & Hr).
  { unfold entries_in_range. apply Z.leb_le. lia. }
  exists c', more. split; [done|].
  apply (sound_stable c); [done|..].
  - apply keeps_quiet_slideBuffer. by rewrite Hr.
  - apply stable_slideBuffer. by rewrite Hr.
Qed.

Lemma FastSend_full_sound fuel c :
  sound c -> satisfies (FastSend_full fuel c) (fun c' _ => sound c') sound /\
             forall m, FastSend_full fuel c <> Panic m.
Proof.
  revert c. induction fuel as [|fuel IH]; intros c Hs; cbn [FastSend_full];
    [done|].
  destruct (_ =? _); [|done].
  destruct (sound_slideBuffer c Hs) as (c' & more & -> & Hs').
  destruct more; [by apply IH | done].
Qed.

Lemma Send_full_sound fuel c w :
  sound c -> satisfies (Send_full fuel c w) (fun c' _ => sound c') sound /\
             forall m, Send_full fuel c w <> Panic m.
Proof.
  revert c. induction fuel as [|fuel IH]; intros c Hs; cbn [Send_full];
    [done|].
  destruct (_ <=? _); [|done].
  destruct (sound_slideBuffer c Hs) as (c' & more & -> & Hs').
  destruct more; [by apply IH | done].
Qed.

Lemma store_buffer_sound c x v :
  sound c ->
  store_buffer c (slot c x) v
    = Ret (set_buffer (<[slot c x := v]> (buffer c)) c) tt.
Proof.
  intros (_ & Hm & Hb & _). unfold store_buffer.
  destruct (decide _) as [|Hn]; [done|].
  destruct Hn. by apply slot_lt.
Qed.

Lemma reachable_sound N c :
  reachable zero ceilLog2 N c -> 1 <= N -> sound c.
Proof.
  intros Hr HN. pose proof (reachable_quiet N c Hr) as Hq.
  apply reachable_run in Hr as (b & e & now & c0 & Hnew & -> & Hrun).
  apply NewChanFoo_sizes in Hnew as (Hm & Hb & Hw); [|done].
  apply run_stable in Hrun as (Hm' & _ & Hb' & Hw' & _).
  unfold sound. rewrite Hm', Hb', Hw'. split_and!; auto.
Qed.

(** X17: on a channel made with at least one slot, in every reachable
    state, [FastSend] never panics, and [Send] panics only when the clock
    reads a zero duration since [start]. *)
Theorem senders_do_not_panic N c fuel v now m :
  reachable zero ceilLog2 N c -> 1 <= N ->
  FastSend fuel c v <> Panic m /\
  (Send fuel c v now = Panic m -> since (start c) now = 0).
Proof.
  intros Hr HN. pose proof (reachable_sound N c Hr HN) as Hs. split.
  - unfold FastSend.
    destruct (FastSend_full_sound fuel c Hs) as [Hf Hnp].
    destruct (FastSend_full fuel c) as [c1 []|m1|c1]; [| done | | done].
    + cbn in Hf. by rewrite store_buffer_sound.
    + by destruct (Hnp m1).
  - unfold Send.
    assert (sound (set_write (u64 (write c + 1)) c)) as Hs1 by exact Hs.
    destruct (Send_full_sound fuel _ (write c) Hs1) as [Hf Hnp].
    pose proof (stable_Send_full fuel (set_write (u64 (write c + 1)) c)
                  (write c)) as Hst.
    destruct (Send_full _ _ _) as [c1 []|m1|c1]; [| done | | done].
    + cbn in Hf. destruct (Hst c1 eq_refl) as (_ & Hstart & _).
      cbn in Hstart. rewrite store_buffer_sound by done.
      cbn [start set_buffer]. rewrite Hstart.
      destruct (Z.eqb_spec (since (start c) now) 0) as [H0|]; [done|].
      destruct (decide _) as [|Hn]; [done|].
      destruct Hn. cbn. destruct Hf as (_ & ? & _ & ?). by apply slot_lt.
    + by destruct (Hnp m1).
Qed.

(** ** Round trips *)

Lemma Send_room c v now :
  write c < end_ c -> since (start c) now <> 0 ->
  (slot c (write c) < length (buffer c))%nat ->
  (slot c (write c) < length (written c))%nat ->
  Send 1 c v now =
    Ret (set_written
           (<[slot c (write c) := i64 (Z.shiftl (since (start c) now) 1 + 1)]>
              (written c))
           (set_buffer (<[slot c (write c) := v]> (buffer c))
              (set_write (u64 (write c + 1)) c))) tt.
Proof.
  intros Hw Ht Hb Hm. unfold Send. rewrite Send_full_room by done.
  unfold store_buffer, slot in *. cbn.
  destruct (decide _) as [|[]]; [|done]. cbn.
  destruct (Z.eqb_spec (since (start c) now) 0); [done|].
  by destruct (decide _) as [|[]].
Qed.

Lemma marker_encode u :
  0 < u < 2 ^ 62 ->
  i64 (Z.shiftl u 1 + 1) = 2 * u + 1 /\ Z.land (2 * u + 1) 1 = 1 /\
  i64 (2 * u + 1 - 1) = 2 * u /\ Z.land (2 * u) 1 <> 1 /\
  Z.shiftr (2 * u) 1 = u.
Proof.
  intros Hu. rewrite Z.shiftl_mul_pow2 by lia. change (2 ^ 1) with 2.
  rewrite !i64_small by lia. rewrite !land_1.
  rewrite Z.shiftr_div_pow2 by lia. change (2 ^ 1) with 2.
  split_and!; try lia.
  - replace (2 * u + 1) with (1 + u * 2) by lia.
    by rewrite Z.mod_add by lia.
  - replace (2 * u) with (0 + u * 2) by lia. by rewrite Z.mod_add by lia.
  - replace (2 * u) with (u * 2) by lia. by rewrite Z.div_mul by lia.
Qed.

(** X18: a [Send] on a channel with nothing outstanding is committed by
    the next [commitData]: [commit] moves up by one, the slot holds the
    value, and its marker, shifted right by one, is the time of the
    [Send]; no marker is left published. *)
Theorem Send_commit_roundtrip c v now :
  committerActivity c = resting ->
  commit c = write c -> 0 <= write c -> write c < end_ c ->
  write c + 1 < 2 ^ 64 ->
  0 <= mod_ c ->
  (Z.to_nat (mod_ c) < length (buffer c))%nat ->
  (Z.to_nat (mod_ c) < length (written c))%nat ->
  all_even (written c) ->
  0 < since (start c) now < 2 ^ 62 ->
  exists c1 c2,
    Send 1 c v now = Ret c1 tt /\
    commitData c1 = Ret c2 (write c + 1) /\
    commit c2 = write c + 1 /\
    buffer c2 !! slot c (write c) = Some v /\
    written c2 !! slot c (write c) = Some (2 * since (start c) now) /\
    Z.shiftr (2 * since (start c) now) 1 = since (start c) now /\
    all_even (written c2).
Proof.
  intros Hrest Hcw Hw0 Hroom Hmax Hm Hb Hwn Heven Hu.
  set (u := since (start c) now) in *.
  destruct (marker_encode u Hu) as (Henc & Hodd & Hclr & Hev & Hshr).
  pose proof (slot_lt c (write c) _ Hm Hb) as Hib.
  pose proof (slot_lt c (write c) _ Hm Hwn) as Hiw.
  pose proof (slot_lt c (write c + 1) _ Hm Hwn) as Hiw1.
  set (i := slot c (write c)) in *.
  set (w1 := <[i := 2 * u + 1]> (written c)).
  set (w2 := <[i := 2 * u]> (written c)).
  set (c1 := set_written w1
               (set_buffer (<[i := v]> (buffer c))
                  (set_write (write c + 1) c))).
  set (c2 := set_committerActivity resting
               (set_commit (write c + 1)
                  (set_written w2 (set_committerActivity working c1)))).
  assert (all_even w2) as Hev2.
  { intros j mj. unfold w2. destruct (decide (i = j)) as [<-|Hne].
    - rewrite list_lookup_insert_eq by done. by intros; simplify_eq.
    - rewrite list_lookup_insert_ne by done. apply Heven. }
  assert (commit_walk (S (length w1)) (mod_ c) (end_ c) w1 (write c)
          = Ret w2 (write c + 1)) as Hwalk.
  { assert (exists n, length w1 = S n) as [n Hn].
    { unfold w1. rewrite length_insert. destruct (length (written c)); [lia|].
      eauto. }
    rewrite Hn. cbn [commit_walk]. fold (slot c (write c)). fold i.
    unfold w1 at 1. rewrite list_lookup_insert_eq by done.
    rewrite Hodd. change (1 =? 1) with true. cbv iota.
    destruct (Z.leb_spec (end_ c) (write c)); [lia|].
    rewrite Hclr, (u64_small (write c + 1)) by lia.
    unfold w1. rewrite list_insert_insert_eq. fold w2.
    assert (is_Some (w2 !! slot c (write c + 1))) as [m1 Hm1].
    { apply lookup_lt_is_Some_2. unfold w2. by rewrite length_insert. }
    apply (commit_walk_at_even _ _ _ _ _ m1); [exact Hm1|].
    by eapply Hev2. }
  exists c1, c2. split.
  { rewrite Send_room; [|done | fold u; lia | done..].
    fold u i. by rewrite Henc, (u64_small (write c + 1)) by lia. }
  split.
  { unfold commitData.
    change (write c1) with (write c + 1).
    change (commit c1) with (commit c).
    change (committerActivity c1) with (committerActivity c).
    rewrite Hcw, Hrest.
    destruct (Z.leb_spec (write c + 1) (write c)); [lia|].
    change (negb (resting =? resting)) with false. cbv iota zeta.
    change (written (set_committerActivity working c1)) with w1.
    change (mod_ (set_committerActivity working c1)) with (mod_ c).
    change (end_ (set_committerActivity working c1)) with (end_ c).
    change (commit (set_committerActivity working c1)) with (commit c).
    rewrite Hcw, Hwalk.
    change (write (set_written w2 (set_committerActivity working c1)))
      with (write c + 1).
    rewrite Z.ltb_irrefl.
    destruct (Z.ltb_spec (write c) (write c + 1)); [|lia].
    reflexivity. }
  split; [reflexivity|].
  split; [cbn; by rewrite list_lookup_insert_eq|].
  split; [cbn; unfold w2; by rewrite list_lookup_insert_eq|]. done.
Qed.

Lemma Range_process_one fuel e foreach clock s ep item :
  entry (endpoints (rs_chan s)) !! e = Some ep ->
  0 <= cursor ep -> cursor ep + 1 < 2 ^ 64 ->
  buffer (rs_chan s) !! slot (rs_chan s) (cursor ep) = Some item ->
  exists s',
    Range_process (S (S fuel)) e foreach 0 clock (cursor ep + 1) s
      = Ret s' (negb ((endpointState ep =? canceled)
                      || negb (foreach (rs_calls s) (item, None, false)))) /\
    rs_calls s' = rs_calls s ++ [(item, None, false)] /\
    cursor (the_ep (rs_chan s') e) =
      if (endpointState ep =? canceled)
         || negb (foreach (rs_calls s) (item, None, false))
      then parked else cursor ep + 1.
Proof.
  intros He H0 Hmax Hb. cbn [Range_process].
  rewrite (the_ep_lookup _ _ _ He).
  destruct (Z.eqb_spec (cursor ep) (cursor ep + 1)); [lia|].
  rewrite (Range_item_emits e foreach clock s ep item He Hb).
  assert (entry (endpoints (upd_entry e (set_endpointState canceled)
                              (rs_chan s))) !! e
          = Some (set_endpointState canceled ep)) as Hec.
  { cbn. by rewrite list_lookup_alter_eq, He. }
  destruct (foreach _ _) eqn:Hf.
  - cbn [rs_chan record_call]. rewrite (the_ep_lookup _ _ _ He).
    destruct (Z.eqb_spec (endpointState ep) canceled) as [Hc|Hc];
      cbn [orb negb].
    + eexists. split; [reflexivity|].
      cbn [rs_calls rs_chan on_chan record_call].
      split; [done|]. unfold park.
      rewrite (the_ep_upd_entry _ _ _ _ He). by cbn.
    + cbn [on_chan rs_chan rs_tick rs_calls record_call].
      rewrite (the_ep_upd_entry _ _ _ _ He).
      cbn [cursor set_cursor]. rewrite (u64_small (cursor ep + 1)) by lia.
      rewrite Z.eqb_refl.
      eexists. split; [reflexivity|].
      cbn [rs_calls rs_chan on_chan record_call].
      split; [done|].
      rewrite (the_ep_upd_entry _ _ _ _ He). cbn [cursor set_cursor].
      by rewrite u64_small by lia.
  - rewrite orb_true_r. cbn [negb rs_chan record_call on_chan].
    rewrite (the_ep_upd_entry _ _ _ _ He).
    cbn [endpointState set_endpointState].
    change (canceled =? canceled) with true. cbv iota.
    eexists. split; [reflexivity|].
    cbn [rs_calls rs_chan on_chan record_call].
    split; [done|]. unfold park.
    rewrite (the_ep_upd_entry _ _ _ _ Hec). by cbn.
Qed.

(** X19: a value sent with [FastSend] while there is room
    ([commit != end], [commit + 1] not wrapping, the mask within the
    buffer) is the next value, and the only one, that the processing loop
    of [Range] with [maxAge = 0] hands to the callback of an endpoint
    whose cursor stood at the old [commit], whatever the state of the
    endpoint and the answer of the callback.  When the endpoint is not
    canceled and the callback answers [true], the loop ends with the
    cursor at the new [commit]; otherwise the cursor is parked and [Range]
    returns. *)
Theorem FastSend_delivered c v e ep foreach clock t h fuel :
  commit c <> end_ c -> 0 <= commit c -> commit c + 1 < 2 ^ 64 ->
  0 <= mod_ c -> (Z.to_nat (mod_ c) < length (buffer c))%nat ->
  entry (endpoints c) !! e = Some ep ->
  cursor ep = commit c ->
  exists c' s',
    FastSend 1 c v = Ret c' tt /\ commit c' = commit c + 1 /\
    Range_process (S (S fuel)) e foreach 0 clock (commit c')
      {| rs_chan := c'; rs_tick := t; rs_calls := h |}
      = Ret s' (negb ((endpointState ep =? canceled)
                      || negb (foreach h (v, None, false)))) /\
    rs_calls s' = h ++ [(v, None, false)] /\
    cursor (the_ep (rs_chan s') e) =
      if (endpointState ep =? canceled) || negb (foreach h (v, None, false))
      then parked else commit c'.
Proof.
  intros Hroom Hc0 Hmax Hm Hb He Hcur.
  pose proof (slot_lt c (commit c) _ Hm Hb) as Hi.
  set (c' := set_commit (u64 (commit c + 1))
               (set_buffer (<[slot c (commit c) := v]> (buffer c)) c)).
  assert (FastSend 1 c v = Ret c' tt) as HF.
  { unfold FastSend. cbn [FastSend_full].
    destruct (Z.eqb_spec (commit c) (end_ c)); [done|].
    unfold store_buffer. by destruct (decide _) as [|[]]. }
  assert (commit c' = commit c + 1) as Hc'
    by (cbn; by rewrite u64_small by lia).
  destruct (Range_process_one fuel e foreach clock
              {| rs_chan := c'; rs_tick := t; rs_calls := h |} ep v)
    as (s' & Hr & Hcalls & Hcs); [done | lia | lia | |].
  { cbn [rs_chan]. rewrite Hcur.
    change (slot c' (commit c)) with (slot c (commit c)).
    change (buffer c') with (<[slot c (commit c) := v]> (buffer c)).
    by rewrite list_lookup_insert_eq. }
  exists c', s'. cbn [rs_calls] in Hr, Hcalls, Hcs.
  rewrite Hc', <- Hcur. by split_and!.
Qed.

(** ** The close notification *)




End Further.
(** * Concrete runs *)

(** The concrete channels are the states of these runs. *)
Lemma concrete_runs :
  NewChanFoo 0 Z.log2_up 1 1 1000 = Ret chanOne tt /\
  FastSend 1 chanOne 11 = Ret chanOneSent tt /\
  NewEndpoint chanOne 0 2000 = Ret chanOneEp (inl 0%nat) /\
  NewChanFoo 0 Z.log2_up 16 1 1000 = Ret chan16Fresh tt /\
  (let c1 := state_after chan16Fresh (FastSend 1 chan16Fresh 11) in
   let c2 := state_after c1 (FastSend 1 c1 12) in
   FastSend 1 c2 13 = Ret chan16Sent tt) /\
  NewEndpoint chan16Sent 1 2000 = Ret chan16 (inl 0%nat) /\
  slideBuffer chan16 = Ret chan16Slid true /\
  Close chanOneEp (Some "bye"%string) = Ret chanClosed tt /\
  Send 1 chanClosed 7 3000 = Ret chanClosedFull tt /\
  Send 1 chanClosedFull 8 4000 = Ret chanClosedOver tt /\
  Cancel chanOneEp 0 = chanCanceled.
Proof.
  split_and!; vm_compute; reflexivity.
Qed.

(** C1, counterexample: one [FastSend] on a new channel leaves
    [commit = 1] above [write = 0]; and a [Send] that finds a closed
    channel full leaves [write = 2] above [end = 1]. *)
Lemma C1_counterexample :
  (reachable_bounded 0 Z.log2_up true chanOneSent /\
   commit chanOneSent = 1 /\ write chanOneSent = 0 /\
   ~ chain_spec chanOneSent) /\
  (reachable_bounded 0 Z.log2_up false chanClosedOver /\
   write chanClosedOver = 2 /\ end_ chanClosedOver = 1 /\
   ~ chain_spec chanClosedOver).
Proof.
  assert (reachable_bounded 0 Z.log2_up false chanOne) as H1.
  { apply (reachable_bounded_new 0 Z.log2_up 1 1 1000);
      [vm_compute; reflexivity | by vm_compute]. }
  split.
  - split_and!; [| reflexivity | reflexivity |].
    + apply (reachable_bounded_step 0 Z.log2_up false (OpFastSend 1 11)
               chanOne); [done | by vm_compute | done |].
      vm_compute. reflexivity.
    + intros (_ & Hcw & _). vm_compute in Hcw. by apply Hcw.
  - split_and!; [| reflexivity | reflexivity |].
    + apply (reachable_bounded_step 0 Z.log2_up false (OpSend 1 8 4000)
               chanClosedFull); [| by vm_compute | done |
                                 vm_compute; reflexivity].
      apply (reachable_bounded_step 0 Z.log2_up false (OpSend 1 7 3000)
               chanClosed); [| by vm_compute | done |
                             vm_compute; reflexivity].
      apply (reachable_bounded_step 0 Z.log2_up false
               (OpClose (Some "bye"%string)) chanOneEp);
        [| by vm_compute | done | vm_compute; reflexivity].
      apply (reachable_bounded_step 0 Z.log2_up false (OpNewEndpoint 0 2000)
               chanOne); [done | by vm_compute | | vm_compute; reflexivity].
      cbn. lia.
    + intros (_ & _ & Hwe). vm_compute in Hwe. by apply Hwe.
Qed.

Lemma C1_counter_chain_witness :
  reachable_bounded 0 Z.log2_up false chanClosedFull /\
  chain chanClosedFull /\ commit chanClosedFull <= write chanClosedFull.
Proof.
  assert (reachable_bounded 0 Z.log2_up false chanClosedFull) as Hr.
  { apply (reachable_bounded_step 0 Z.log2_up false (OpSend 1 7 3000)
             chanClosed); [| by vm_compute | done | vm_compute; reflexivity].
    apply (reachable_bounded_step 0 Z.log2_up false
             (OpClose (Some "bye"%string)) chanOneEp);
      [| by vm_compute | done | vm_compute; reflexivity].
    apply (reachable_bounded_step 0 Z.log2_up false (OpNewEndpoint 0 2000)
             chanOne); [| by vm_compute | cbn; lia | vm_compute; reflexivity].
    apply (reachable_bounded_new 0 Z.log2_up 1 1 1000);
      [vm_compute; reflexivity | by vm_compute]. }
  split; [exact Hr|].
  destruct (C1_counter_chain 0 Z.log2_up false chanClosedFull Hr) as [Hc Hw].
  split; [exact Hc | exact (Hw eq_refl)].
Defined.

(** C2 at integers: one slot, one endpoint record. *)
Lemma C2_cancel_then_NewEndpoint_witness :
  (NewChanFoo 0 Z.log2_up 1 1 1000 = Ret chanOne tt /\ 0 <= 0) /\
  exists c2, NewEndpoint chanCanceled 0 3000 = Ret c2 (inr ErrOutOfEndpoints).
Proof.
  assert (NewChanFoo 0 Z.log2_up 1 1 1000 = Ret chanOne tt) as Hn
    by (vm_compute; reflexivity).
  split; [split; [exact Hn | lia]|].
  destruct (C2_cancel_then_NewEndpoint 0 Z.log2_up 1 1000 0 2000 0 3000
              chanOne Hn (Z.le_refl 0))
    as (c1 & c2 & H1 & _ & _ & H2).
  exists c2. vm_compute in H1. injection H1 as <-. exact H2.
Defined.

(** C3, counterexample: the channel is closed and its only slot is free;
    [Send] stores the value and the marker of the slot. *)
Lemma C3_counterexample :
  channelState chanClosed = closed /\
  exists c', Send 1 chanClosed 7 3000 = Ret c' tt /\
             buffer chanClosed = [0] /\ buffer c' = [7] /\
             written chanClosed = [0] /\ written c' = [4001].
Proof.
  split; [reflexivity|]. exists chanClosedFull.
  split; [vm_compute; reflexivity|]. done.
Qed.

(** C3, a run with a slide: the channel is closed after its endpoint has
    read the only value; [Send] finds no room, slides the window past the
    slot that was read, and stores its value there. *)
Lemma C3_slide_run :
  channelState chanReadClosed = closed /\
  (begin chanReadClosed, end_ chanReadClosed, write chanReadClosed,
   slowest chanReadClosed) = (0, 1, 1, 1) /\
  buffer chanReadClosed = [101] /\ written chanReadClosed = [4000] /\
  Send 2 chanReadClosed 102 5000 = Ret chanReadClosedSent tt /\
  (begin chanReadClosedSent, end_ chanReadClosedSent) = (1, 2) /\
  buffer chanReadClosedSent = [102] /\ written chanReadClosedSent = [8001].
Proof. split_and!; vm_compute; reflexivity. Qed.

(** C3 at the channel of [C3_slide_run]. *)
Lemma C3_Send_closed_witness :
  (channelState chanReadClosed = closed /\
   endpointsActivity (endpoints chanReadClosed) = idling /\
   entries_in_range chanReadClosed = true /\
   0 <= begin chanReadClosed /\
   (slot chanReadClosed (write chanReadClosed)
    < length (buffer chanReadClosed))%nat /\
   (slot chanReadClosed (write chanReadClosed)
    < length (written chanReadClosed))%nat) /\
  exists c1,
    Send 2 chanReadClosed 102 5000 =
      Ret (set_written (<[0%nat := 8001]> (written chanReadClosed))
             (set_buffer (<[0%nat := 102]> (buffer chanReadClosed)) c1)) tt /\
    write chanReadClosed < end_ c1.
Proof.
  assert (0 <= begin chanReadClosed) as Hb by (by vm_compute).
  assert (slot chanReadClosed (write chanReadClosed)
          < length (buffer chanReadClosed))%nat as Hib by (vm_compute; lia).
  assert (slot chanReadClosed (write chanReadClosed)
          < length (written chanReadClosed))%nat as Hiw by (vm_compute; lia).
  split; [by split_and!|].
  destruct (C3_Send_closed chanReadClosed 102 5000 eq_refl eq_refl eq_refl
              Hb Hib Hiw) as (c1 & stored & Hrun & Hfr & Ht & _).
  assert (slides_left chanReadClosed < 2)%nat as Hfuel by (vm_compute; lia).
  specialize (Hrun 2%nat Hfuel).
  assert (Send 2 chanReadClosed 102 5000 = Ret chanReadClosedSent tt) as Hs
    by (vm_compute; reflexivity).
  exists c1. destruct stored.
  - split; [exact Hrun | by apply Ht].
  - rewrite Hs in Hrun. injection Hrun as <-.
    apply (f_equal buffer) in Hfr. vm_compute in Hfr. discriminate Hfr.
Defined.

(** C4, counterexample: with sixteen slots, [begin = 0], [end = 16] and
    the only cursor at [2], the claim asks for [begin = 2] and [end = 18]
    ([N = 16] is not below [16]); [slideBuffer] advances both by one. *)
Lemma C4_counterexample :
  mod_ chan16 + 1 = 16 /\
  begin chan16 < slowest chan16 <= end_ chan16 /\
  slide_spec chan16 = (2, 18) /\
  exists c', slideBuffer chan16 = Ret c' true /\
             (begin c', end_ c') = (1, 17) /\
             (begin c', end_ c') <> slide_spec chan16.
Proof.
  split; [reflexivity|]. split; [by vm_compute|].
  split; [vm_compute; reflexivity|].
  exists chan16Slid. split; [vm_compute; reflexivity|].
  split; [reflexivity|]. by vm_compute.
Qed.

Lemma C4_slideBuffer_branches_witness :
  (endpointsActivity (endpoints chan16) = idling /\
   entries_in_range chan16 = true /\
   begin chan16 < slowest chan16 <= end_ chan16) /\
  exists c', slideBuffer chan16 = Ret c' true /\
             begin c' = 1 /\ end_ c' = 17.
Proof.
  assert (begin chan16 < slowest chan16 <= end_ chan16) as Hs
    by (by vm_compute).
  split; [by split_and!|].
  destruct (C4_slideBuffer_branches chan16 eq_refl eq_refl Hs)
    as (c' & more & Hr & Hsmall & _).
  vm_compute in Hr. injection Hr as <- <-.
  exists chan16Slid. split; [vm_compute; reflexivity|].
  destruct Hsmall as [Hb He]; [by vm_compute|]. done.
Defined.

Lemma C6_NewEndpoint_cursor_witness :
  (0 <= begin chan16Sent < 2 ^ 64 /\
   NewEndpoint chan16Sent 1 2000 = Ret chan16 (inl 0%nat)) /\
  cursor (the_ep chan16 0) = 2.
Proof.
  assert (0 <= begin chan16Sent < 2 ^ 64) as Hb by (by vm_compute).
  assert (NewEndpoint chan16Sent 1 2000 = Ret chan16 (inl 0%nat)) as Hn
    by (vm_compute; reflexivity).
  split; [done|].
  destruct (C6_NewEndpoint_cursor chan16Sent 1 2000 chan16 0%nat Hb Hn)
    as (c1 & k & Hc & Hmin & _).
  vm_compute in Hc. injection Hc as <- <-.
  rewrite Hmin. vm_compute. reflexivity.
Defined.

(** C7, a run: eight values sent one millisecond apart and read nine
    milliseconds after the start with [maxAge] of four milliseconds: the
    first four are skipped, the last four delivered. *)
Lemma C7_age_filter_run :
  exists s,
    Range 0 9 chanAged 0 (fun _ _ => true) (4 * millisecond)
      (clock_from (1000 + 8 * millisecond + 1000) 1000) = Susp s /\
    rs_calls s = [(5, None, false); (6, None, false); (7, None, false);
                  (8, None, false)] /\
    cursor (the_ep (rs_chan s) 0) = 8.
Proof. eexists. split_and!; vm_compute; reflexivity. Qed.

(** The same endpoint with [maxAge = 0]: every slot is delivered. *)
Lemma C7_no_filter_run :
  exists s,
    Range 0 9 chanAged 0 (fun _ _ => true) 0
      (clock_from (1000 + 8 * millisecond + 1000) 1000) = Susp s /\
    rs_calls s = [(1, None, false); (2, None, false); (3, None, false);
                  (4, None, false); (5, None, false); (6, None, false);
                  (7, None, false); (8, None, false)].
Proof. eexists. split_and!; vm_compute; reflexivity. Qed.


Lemma C8_Close_idempotent_witness :
  (channelState chanOne = active /\
   endpointsActivity (endpoints chanOne) = idling /\
   entries_in_range chanOne = true) /\
  exists c1, Close chanOne (Some "first"%string) = Ret c1 tt /\
             Close c1 (Some "second"%string) = Ret c1 tt /\
             channelState c1 = closed /\ err c1 = Some "first"%string.
Proof.
  split; [by split_and!|].
  exact (C8_Close_idempotent chanOne (Some "first"%string)
           (Some "second"%string) eq_refl eq_refl eq_refl).
Defined.

Lemma C9_window_size_witness :
  reachable 0 Z.log2_up 16 chan16Slid /\
  end_ chan16Slid - begin chan16Slid = 16.
Proof.
  assert (reachable 0 Z.log2_up 16 chan16Slid) as Hr.
  { apply (reachable_step 0 Z.log2_up 16 OpSlideBuffer chan16);
      [|vm_compute; reflexivity].
    apply (reachable_step 0 Z.log2_up 16 (OpNewEndpoint 1 2000) chan16Sent);
      [|vm_compute; reflexivity].
    apply (reachable_step 0 Z.log2_up 16 (OpFastSend 1 13)
             (state_after (state_after chan16Fresh
                             (FastSend 1 chan16Fresh 11))
                (FastSend 1 (state_after chan16Fresh
                               (FastSend 1 chan16Fresh 11)) 12)));
      [|vm_compute; reflexivity].
    apply (reachable_step 0 Z.log2_up 16 (OpFastSend 1 12)
             (state_after chan16Fresh (FastSend 1 chan16Fresh 11)));
      [|vm_compute; reflexivity].
    apply (reachable_step 0 Z.log2_up 16 (OpFastSend 1 11) chan16Fresh);
      [|vm_compute; reflexivity].
    apply (reachable_new 0 Z.log2_up 16 16 1 1000);
      vm_compute; reflexivity. }
  split; [exact Hr|].
  destruct (C9_window_size 0 Z.log2_up 16 chan16Slid Hr) as (_ & _ & H).
  apply H; by vm_compute.
Defined.

(** C10, a run: the endpoint of a closed channel latches the close and
    parks; the endpoint that [NewEndpoint] makes of its record starts
    with the latch set. *)
Lemma C10_latch_carried_over :
  exists s c',
    Range 0 3 chanClosed 0 (fun _ _ => true) 0 (clock_from 3000 600000)
      = Ret s tt /\
    rs_calls s = [(0, Some "bye"%string, true)] /\
    rs_chan s = chanDrained /\
    cursor (the_ep chanDrained 0) = parked /\
    endpointClosed (the_ep chanDrained 0) = 1 /\
    NewEndpoint chanDrained 0 5000000 = Ret c' (inl 0%nat) /\
    cursor (the_ep c' 0) = 0 /\
    endpointState (the_ep c' 0) = closed /\
    endpointClosed (the_ep c' 0) = 1.
Proof. eexists _, _. split_and!; vm_compute; reflexivity. Qed.

Lemma C10_recycled_record_witness :
  (len (endpoints chanDrained)
     = Z.of_nat (length (entry (endpoints chanDrained)))) /\
  exists c', NewEndpoint chanDrained 0 5000000 = Ret c' (inl 0%nat) /\
    entry (endpoints c') =
      [{| chanRef := true; cursor := 0; endpointState := closed;
          lastActive := 5000000; endpointClosed := 1 |}].
Proof.
  split; [reflexivity|].
  pose (c' := state_after chanDrained (NewEndpoint chanDrained 0 5000000)).
  assert (NewEndpoint chanDrained 0 5000000 = Ret c' (inl 0%nat)) as Hn
    by (vm_compute; reflexivity).
  exists c'. split; [exact Hn|].
  destruct (C10_recycled_record chanDrained 0 5000000 c' 0%nat eq_refl Hn)
    as (ep & st & Hep & _ & Hen & _).
  vm_compute. reflexivity.
Defined.
(** ** Runs of the further properties *)

Lemma run_chanClosedFull : run 0 chanOne chanClosedFull.
Proof.
  apply (run_step 0 (OpSend 1 7 3000) chanOne chanClosed);
    [|vm_compute; reflexivity].
  apply (run_step 0 (OpClose (Some "bye"%string)) chanOne chanOneEp);
    [|vm_compute; reflexivity].
  apply (run_step 0 (OpNewEndpoint 0 2000) chanOne chanOne);
    [|vm_compute; reflexivity].
  apply run_refl.
Qed.

Lemma reachable_chanClosedFull : reachable 0 Z.log2_up 1 chanClosedFull.
Proof.
  apply (reachable_step 0 Z.log2_up 1 (OpSend 1 7 3000) chanClosed);
    [|vm_compute; reflexivity].
  apply (reachable_step 0 Z.log2_up 1 (OpClose (Some "bye"%string))
           chanOneEp); [|vm_compute; reflexivity].
  apply (reachable_step 0 Z.log2_up 1 (OpNewEndpoint 0 2000) chanOne);
    [|vm_compute; reflexivity].
  apply (reachable_new 0 Z.log2_up 1 1 1 1000); vm_compute; reflexivity.
Qed.

Lemma commitData_idempotent_witness :
  commitData chanClosedFull = Ret chanCommitted 1 /\
  commitData chanCommitted = Ret chanCommitted 1.
Proof.
  assert (commitData chanClosedFull = Ret chanCommitted 1) as H
    by (vm_compute; reflexivity).
  split; [exact H | exact (commitData_idempotent _ _ _ H)].
Defined.

Lemma Closed_permanent_witness :
  (run 0 chanClosed chanClosedFull /\ Closed chanClosed = true) /\
  Closed chanClosedFull = true /\ err chanClosedFull = err chanClosed.
Proof.
  assert (run 0 chanClosed chanClosedFull) as Hr.
  { apply (run_step 0 (OpSend 1 7 3000) chanClosed chanClosed);
      [apply run_refl | vm_compute; reflexivity]. }
  split; [split; [exact Hr | reflexivity]|].
  exact (Closed_permanent 0 chanClosed chanClosedFull Hr eq_refl).
Defined.

Lemma sizes_constant_witness :
  run 0 chanOne chanClosedFull /\
  mod_ chanClosedFull = mod_ chanOne /\
  start chanClosedFull = start chanOne /\
  length (buffer chanClosedFull) = length (buffer chanOne) /\
  length (written chanClosedFull) = length (written chanOne) /\
  length (entry (endpoints chanClosedFull))
    = length (entry (endpoints chanOne)).
Proof.
  split; [exact run_chanClosedFull|].
  exact (sizes_constant 0 chanOne chanClosedFull run_chanClosedFull).
Defined.

Lemma slots_in_range_witness :
  (reachable 0 Z.log2_up 16 chan16Fresh /\ 1 <= 16) /\
  (slot chan16Fresh 21 < length (buffer chan16Fresh))%nat /\
  (slot chan16Fresh 21 < length (written chan16Fresh))%nat.
Proof.
  assert (reachable 0 Z.log2_up 16 chan16Fresh) as Hr.
  { apply (reachable_new 0 Z.log2_up 16 16 1 1000); vm_compute; reflexivity. }
  assert (1 <= 16) as HN by lia.
  split; [split; [exact Hr | exact HN]|].
  exact (slots_in_range 0 Z.log2_up 16 chan16Fresh 21 Hr HN).
Defined.

Lemma guards_free_witness :
  reachable 0 Z.log2_up 1 chanClosedFull /\
  endpointsActivity (endpoints chanClosedFull) = idling /\
  committerActivity chanClosedFull = resting /\
  0 <= len (endpoints chanClosedFull)
    <= Z.of_nat (length (entry (endpoints chanClosedFull))).
Proof.
  split; [exact reachable_chanClosedFull|].
  exact (guards_free 0 Z.log2_up 1 chanClosedFull reachable_chanClosedFull).
Defined.

Lemma Close_slideBuffer_return_witness :
  reachable 0 Z.log2_up 1 chanClosedFull /\
  (exists c', Close chanClosedFull None = Ret c' tt) /\
  (exists c' more, slideBuffer chanClosedFull = Ret c' more).
Proof.
  split; [exact reachable_chanClosedFull|].
  exact (Close_slideBuffer_return 0 Z.log2_up 1 chanClosedFull None
           reachable_chanClosedFull).
Defined.

Lemma Range_returns_parked_witness :
  Range 0 3 chanClosed 0 (fun _ _ => true) 0 (clock_from 3000 600000)
    = Ret rangeDrained tt /\
  cursor (the_ep (rs_chan rangeDrained) 0) = parked.
Proof.
  assert (Range 0 3 chanClosed 0 (fun _ _ => true) 0
            (clock_from 3000 600000) = Ret rangeDrained tt) as H
    by (vm_compute; reflexivity).
  split; [exact H|].
  exact (Range_returns_parked 0 3 chanClosed 0 (fun _ _ => true) 0
           (clock_from 3000 600000) rangeDrained H).
Defined.

Lemma Range_process_cancel_witness :
  (entry (endpoints chan16) !! 0%nat = Some (the_ep chan16 0) /\
   cursor (the_ep chan16 0) <> 3 /\
   buffer chan16 !! slot chan16 (cursor (the_ep chan16 0)) = Some 13) /\
  exists s',
    Range_process 1 0 (fun _ _ => false) 0 (clock_from 0 1) 3
      {| rs_chan := chan16; rs_tick := 0; rs_calls := [] |} = Ret s' false /\
    rs_calls s' = [] ++ [(13, None, false)] /\
    cursor (the_ep (rs_chan s') 0) = parked /\
    endpointState (the_ep (rs_chan s') 0) = canceled.
Proof.
  assert (cursor (the_ep chan16 0) <> 3) as Hk by (by vm_compute).
  split; [split_and!; [reflexivity | exact Hk | reflexivity]|].
  exact (Range_process_cancel 0%nat 0%nat (fun _ _ => false)
           (clock_from 0 1) 3
           {| rs_chan := chan16; rs_tick := 0; rs_calls := [] |}
           (the_ep chan16 0) 13 eq_refl Hk eq_refl (or_intror eq_refl)).
Defined.

Lemma Range_process_delivers_witness :
  (entry (endpoints chanAged) !! 0%nat = Some (the_ep chanAged 0) /\
   endpointState (the_ep chanAged 0) <> canceled /\
   cursor (the_ep chanAged 0) = 0) /\
  exists s',
    Range_process 9 0 (fun _ _ => true) 0 (clock_from 0 1)
      (cursor (the_ep chanAged 0) + Z.of_nat 8)
      {| rs_chan := chanAged; rs_tick := 0; rs_calls := [] |} = Ret s' true /\
    rs_calls s' = [] ++ pending chanAged (cursor (the_ep chanAged 0)) 8 /\
    length (pending chanAged (cursor (the_ep chanAged 0)) 8) = 8%nat /\
    cursor (the_ep (rs_chan s') 0) = cursor (the_ep chanAged 0) + Z.of_nat 8.
Proof.
  assert (endpointState (the_ep chanAged 0) <> canceled) as Hs
    by (by vm_compute).
  split; [split_and!; [reflexivity | exact Hs | reflexivity]|].
  apply (Range_process_delivers 8 9 0%nat (fun _ _ => true) (clock_from 0 1)
           {| rs_chan := chanAged; rs_tick := 0; rs_calls := [] |}
           (the_ep chanAged 0)); [lia | reflexivity | exact Hs | done
                                 | by vm_compute | by vm_compute |].
  intros x. apply slot_lt; [by vm_compute | vm_compute; lia].
Defined.

Lemma Close_marks_endpoints_witness :
  (channelState chanOneEp = active /\
   Close chanOneEp (Some "bye"%string) = Ret chanClosed tt) /\
  live (endpoints chanClosed) !! 0%nat =
    Some (set_endpointState closed (the_ep chanOneEp 0)) /\
  channelState chanClosed = closed /\ err chanClosed = Some "bye"%string.
Proof.
  assert (Close chanOneEp (Some "bye"%string) = Ret chanClosed tt) as Hc
    by (vm_compute; reflexivity).
  split; [split; [reflexivity | exact Hc]|].
  destruct (Close_marks_endpoints chanOneEp (Some "bye"%string) chanClosed
              eq_refl Hc) as (Hl & Hs & He & _).
  split; [|split; [exact Hs | exact He]].
  exact (Hl 0%nat (the_ep chanOneEp 0) eq_refl).
Defined.

Lemma Cancel_after_Close_witness :
  (channelState chanOneEp = active /\
   Close chanOneEp (Some "bye"%string) = Ret chanClosed tt /\
   (0 < length (live (endpoints chanOneEp)))%nat) /\
  Cancel chanClosed 0 = chanClosed.
Proof.
  assert (Close chanOneEp (Some "bye"%string) = Ret chanClosed tt) as Hc
    by (vm_compute; reflexivity).
  assert (0 < length (live (endpoints chanOneEp)))%nat as Hl
    by (vm_compute; lia).
  split; [split_and!; [reflexivity | exact Hc | exact Hl]|].
  exact (Cancel_after_Close chanOneEp (Some "bye"%string) chanClosed 0%nat
           eq_refl Hc Hl).
Defined.

Lemma FastSend_full_buffer_witness :
  (endpointsActivity (endpoints chanOneSent) = idling /\
   entries_in_range chanOneSent = true /\
   ~ begin chanOneSent < slowest chanOneSent <= end_ chanOneSent /\
   commit chanOneSent = end_ chanOneSent /\
   channelState chanOneSent = active) /\
  FastSend 5 chanOneSent 12 = Susp chanOneSent.
Proof.
  assert (~ begin chanOneSent < slowest chanOneSent <= end_ chanOneSent)
    as Hs by (vm_compute; intros [_ H]; by apply H).
  split; [split_and!; [reflexivity | reflexivity | exact Hs | reflexivity..]|].
  destruct (FastSend_full_buffer chanOneSent 12 eq_refl eq_refl Hs eq_refl)
    as [Ha _].
  exact (Ha eq_refl 5%nat).
Defined.

Lemma NewEndpoint_error_witness :
  NewEndpoint chanCanceled 0 3000 = Ret chanCanceled (inr ErrOutOfEndpoints) /\
  len (endpoints chanCanceled)
    = Z.of_nat (length (entry (endpoints chanCanceled))) /\
  Forall (fun ep => cursor ep <> parked) (live (endpoints chanCanceled)).
Proof.
  assert (NewEndpoint chanCanceled 0 3000
          = Ret chanCanceled (inr ErrOutOfEndpoints)) as Hn
    by (vm_compute; reflexivity).
  split; [exact Hn|].
  destruct (NewEndpoint_error chanCanceled 0 3000 chanCanceled
              (inr ErrOutOfEndpoints) Hn) as [[Hw _] _].
  exact (Hw eq_refl).
Defined.

Lemma Send_reserves_one_witness :
  leaves (Send 1 chanClosedFull 8 4000) chanClosedOver /\
  write chanClosedOver = u64 (write chanClosedFull + 1) /\
  commit chanClosedOver = commit chanClosedFull.
Proof.
  assert (leaves (Send 1 chanClosedFull 8 4000) chanClosedOver) as Hl
    by (vm_compute; reflexivity).
  split; [exact Hl|].
  exact (Send_reserves_one 1 chanClosedFull 8 4000 chanClosedOver Hl).
Defined.

Lemma FastSend_untimed_witness :
  leaves (FastSend 1 chanOne 11) chanOneSent /\
  write chanOneSent = write chanOne /\ written chanOneSent = written chanOne.
Proof.
  assert (leaves (FastSend 1 chanOne 11) chanOneSent) as Hl
    by (vm_compute; reflexivity).
  split; [exact Hl|].
  exact (FastSend_untimed 1 chanOne 11 chanOneSent Hl).
Defined.

Lemma senders_do_not_panic_witness :
  (reachable 0 Z.log2_up 1 chanClosedFull /\ 1 <= 1) /\
  FastSend 1 chanClosedFull 8 <> Panic index_out_of_range /\
  (Send 1 chanClosedFull 8 4000 = Panic index_out_of_range ->
   since (start chanClosedFull) 4000 = 0).
Proof.
  assert (1 <= 1) as HN by lia.
  split; [split; [exact reachable_chanClosedFull | exact HN]|].
  exact (senders_do_not_panic 0 Z.log2_up 1 chanClosedFull 1 8 4000
           index_out_of_range reachable_chanClosedFull HN).
Defined.

Lemma Send_commit_roundtrip_witness :
  (committerActivity chanClosed = resting /\
   commit chanClosed = write chanClosed /\
   write chanClosed < end_ chanClosed /\
   all_even (written chanClosed) /\
   since (start chanClosed) 3000 = 2000) /\
  exists c1 c2,
    Send 1 chanClosed 7 3000 = Ret c1 tt /\
    commitData c1 = Ret c2 (write chanClosed + 1) /\
    commit c2 = write chanClosed + 1 /\
    buffer c2 !! slot chanClosed (write chanClosed) = Some 7 /\
    written c2 !! slot chanClosed (write chanClosed)
      = Some (2 * since (start chanClosed) 3000) /\
    Z.shiftr (2 * since (start chanClosed) 3000) 1
      = since (start chanClosed) 3000 /\
    all_even (written c2).
Proof.
  assert (write chanClosed < end_ chanClosed) as Hroom by (by vm_compute).
  assert (all_even (written chanClosed)) as Hev.
  { intros [|[|i]] m H; vm_compute in H; [|done..].
    injection H as <-. by vm_compute. }
  split; [split_and!; [reflexivity | reflexivity | exact Hroom | exact Hev
                       | vm_compute; reflexivity]|].
  apply (Send_commit_roundtrip chanClosed 7 3000);
    [reflexivity | reflexivity | by vm_compute | exact Hroom | by vm_compute
     | by vm_compute | vm_compute; lia | vm_compute; lia | exact Hev
     | by vm_compute].
Defined.

Lemma FastSend_delivered_witness :
  (commit chanOneEp <> end_ chanOneEp /\
   entry (endpoints chanOneEp) !! 0%nat = Some (the_ep chanOneEp 0) /\
   cursor (the_ep chanOneEp 0) = commit chanOneEp /\
   entry (endpoints chanCanceled) !! 0%nat = Some (the_ep chanCanceled 0) /\
   endpointState (the_ep chanCanceled 0) = canceled) /\
  (exists c' s',
     FastSend 1 chanOneEp 42 = Ret c' tt /\
     commit c' = commit chanOneEp + 1 /\
     Range_process 2 0 (fun _ _ => true) 0 (clock_from 0 1) (commit c')
       {| rs_chan := c'; rs_tick := 0; rs_calls := [] |} = Ret s' true /\
     rs_calls s' = [] ++ [(42, None, false)] /\
     cursor (the_ep (rs_chan s') 0) = commit c') /\
  (exists c' s',
     FastSend 1 chanCanceled 42 = Ret c' tt /\
     commit c' = commit chanCanceled + 1 /\
     Range_process 2 0 (fun _ _ => true) 0 (clock_from 0 1) (commit c')
       {| rs_chan := c'; rs_tick := 0; rs_calls := [] |} = Ret s' false /\
     rs_calls s' = [] ++ [(42, None, false)] /\
     cursor (the_ep (rs_chan s') 0) = parked).
Proof.
  assert (commit chanOneEp <> end_ chanOneEp) as Hr by (by vm_compute).
  assert (commit chanCanceled <> end_ chanCanceled) as Hr' by (by vm_compute).
  split; [split_and!; [exact Hr | reflexivity..]|]. split.
  - exact (FastSend_delivered chanOneEp 42 0%nat (the_ep chanOneEp 0)
             (fun _ _ => true) (clock_from 0 1) 0%nat [] 0%nat
             Hr (Z.le_refl 0) eq_refl (Z.le_refl 0) (Nat.lt_0_1)
             eq_refl eq_refl).
  - exact (FastSend_delivered chanCanceled 42 0%nat (the_ep chanCanceled 0)
             (fun _ _ => true) (clock_from 0 1) 0%nat [] 0%nat
             Hr' (Z.le_refl 0) eq_refl (Z.le_refl 0) (Nat.lt_0_1)
             eq_refl eq_refl).
Defined.

